(** * EventBus: a synchronous publish/subscribe dispatcher

    Shallow embedding of [include/eventbus/EventBus.h] and the properties
    its specification states about it.

    The C++ objects live on a heap: every [new] (a [Registrations] list, an
    [EventRegistration], a [std::list] node) takes a fresh address, and the
    bus refers to them by address, as the code does.  Operations are written
    in a small monad that threads the program state, records the calls that
    reach user code, and stops on undefined behaviour. *)

From stdpp Require Import base numbers option list gmap.

#[local] Set Warnings "-clear-no-such-hyp".
#[local] Set Default Proof Using "Type".
Local Open Scope N_scope.

(** ** Data *)

(** [std::type_index]: one number per concrete event class. *)
Abbreviation type_index := N (only parsing).

(** Heap addresses. *)
Abbreviation loc := N (only parsing).

(** [void*] values the bus stores.  [object a] is the address of a live
    object of the caller.  [address_of_parameter] is the address of a
    by-value parameter of a bus method, i.e. of a slot in that call's own
    activation record. *)
Inductive void_ptr :=
  | nullptr
  | object (a : N)
  | address_of_parameter.

Global Instance void_ptr_eq_dec : EqDecision void_ptr.
Proof. solve_decision. Defined.

(** [RoutedEvent&]: an event seen through its common base.  [typeid] is the
    dynamic (most derived) class of the object. *)
Record RoutedEvent := { typeid : type_index; payload : Z }.

Global Instance RoutedEvent_eq_dec : EqDecision RoutedEvent.
Proof. solve_decision. Defined.

(** The private class [EventBus::EventRegistration] (its four members). *)
Record EventRegistration := {
  handler : void_ptr;
  registrations : loc;
  sender : void_ptr;
  registered : bool
}.

(** [std::list<EventRegistration*>]: a sequence of nodes, each with its own
    address and the pointer it holds.  An iterator is a node address, or
    the past-the-end position. *)
Abbreviation Registrations := (list (N * N)) (only parsing).

Inductive iterator :=
  | at_node (n : loc)
  | past_the_end.

(** Calls that reach user code, in the order they happen:
    [Handled reg h e] is [dispatch(e)] entered on the handler object [h],
    reached through the registration at address [reg];
    [Delivered sub cb e] is the callback [cb] of subscription [sub] called
    with [e]. *)
Inductive observation :=
  | Handled (reg : loc) (h : N) (e : RoutedEvent)
  | Delivered (sub : N) (cb : N) (e : RoutedEvent).

Global Instance observation_eq_dec : EqDecision observation.
Proof. solve_decision. Defined.

(** What a callback of the descriptor path does when called: it returns, or
    its [dynamic_cast] to a reference type throws [std::bad_cast]. *)
Inductive raised (A : Type) :=
  | Returned (a : A)
  | Threw_bad_cast.
Arguments Returned {A} a.
Arguments Threw_bad_cast {A}.

Global Instance raised_eq_dec {A} `{EqDecision A} : EqDecision (raised A).
Proof. solve_decision. Defined.

(** [SubscriptionDescriptor(typeid(TEvent), internalHandler, internalPredicate)].
    A call of the type-erased handler yields the user callbacks it called. *)
Record SubscriptionDescriptor := {
  sd_type : type_index;
  sd_handler : RoutedEvent → raised (list (N * RoutedEvent));
  sd_predicate : RoutedEvent → raised bool
}.

(** Modelled from the spec: [HandlerCollectionMap] (HandlerCollectionMap.h
    is not among the sources).  It keeps the descriptors it was given, in
    insertion order, each under the handle returned for it. *)
Record HandlerCollectionMap := {
  entries : list (N * SubscriptionDescriptor);
  next_subscription : N
}.

(** The members of [EventBus] and the heap they point into. *)
Record state := {
  handlers : gmap N (option N);          (* TypeMap; [None] is a null pointer *)
  _map : gmap N N;
  _collectionMap : HandlerCollectionMap;
  lists : gmap N (list (N * N));         (* the Registrations objects *)
  regs : gmap N EventRegistration;       (* the EventRegistration objects *)
  brk : N                                (* next address [new] hands out *)
}.

Definition set_handlers (f : gmap N (option N) → gmap N (option N)) (s : state) : state :=
  {| handlers := f (handlers s); _map := _map s; _collectionMap := _collectionMap s;
     lists := lists s; regs := regs s; brk := brk s |}.

Definition set_collectionMap (f : HandlerCollectionMap → HandlerCollectionMap) (s : state) : state :=
  {| handlers := handlers s; _map := _map s; _collectionMap := f (_collectionMap s);
     lists := lists s; regs := regs s; brk := brk s |}.

Definition set_lists (f : gmap N (list (N * N)) → gmap N (list (N * N))) (s : state) : state :=
  {| handlers := handlers s; _map := _map s; _collectionMap := _collectionMap s;
     lists := f (lists s); regs := regs s; brk := brk s |}.

Definition set_regs (f : gmap N EventRegistration → gmap N EventRegistration) (s : state) : state :=
  {| handlers := handlers s; _map := _map s; _collectionMap := _collectionMap s;
     lists := lists s; regs := f (regs s); brk := brk s |}.

Definition set_brk (f : N → N) (s : state) : state :=
  {| handlers := handlers s; _map := _map s; _collectionMap := _collectionMap s;
     lists := lists s; regs := regs s; brk := f (brk s) |}.

(** [EventBus() {}]: empty maps, nothing allocated. *)
Definition new_EventBus : state :=
  {| handlers := ∅; _map := ∅;
     _collectionMap := {| entries := []; next_subscription := 0 |};
     lists := ∅; regs := ∅; brk := 1 |}.

(** ** The monad *)

(** How a program stops early.  [OutOfFuel] belongs to the model: the
    range-for loop below counts its steps down from the length of the list;
    from a well-formed state it never gets there ([FireEvent_Stop]). *)
Inductive fault :=
  | UndefinedBehaviour   (* a dangling pointer or iterator was used *)
  | BadCast              (* std::bad_cast left the call *)
  | OutOfFuel.

Inductive outcome (A : Type) :=
  | Done (a : A)
  | Stop (f : fault).
Arguments Done {A} a.
Arguments Stop {A} f.

(** A program, run from a state, makes calls into user code and then
    returns a value and the next state, or stops.  The calls made before
    it stops are kept. *)
Definition M (A : Type) : Type := state → list observation * outcome (A * state).

Global Instance M_ret : MRet M := λ A a s, ([], Done (a, s)).

Global Instance M_bind : MBind M := λ A B f m s,
  match m s with
  | (t, Done (a, s')) => let '(t', o) := f a s' in (t ++ t', o)
  | (t, Stop x) => (t, Stop x)
  end.

Definition fail {A} (x : fault) : M A := λ s, ([], Stop x).
Definition emit (o : observation) : M unit := λ s, ([o], Done ((), s)).
Definition gets {A} (f : state → A) : M A := λ s, ([], Done (f s, s)).
Definition modify (f : state → state) : M unit := λ s, ([], Done ((), f s)).

(** Dereferencing: a pointer to no live object is undefined behaviour. *)
Definition load {A} (o : option A) : M A :=
  match o with Some a => mret a | None => fail UndefinedBehaviour end.

(** [new]: the next unused address. *)
Definition new : M loc :=
  l ← gets brk; modify (set_brk N.succ);; mret l.

(** ** std::unordered_map and std::list *)

(** [handlers[k]] read: [operator[]] value-initialises a missing entry. *)
Definition handlers_index (k : type_index) : M (option loc) :=
  hs ← gets handlers;
  match hs !! k with
  | Some p => mret p
  | None => modify (set_handlers (insert k None));; mret None
  end.

(** [handlers[k] = p]. *)
Definition handlers_assign (k : type_index) (p : option loc) : M unit :=
  modify (set_handlers (insert k p)).

(** [*L] for a pointer to a list: reading through a pointer to no list is
    undefined. *)
Definition list_load (L : loc) : M (list (N * N)) :=
  ls ← gets lists; load (ls !! L).

Definition list_store (L : loc) (nodes : list (N * N)) : M unit :=
  modify (set_lists (insert L nodes)).

(** [new Registrations()]. *)
Definition new_Registrations : M loc :=
  L ← new; list_store L [];; mret L.

(** [L->push_back(v)]: a new node at the end. *)
Definition push_back (L : loc) (v : loc) : M unit :=
  nodes ← list_load L; n ← new; list_store L (nodes ++ [(n, v)]).

(** [L->remove(v)]: every node holding [v] is erased. *)
Definition remove (L : loc) (v : loc) : M unit :=
  nodes ← list_load L; list_store L (filter (λ nd, nd.2 ≠ v) nodes).

(** [begin()]: the first node, or the end of an empty list. *)
Definition begin (nodes : list (N * N)) : iterator :=
  match nodes with
  | [] => past_the_end
  | (n, _) :: _ => at_node n
  end.

(** The part of the list behind node [n]; [None] when [n] is not a node of
    the list (it was erased). *)
Fixpoint behind (n : loc) (nodes : list (N * N)) : option (list (N * N)) :=
  match nodes with
  | [] => None
  | (m, _) :: rest => if decide (m = n) then Some rest else behind n rest
  end.

(** The pointer node [n] holds; [None] when [n] is not a node of the list. *)
Fixpoint held (n : loc) (nodes : list (N * N)) : option loc :=
  match nodes with
  | [] => None
  | (m, v) :: rest => if decide (m = n) then Some v else held n rest
  end.

(** [*it] and [++it] on a list iterator; both need the node to be alive. *)
Definition iterator_deref (L : loc) (n : loc) : M loc :=
  nodes ← list_load L; load (held n nodes).

Definition iterator_increment (L : loc) (n : loc) : M iterator :=
  nodes ← list_load L; rest ← load (behind n nodes); mret (begin rest).

(** [for (auto& reg : *L) body(reg)].  The end iterator is fixed, the list
    is read again at every step. *)
Fixpoint range_for (fuel : nat) (L : loc) (it : iterator) (body : loc → M unit) : M unit :=
  match it with
  | past_the_end => mret ()
  | at_node n =>
      match fuel with
      | O => fail OutOfFuel
      | S fuel' =>
          reg ← iterator_deref L n;
          body reg;;
          it' ← iterator_increment L n;
          range_for fuel' L it' body
      end
  end.

(** ** EventRegistration *)

(** [*r] for a pointer to a registration. *)
Definition reg_load (r : loc) : M EventRegistration :=
  rs ← gets regs; load (rs !! r).

(** [new EventRegistration(handler, registrations, sender)]; the
    constructor sets [registered(true)]. *)
Definition new_EventRegistration (h : void_ptr) (L : loc) (snd : void_ptr) : M loc :=
  r ← new;
  modify (set_regs (insert r
    {| handler := h; registrations := L; sender := snd; registered := true |}));;
  mret r.

(** [void* const getHandler() { return handler; }] *)
Definition getHandler (r : loc) : M void_ptr :=
  reg ← reg_load r; mret (handler reg).

(** [void* const getSender() { return sender; }] *)
Definition getSender (r : loc) : M void_ptr :=
  reg ← reg_load r; mret (sender reg).

Definition set_registered (b : bool) (reg : EventRegistration) : EventRegistration :=
  {| handler := handler reg; registrations := registrations reg;
     sender := sender reg; registered := b |}.

(** [if (registered) { registrations->remove(this); registered = false; }] *)
Definition removeHandler (r : loc) : M unit :=
  reg ← reg_load r;
  if registered reg then
    remove (registrations reg) r;;
    modify (set_regs (insert r (set_registered false reg)))
  else mret ().

(** ** EventBus: the typed registry *)

(** What a handler does to the bus while it runs: it may call
    [removeHandler] on registrations it has the handle of, its own among
    them.  (Handlers that register or fire from inside a dispatch are not
    part of this model.) *)
Inductive bus_call :=
  | call_removeHandler (r : loc).

Definition perform (c : bus_call) : M unit :=
  match c with
  | call_removeHandler r => removeHandler r
  end.

Fixpoint perform_all (cs : list bus_call) : M unit :=
  match cs with
  | [] => mret ()
  | c :: cs' => perform c;; perform_all cs'
  end.

(** [AddHandler<T>(EventHandler<T>& handler, void* sender)].  [h] is the
    address of the handler object.  The registration is constructed with
    [&sender], the address of the parameter, so [snd] itself is stored
    nowhere. *)
Definition AddHandler_sender (T : type_index) (h : N) (snd : void_ptr) : M loc :=
  registrations ← handlers_index T;
  registrations ← match registrations with
                  | None =>
                      L ← new_Registrations;
                      handlers_assign T (Some L);;
                      mret L
                  | Some L => mret L
                  end;
  registration ← new_EventRegistration (object h) registrations address_of_parameter;
  push_back registrations registration;;
  mret registration.

(** [AddHandler<T>(EventHandler<T>& handler)]: the same, with [nullptr] as
    sender. *)
Definition AddHandler (T : type_index) (h : N) : M loc :=
  registrations ← handlers_index T;
  registrations ← match registrations with
                  | None =>
                      L ← new_Registrations;
                      handlers_assign T (Some L);;
                      mret L
                  | Some L => mret L
                  end;
  registration ← new_EventRegistration (object h) registrations nullptr;
  push_back registrations registration;;
  mret registration.

Section TypedRegistry.

(** [EventHandler<T>::dispatch] (EventHandler.h is not among the sources):
    for the handler object at an address and the event it receives, the
    calls the handler makes back into the bus. *)
Variable dispatch : N → RoutedEvent → list bus_call.

(** [static_cast<EventHandler<RoutedEvent>*>(reg->getHandler())->dispatch(e)]. *)
Definition dispatch_to (e : RoutedEvent) (reg : loc) : M unit :=
  h ← getHandler reg;
  match h with
  | object a => emit (Handled reg a e);; perform_all (dispatch a e)
  | _ => fail UndefinedBehaviour
  end.

(** [FireEvent(RoutedEvent& e)].  The loop gets as many steps as the list
    has nodes when it starts. *)
Definition FireEvent (e : RoutedEvent) : M unit :=
  registrations ← handlers_index (typeid e);
  match registrations with
  | None => mret ()
  | Some L =>
      nodes ← list_load L;
      range_for (length nodes) L (begin nodes) (dispatch_to e)
  end.

End TypedRegistry.

(** ** EventBus: the descriptor facade *)

(** Modelled from the spec: [HandlerCollectionMap::Add] accepts a descriptor
    and returns a cancellable handle for it. *)
Definition HandlerCollectionMap_Add (d : SubscriptionDescriptor) : M N :=
  m ← gets _collectionMap;
  let sub := next_subscription m in
  modify (set_collectionMap (λ m,
    {| entries := entries m ++ [(sub, d)]; next_subscription := N.succ sub |}));;
  mret sub.

(** Modelled from the spec: the calls one stored entry receives for an
    event of its type key: the predicate first, the dispatch callback when
    the predicate returned true. *)
Definition notify (e : RoutedEvent) (entry : N * SubscriptionDescriptor) : M unit :=
  match sd_predicate entry.2 e with
  | Threw_bad_cast => fail BadCast
  | Returned false => mret ()
  | Returned true =>
      match sd_handler entry.2 e with
      | Threw_bad_cast => fail BadCast
      | Returned calls => λ s, ((λ c, Delivered entry.1 c.1 c.2) <$> calls, Done ((), s))
      end
  end.

Fixpoint notify_all (e : RoutedEvent) (es : list (N * SubscriptionDescriptor)) : M unit :=
  match es with
  | [] => mret ()
  | entry :: es' => notify e entry;; notify_all e es'
  end.

(** Modelled from the spec: [HandlerCollectionMap::Dispatch] goes through
    the stored, not cancelled entries in insertion order, matches each by
    type key against the event's runtime type, then by predicate. *)
Definition HandlerCollectionMap_Dispatch (e : RoutedEvent) : M unit :=
  m ← gets _collectionMap;
  notify_all e (filter (λ entry, sd_type entry.2 = typeid e) (entries m)).

(** Modelled from the spec: cancelling the handle [Add] returned takes the
    entry out of the collaborator's store. *)
Definition EventSubscription_Cancel (sub : N) : M unit :=
  modify (set_collectionMap (λ m,
    {| entries := filter (λ entry, entry.1 ≠ sub) (entries m);
       next_subscription := next_subscription m |})).

(** [Add] and [Publish] hand over to the collaborator. *)
Definition Add (descriptor : SubscriptionDescriptor) : M N :=
  HandlerCollectionMap_Add descriptor.

Definition Publish (event : RoutedEvent) : M unit :=
  HandlerCollectionMap_Dispatch event.

Section DescriptorFacade.

(** The class hierarchy of the events: [base_of B D] when [B] is an
    unambiguous public base class of [D]. *)
Variable base_of : type_index → type_index → bool.

(** [dynamic_cast<TEvent&>(e)]: succeeds when the object is a [TEvent] or
    of a class derived from it. *)
Definition dynamic_cast (TEvent : type_index) (e : RoutedEvent) : raised RoutedEvent :=
  if decide (typeid e = TEvent) then Returned e
  else if base_of TEvent (typeid e) then Returned e
  else Threw_bad_cast.

(** The user's [std::function<void(TEvent&)>] is named by a number [cb];
    calling it is observed as [Delivered _ cb _].  The user's predicate is
    a function of the event. *)
Definition Subscribe (TEvent : type_index) (cb : N) (predicate : RoutedEvent → bool) : M N :=
  let internalHandler := λ e,
    match dynamic_cast TEvent e with
    | Returned e' => Returned [(cb, e')]
    | Threw_bad_cast => Threw_bad_cast
    end in
  let internalPredicate := λ e,
    match dynamic_cast TEvent e with
    | Returned e' => Returned (predicate e')
    | Threw_bad_cast => Threw_bad_cast
    end in
  let descriptor :=
    {| sd_type := TEvent; sd_handler := internalHandler; sd_predicate := internalPredicate |} in
  Add descriptor.

(** The overload without predicate:
    [return Subscribe<TEvent>(handler, [](TEvent&) { return true; });] *)
Definition Subscribe_handler (TEvent : type_index) (cb : N) : M N :=
  Subscribe TEvent cb (λ _, true).

End DescriptorFacade.

(** ** Client programs

    A client of the bus makes calls into it, one after the other. *)

Inductive api_call :=
  | do_AddHandler (T : type_index) (h : N)
  | do_AddHandler_sender (T : type_index) (h : N) (snd : void_ptr)
  | do_removeHandler (r : loc)
  | do_FireEvent (e : RoutedEvent)
  | do_Add (d : SubscriptionDescriptor)
  | do_Subscribe (T : type_index) (cb : N) (predicate : RoutedEvent → bool)
  | do_Subscribe_handler (T : type_index) (cb : N)
  | do_Publish (e : RoutedEvent)
  | do_Cancel (sub : N).

Section Client.

Variable dispatch : N → RoutedEvent → list bus_call.
Variable base_of : type_index → type_index → bool.

Definition run_call (c : api_call) : M unit :=
  match c with
  | do_AddHandler T h => AddHandler T h;; mret ()
  | do_AddHandler_sender T h snd => AddHandler_sender T h snd;; mret ()
  | do_removeHandler r => removeHandler r
  | do_FireEvent e => FireEvent dispatch e
  | do_Add d => Add d;; mret ()
  | do_Subscribe T cb predicate => Subscribe base_of T cb predicate;; mret ()
  | do_Subscribe_handler T cb => Subscribe_handler base_of T cb;; mret ()
  | do_Publish e => Publish e
  | do_Cancel sub => EventSubscription_Cancel sub
  end.

Fixpoint run_calls (cs : list api_call) : M unit :=
  match cs with
  | [] => mret ()
  | c :: cs' => run_call c;; run_calls cs'
  end.

End Client.

(** ** Well-formed states

    What construction, [AddHandler] and [removeHandler] maintain: list nodes
    have distinct addresses; every pointer stored in a list is a
    registration that is still registered and names that list as its owner;
    every registration's owner and every non-null entry of the type map is a
    live list, distinct type keys have distinct lists; addresses in use are
    below [brk]. *)

Definition node_wf (s : state) (L : loc) (nd : N * N) : Prop :=
  nd.1 < brk s ∧
  match regs s !! nd.2 with
  | Some reg => registrations reg = L ∧ registered reg = true
  | None => False
  end.

Definition list_wf (s : state) (L : loc) (nodes : list (N * N)) : Prop :=
  L < brk s ∧ NoDup nodes.*1 ∧ Forall (node_wf s L) nodes.

Definition reg_wf (s : state) (r : loc) (reg : EventRegistration) : Prop :=
  r < brk s ∧ is_Some (lists s !! registrations reg) ∧
  match handler reg with object _ => True | _ => False end.

Definition entry_wf (s : state) (k : type_index) (p : option loc) : Prop :=
  match p with
  | Some L => is_Some (lists s !! L) ∧
      map_Forall (λ k' p', p' = Some L → k' = k) (handlers s)
  | None => True
  end.

Record wf (s : state) : Prop := {
  wf_lists : map_Forall (list_wf s) (lists s);
  wf_regs : map_Forall (reg_wf s) (regs s);
  wf_handlers : map_Forall (entry_wf s) (handlers s)
}.

Global Instance node_wf_dec s L nd : Decision (node_wf s L nd).
Proof. unfold node_wf. destruct (regs s !! nd.2); apply _. Defined.

Global Instance list_wf_dec s L nodes : Decision (list_wf s L nodes).
Proof. unfold list_wf. apply _. Defined.

Global Instance reg_wf_dec s r reg : Decision (reg_wf s r reg).
Proof. unfold reg_wf. destruct (handler reg); apply _. Defined.

Global Instance entry_wf_dec s k p : Decision (entry_wf s k p).
Proof. unfold entry_wf. destruct p; apply _. Defined.

Global Instance wf_dec s : Decision (wf s).
Proof.
  refine (cast_if (decide (map_Forall (list_wf s) (lists s) ∧
                           map_Forall (reg_wf s) (regs s) ∧
                           map_Forall (entry_wf s) (handlers s))));
    abstract (first [ constructor; tauto | intros [H1 H2 H3]; tauto ]).
Defined.

(** ** Vocabulary of the statements *)

(** The state a program ends in (the initial one if it stops early); used
    to name concrete states. *)
Definition exec {A} (m : M A) (s : state) : state :=
  match (m s).2 with Done (_, s') => s' | Stop _ => s end.

(** The registrations a handler revokes. *)
Definition targets (cs : list bus_call) : list loc :=
  (λ c, match c with call_removeHandler r => r end) <$> cs.

(** [removed X s s']: [s'] is [s] with the registrations [X] taken out of
    every list and marked as not registered. *)
Record removed (X : list loc) (s s' : state) : Prop := {
  removed_handlers : handlers s' = handlers s;
  removed_map : _map s' = _map s;
  removed_collectionMap : _collectionMap s' = _collectionMap s;
  removed_brk : brk s' = brk s;
  removed_lists : ∀ L, lists s' !! L = filter (λ nd, nd.2 ∉ X) <$> lists s !! L;
  removed_regs : ∀ r,
    regs s' !! r =
    (λ reg, if decide (r ∈ X) then set_registered false reg else reg) <$> regs s !! r
}.

(** [shrinks s s']: what holds of the state after any revocations, also
    from states that are not well formed. *)
Record shrinks (s s' : state) : Prop := {
  shrinks_handlers : handlers s' = handlers s;
  shrinks_map : _map s' = _map s;
  shrinks_collectionMap : _collectionMap s' = _collectionMap s;
  shrinks_brk : brk s' = brk s;
  shrinks_lists : ∀ L nodes', lists s' !! L = Some nodes' →
    ∃ nodes, lists s !! L = Some nodes ∧ nodes' ⊆ nodes;
  shrinks_regs : ∀ r reg', regs s' !! r = Some reg' →
    ∃ reg, regs s !! r = Some reg ∧ handler reg' = handler reg ∧
           registrations reg' = registrations reg ∧ sender reg' = sender reg
}.

(** The handler object a registration points to. *)
Definition handler_of (s : state) (r : loc) : option N :=
  match regs s !! r with
  | Some reg => match handler reg with object a => Some a | _ => None end
  | None => None
  end.

Section Passes.

Variable dispatch : N → RoutedEvent → list bus_call.

(** A registration is polite for an event when the handler behind it
    revokes only registrations that exist, and not the one it is being
    called through. *)
Definition polite (s : state) (e : RoutedEvent) (r : loc) : Prop :=
  match handler_of s r with
  | Some a => Forall (λ x, x ≠ r ∧ is_Some (regs s !! x)) (targets (dispatch a e))
  | None => True
  end.

Global Instance polite_dec s e r : Decision (polite s e r).
Proof. unfold polite. destruct (handler_of s r); apply _. Defined.

(** The calls one pass over a list makes when every handler is polite:
    the first node is visited, what its handler revokes leaves the rest
    of the list, and the pass goes on with what is left. *)
Fixpoint pass (fuel : nat) (ho : loc → option N) (e : RoutedEvent)
    (nodes : list (N * N)) : list observation :=
  match fuel, nodes with
  | S fuel', (n, r) :: post =>
      match ho r with
      | Some a =>
          Handled r a e ::
          pass fuel' ho e (filter (λ nd, nd.2 ∉ targets (dispatch a e)) post)
      | None => []
      end
  | _, _ => []
  end.

(** [from_collection s nodes e o]: the call [o] is [dispatch(e)] on the
    handler of a registration held in [nodes]. *)
Definition from_collection (s : state) (nodes : list (N * N)) (e : RoutedEvent)
    (o : observation) : Prop :=
  ∃ n r a, o = Handled r a e ∧ (n, r) ∈ nodes ∧ handler_of s r = Some a.

End Passes.

(** [registered_for s r A]: the registration [r] was made for the type key
    [A], i.e. the list it names as its owner is the list of [A]. *)
Definition registered_for (s : state) (r : loc) (A : type_index) : Prop :=
  ∃ reg, regs s !! r = Some reg ∧ handlers s !! A = Some (Some (registrations reg)).

(** The state after [handlers[T]] was found null and a list was made for it. *)
Definition with_new_list (T : type_index) (s : state) : state :=
  set_handlers (insert T (Some (brk s)))
    (set_lists (insert (brk s) []) (set_brk N.succ s)).

(** The state after a registration was made and pushed on the list [L]
    that held [nodes]. *)
Definition with_new_registration (h snd : void_ptr) (L : loc) (nodes : list (N * N))
    (s : state) : state :=
  set_lists (insert L (nodes ++ [(N.succ (brk s), brk s)]))
    (set_brk N.succ
       (set_regs (insert (brk s)
          {| handler := h; registrations := L; sender := snd; registered := true |})
          (set_brk N.succ s))).

(** Both overloads run the same steps; they differ in the pointer stored as
    sender. *)
Definition register (snd : void_ptr) (T : type_index) (h : N) : M loc :=
  registrations ← handlers_index T;
  registrations ← match registrations with
                  | None =>
                      L ← new_Registrations;
                      handlers_assign T (Some L);;
                      mret L
                  | Some L => mret L
                  end;
  registration ← new_EventRegistration (object h) registrations snd;
  push_back registrations registration;;
  mret registration.

(** The collection of a type key: the nodes of its list, none if it has no
    list. *)
Definition collection (s : state) (T : type_index) : list (N * N) :=
  match handlers s !! T with
  | Some (Some L) => default [] (lists s !! L)
  | _ => []
  end.

(** The state in which [T] has a list. *)
Definition prepared (T : type_index) (s : state) : state :=
  match handlers s !! T with
  | Some (Some _) => s
  | Some None => with_new_list T s
  | None => with_new_list T (set_handlers (insert T None) s)
  end.

(** [added snd T h r s s']: what registering the handler [h] for [T] in
    the state [s] gives: the registration [r] and the state [s']. *)
Record added (snd : void_ptr) (T : type_index) (h : N) (r : loc) (s s' : state) : Prop := {
  added_wf : wf s';
  added_collection : ∃ n, collection s' T = collection s T ++ [(n, r)];
  added_entry : ∃ L,
    handlers s' !! T = Some (Some L) ∧ lists s' !! L = Some (collection s' T) ∧
    regs s' !! r = Some {| handler := object h; registrations := L;
                           sender := snd; registered := true |};
  added_fresh : regs s !! r = None;
  added_regs : ∀ r', r' ≠ r → regs s' !! r' = regs s !! r';
  added_others : ∀ T', T' ≠ T → collection s' T' = collection s T';
  added_handlers : ∀ T' L,
    handlers s !! T' = Some (Some L) → handlers s' !! T' = Some (Some L);
  added_handlers_other : ∀ T', T' ≠ T → handlers s' !! T' = handlers s !! T';
  added_collectionMap : _collectionMap s' = _collectionMap s;
  added_map : _map s' = _map s
}.

(** The descriptor [Subscribe] builds. *)
Definition descriptor_of (base_of : type_index → type_index → bool)
    (T : type_index) (cb : N) (predicate : RoutedEvent → bool) : SubscriptionDescriptor :=
  {| sd_type := T;
     sd_handler := λ e,
       match dynamic_cast base_of T e with
       | Returned e' => Returned [(cb, e')]
       | Threw_bad_cast => Threw_bad_cast
       end;
     sd_predicate := λ e,
       match dynamic_cast base_of T e with
       | Returned e' => Returned (predicate e')
       | Threw_bad_cast => Threw_bad_cast
       end |}.

(** [Subscribe] in the words of the specification: one operation whose
    predicate argument may be left out and is then always true; it builds
    the descriptor whose two callbacks downcast the event and call the
    callback, respectively the predicate, and registers it with [Add]. *)
Definition Subscribe_as_specified (base_of : type_index → type_index → bool)
    (T : type_index) (cb : N) (predicate : option (RoutedEvent → bool)) : M N :=
  Add (descriptor_of base_of T cb (default (λ _, true) predicate)).

(** Handles in the collaborator's store are distinct and below the next
    one it will give out. *)
Definition cm_wf (s : state) : Prop :=
  NoDup (entries (_collectionMap s)).*1 ∧
  Forall (λ entry, entry.1 < next_subscription (_collectionMap s))
    (entries (_collectionMap s)).

Global Instance cm_wf_dec s : Decision (cm_wf s).
Proof. unfold cm_wf. apply _. Defined.

(** [subscribed s sub d]: the store holds [d] under the handle [sub] (it
    was added and not cancelled). *)
Definition subscribed (s : state) (sub : N) (d : SubscriptionDescriptor) : Prop :=
  (sub, d) ∈ entries (_collectionMap s).

(** No stored callback for the event's type key throws when called with it. *)
Definition calm (e : RoutedEvent) (s : state) : Prop :=
  Forall (λ entry : N * SubscriptionDescriptor,
            sd_type entry.2 = typeid e →
            sd_predicate entry.2 e ≠ Threw_bad_cast ∧ sd_handler entry.2 e ≠ Threw_bad_cast)
    (entries (_collectionMap s)).

Global Instance calm_dec e s : Decision (calm e s).
Proof. unfold calm. apply _. Defined.

(** [o] is a call made for the subscription [sub]. *)
Definition delivered_for (sub : N) (o : observation) : Prop :=
  match o with Delivered sub' _ _ => sub' = sub | Handled _ _ _ => False end.

Global Instance delivered_for_dec sub o : Decision (delivered_for sub o).
Proof. destruct o; simpl; apply _. Defined.

(** [o] is a call made through the registration [r]. *)
Definition handled_through (r : loc) (o : observation) : Prop :=
  match o with Handled r' _ _ => r' = r | Delivered _ _ _ => False end.

Global Instance handled_through_dec r o : Decision (handled_through r o).
Proof. destruct o; simpl; apply _. Defined.

(** [revoked s r]: [removeHandler] has run on the registration [r]. *)
Definition revoked (s : state) (r : loc) : Prop :=
  ∃ reg, regs s !! r = Some reg ∧ registered reg = false.

(** What one call of a client can have done to the state when it returns:
    made a registration; revoked some, possibly after [handlers[k]] made a
    null entry for a key it did not have; or changed the collaborator's
    store only. *)
Inductive change (s s' : state) : Prop :=
  | change_added snd T h r : added snd T h r s s' → change s s'
  | change_removed X s0 :
      (s0 = s ∨ ∃ k, handlers s !! k = None ∧ s0 = set_handlers (insert k None) s) →
      removed X s0 s' → change s s'
  | change_store f : s' = set_collectionMap f s → change s s'.

(** [T] has no list: the type map has no entry for it, or a null one. *)
Definition unknown_type (s : state) (T : type_index) : Prop :=
  handlers s !! T = None ∨ handlers s !! T = Some None.

(** The calls [dispatch(e)] on the handlers of the nodes, in the order of
    the nodes. *)
Definition calls_in_order (s : state) (e : RoutedEvent) (nodes : list (N * N)) :
    list observation :=
  omap (λ nd : N * N, (λ a, Handled nd.2 a e) <$> handler_of s nd.2) nodes.

(** No handler of the nodes calls back into the bus when given [e]. *)
Definition quiet (dispatch : N → RoutedEvent → list bus_call) (s : state)
    (e : RoutedEvent) (nodes : list (N * N)) : Prop :=
  Forall (λ nd : N * N, ∀ a, handler_of s nd.2 = Some a → dispatch a e = []) nodes.

(** [courteous dispatch s o]: the handler called in [o] revokes, when given
    the event of that call, only registrations that exist, and not the one
    it was called through. *)
Definition courteous (dispatch : N → RoutedEvent → list bus_call) (s : state)
    (o : observation) : Prop :=
  match o with
  | Handled r a e => Forall (λ x, x ≠ r ∧ is_Some (regs s !! x)) (targets (dispatch a e))
  | Delivered _ _ _ => True
  end.

Global Instance courteous_dec dispatch s o : Decision (courteous dispatch s o).
Proof. destruct o; simpl; apply _. Defined.

(** The registrations revoked by the handlers called in a trace. *)
Definition revoked_by (dispatch : N → RoutedEvent → list bus_call)
    (t : list observation) : list loc :=
  t ≫= λ o, match o with
            | Handled _ a e => targets (dispatch a e)
            | Delivered _ _ _ => []
            end.

(** The type has no subscriber: no list, or an empty one. *)
Definition no_subscribers (s : state) (T : type_index) : Prop :=
  unknown_type s T ∨ ∃ L, handlers s !! T = Some (Some L) ∧ lists s !! L = Some [].

(** [registers_for T c]: the call [c] is an [AddHandler] for the type [T]. *)
Definition registers_for (T : type_index) (c : api_call) : Prop :=
  match c with
  | do_AddHandler T' _ | do_AddHandler_sender T' _ _ => T' = T
  | _ => False
  end.

(** The state with the sender of every registration replaced: the
    registration at [r] gets [f r]. *)
Definition with_sender (p : void_ptr) (reg : EventRegistration) : EventRegistration :=
  {| handler := handler reg; registrations := registrations reg;
     sender := p; registered := registered reg |}.

Definition with_senders (f : loc → void_ptr) (s : state) : state :=
  set_regs (map_imap (λ r reg, Some (with_sender (f r) reg))) s.

(** The senders a state has stored. *)
Definition senders_of (s : state) (r : loc) : void_ptr :=
  match regs s !! r with Some reg => sender reg | None => nullptr end.

(** The result of a program, with the senders of its final state replaced. *)
Definition outcome_with_senders {A} (f : loc → void_ptr) (o : outcome (A * state)) :
    outcome (A * state) :=
  match o with
  | Done (a, s) => Done (a, with_senders f s)
  | Stop x => Stop x
  end.

(** [blind f m]: the program [m] does the same, makes the same calls and
    gives the same result when the stored senders are replaced by [f]. *)
Definition blind {A} (f : loc → void_ptr) (m : M A) : Prop :=
  ∀ s, m (with_senders f s) = ((m s).1, outcome_with_senders f (m s).2).

(** The result of a program, with [f] applied to the descriptor store of
    its final state. *)
Definition outcome_with_store {A} (f : HandlerCollectionMap → HandlerCollectionMap)
    (o : outcome (A * state)) : outcome (A * state) :=
  match o with
  | Done (a, s) => Done (a, set_collectionMap f s)
  | Stop x => Stop x
  end.

(** [apart f m]: the program [m] does the same, makes the same calls and
    gives the same result when [f] has been applied to the descriptor
    store, and leaves what [f] made of the store as it is. *)
Definition apart {A} (f : HandlerCollectionMap → HandlerCollectionMap) (m : M A) : Prop :=
  ∀ s, m (set_collectionMap f s) = ((m s).1, outcome_with_store f (m s).2).

(** The calls one stored entry receives when [notify] returns. *)
Definition notified (e : RoutedEvent) (entry : N * SubscriptionDescriptor) :
    list observation :=
  match sd_predicate entry.2 e, sd_handler entry.2 e with
  | Returned true, Returned calls => (λ c, Delivered entry.1 c.1 c.2) <$> calls
  | _, _ => []
  end.

(** [cancels sub c]: the call [c] cancels the subscription [sub]. *)
Definition cancels (sub : N) (c : api_call) : Prop :=
  match c with do_Cancel sub' => sub' = sub | _ => False end.

(** No list holds the same registration twice. *)
Definition tidy (s : state) : Prop :=
  map_Forall (λ (_ : N) (nodes : list (N * N)), NoDup nodes.*2) (lists s).

Global Instance tidy_dec s : Decision (tidy s).
Proof. unfold tidy. apply _. Defined.

(** * Proofs *)

(** ** Running monadic code *)

Lemma bind_run {A B} (m : M A) (f : A → M B) s :
  (m ≫= f) s =
  match m s with
  | (t, Done (a, s')) => (t ++ (f a s').1, (f a s').2)
  | (t, Stop x) => (t, Stop x)
  end.
Proof.
  unfold mbind, M_bind. destruct (m s) as [t [[a s']|x]]; [|done].
  by destruct (f a s').
Qed.

Lemma bind_Done {A B} (m : M A) (f : A → M B) s t a s' :
  m s = (t, Done (a, s')) → (m ≫= f) s = (t ++ (f a s').1, (f a s').2).
Proof. intros H. by rewrite bind_run, H. Qed.

Lemma bind_Stop {A B} (m : M A) (f : A → M B) s t x :
  m s = (t, Stop x) → (m ≫= f) s = (t, Stop x).
Proof. intros H. by rewrite bind_run, H. Qed.

(** ** Lists of nodes *)

Lemma held_split n v (pre post : list (N * N)) :
  n ∉ pre.*1 → held n (pre ++ (n, v) :: post) = Some v.
Proof.
  induction pre as [|[m w] pre IH]; simpl; intros Hn.
  - by rewrite decide_True.
  - rewrite decide_False by set_solver. apply IH. set_solver.
Qed.

Lemma behind_split n v (pre post : list (N * N)) :
  n ∉ pre.*1 → behind n (pre ++ (n, v) :: post) = Some post.
Proof.
  induction pre as [|[m w] pre IH]; simpl; intros Hn.
  - by rewrite decide_True.
  - rewrite decide_False by set_solver. apply IH. set_solver.
Qed.

Lemma held_elem n v (nodes : list (N * N)) :
  held n nodes = Some v → (n, v) ∈ nodes.
Proof.
  induction nodes as [|[m w] nodes IH]; simpl; [done|].
  case_decide; intros ?; simplify_eq; [left | right; auto].
Qed.

Lemma behind_None n (nodes : list (N * N)) :
  n ∉ nodes.*1 → behind n nodes = None.
Proof.
  induction nodes as [|[m w] nodes IH]; simpl; [done|]. intros Hn.
  rewrite decide_False by set_solver. apply IH. set_solver.
Qed.

Lemma filter_all {A} (P : A → Prop) `{∀ x, Decision (P x)} (l : list A) :
  Forall P l → filter P l = l.
Proof.
  induction 1 as [|x l Hx _ IH]; [done|].
  by rewrite filter_cons_True, IH.
Qed.

Lemma filter_none {A} (P : A → Prop) `{∀ x, Decision (P x)} (l : list A) :
  Forall (λ x, ¬ P x) l → filter P l = [].
Proof.
  induction 1 as [|x l Hx _ IH]; [done|].
  by rewrite filter_cons_False.
Qed.

Lemma filter_agree {A} (P Q : A → Prop) `{∀ x, Decision (P x)} `{∀ x, Decision (Q x)}
    (l : list A) :
  (∀ x, x ∈ l → P x ↔ Q x) → filter P l = filter Q l.
Proof.
  induction l as [|x l IH]; intros HPQ; [done|].
  rewrite !filter_cons. pose proof (HPQ x (list_elem_of_here _ _)).
  rewrite IH by (intros; apply HPQ; by right).
  repeat case_decide; naive_solver.
Qed.

(** ** What revocations do to a state *)

Lemma shrinks_refl s : shrinks s s.
Proof. constructor; eauto 10. Qed.

Lemma shrinks_trans s1 s2 s3 : shrinks s1 s2 → shrinks s2 s3 → shrinks s1 s3.
Proof.
  intros Ha Hb. constructor.
  - by rewrite (shrinks_handlers _ _ Hb), (shrinks_handlers _ _ Ha).
  - by rewrite (shrinks_map _ _ Hb), (shrinks_map _ _ Ha).
  - by rewrite (shrinks_collectionMap _ _ Hb), (shrinks_collectionMap _ _ Ha).
  - by rewrite (shrinks_brk _ _ Hb), (shrinks_brk _ _ Ha).
  - intros L n3 H3. destruct (shrinks_lists _ _ Hb _ _ H3) as (n2 & H2 & Hi2).
    destruct (shrinks_lists _ _ Ha _ _ H2) as (n1 & H1 & Hi1).
    exists n1. split; [done|set_solver].
  - intros r g3 H3. destruct (shrinks_regs _ _ Hb _ _ H3) as (g2 & H2 & Hh2 & Hr2 & Hs2).
    destruct (shrinks_regs _ _ Ha _ _ H2) as (g1 & H1 & Hh1 & Hr1 & Hs1).
    exists g1. repeat split; congruence.
Qed.

Lemma set_registered_same reg : set_registered (registered reg) reg = reg.
Proof. by destruct reg. Qed.

Lemma removed_nil s : removed [] s s.
Proof.
  constructor; try done.
  - intros L. destruct (lists s !! L) as [nodes|]; [|done]. simpl.
    f_equal. symmetry. apply filter_all, Forall_forall. set_solver.
  - intros r. by destruct (regs s !! r).
Qed.

Lemma removed_trans X Y s1 s2 s3 :
  removed X s1 s2 → removed Y s2 s3 → removed (X ++ Y) s1 s3.
Proof.
  intros Ha Hb. constructor.
  - by rewrite (removed_handlers _ _ _ Hb), (removed_handlers _ _ _ Ha).
  - by rewrite (removed_map _ _ _ Hb), (removed_map _ _ _ Ha).
  - by rewrite (removed_collectionMap _ _ _ Hb), (removed_collectionMap _ _ _ Ha).
  - by rewrite (removed_brk _ _ _ Hb), (removed_brk _ _ _ Ha).
  - intros L. rewrite (removed_lists _ _ _ Hb), (removed_lists _ _ _ Ha).
    destruct (lists s1 !! L) as [nodes|]; [|done]. simpl. f_equal.
    rewrite list_filter_filter. apply filter_agree. set_solver.
  - intros r. rewrite (removed_regs _ _ _ Hb), (removed_regs _ _ _ Ha).
    destruct (regs s1 !! r) as [reg|]; [|done]. simpl. f_equal.
    repeat case_decide; set_solver.
Qed.

Lemma removed_shrinks X s s' : removed X s s' → shrinks s s'.
Proof.
  intros Ha. constructor; try apply Ha.
  - intros L nodes'. rewrite (removed_lists _ _ _ Ha).
    destruct (lists s !! L) as [nodes|]; [|done]. simpl. intros [= <-].
    exists nodes. split; [done|]. intros x. rewrite list_elem_of_filter. tauto.
  - intros r reg'. rewrite (removed_regs _ _ _ Ha).
    destruct (regs s !! r) as [reg|]; [|done]. simpl. intros [= <-].
    exists reg. by case_decide.
Qed.

(** ** removeHandler *)

Lemma removeHandler_run r reg s :
  regs s !! r = Some reg →
  removeHandler r s =
  if registered reg then
    match lists s !! registrations reg with
    | Some nodes =>
        ([], Done ((), set_regs (insert r (set_registered false reg))
                        (set_lists (insert (registrations reg)
                                      (filter (λ nd, nd.2 ≠ r) nodes)) s)))
    | None => ([], Stop UndefinedBehaviour)
    end
  else ([], Done ((), s)).
Proof.
  intros Hr. unfold removeHandler, reg_load, remove, list_load, list_store,
    load, gets, modify, mbind, M_bind, mret, M_ret, fail. simpl. rewrite Hr.
  destruct (registered reg); [|done]. simpl.
  by destruct (lists s !! registrations reg).
Qed.

Lemma removeHandler_dangling r s :
  regs s !! r = None → removeHandler r s = ([], Stop UndefinedBehaviour).
Proof.
  intros Hr. unfold removeHandler, reg_load, load, gets, mbind, M_bind, fail.
  simpl. by rewrite Hr.
Qed.

(** It calls no user code. *)
Lemma removeHandler_silent r s : (removeHandler r s).1 = [].
Proof.
  destruct (regs s !! r) as [reg|] eqn:Hr.
  - rewrite (removeHandler_run _ _ _ Hr).
    destruct (registered reg); [|done]. by destruct (lists s !! registrations reg).
  - by rewrite removeHandler_dangling.
Qed.

Lemma removeHandler_shrinks r s u s' :
  (removeHandler r s).2 = Done (u, s') → shrinks s s'.
Proof.
  destruct (regs s !! r) as [reg|] eqn:Hr.
  2: { by rewrite removeHandler_dangling. }
  rewrite (removeHandler_run _ _ _ Hr).
  destruct (registered reg); [|intros [= _ <-]; apply shrinks_refl].
  destruct (lists s !! registrations reg) as [nodes|] eqn:HL; [|done].
  simpl. intros [= _ <-]. constructor; simpl; try done.
  - intros L nodes'. destruct (decide (registrations reg = L)) as [<-|Hne].
    + rewrite lookup_insert_eq. intros [= <-]. exists nodes. split; [done|].
      intros x. rewrite list_elem_of_filter. tauto.
    + rewrite lookup_insert_ne by done. eauto.
  - intros r' reg'. destruct (decide (r = r')) as [<-|Hne].
    + rewrite lookup_insert_eq. intros [= <-]. eauto.
    + rewrite lookup_insert_ne by done. eauto.
Qed.

(** In a well-formed state it takes [r] out of all lists. *)
Lemma removeHandler_removed r s :
  wf s → is_Some (regs s !! r) →
  ∃ s', removeHandler r s = ([], Done ((), s')) ∧ removed [r] s s'.
Proof.
  intros Hwf [reg Hr]. rewrite (removeHandler_run _ _ _ Hr).
  destruct (wf_regs _ Hwf _ _ Hr) as (_ & [nodes HL] & _).
  assert (Hother : ∀ L ns, lists s !! L = Some ns →
            (registered reg = false ∨ L ≠ registrations reg) →
            filter (λ nd : N * N, nd.2 ∉ [r]) ns = ns).
  { intros L ns Hns Hor. apply filter_all, Forall_forall. intros [n v] Hin. simpl.
    intros ->%list_elem_of_singleton.
    destruct (wf_lists _ Hwf _ _ Hns) as (_ & _ & Hall).
    rewrite Forall_forall in Hall. destruct (Hall _ Hin) as [_ Hv]. simpl in Hv.
    rewrite Hr in Hv. destruct Hv as [HvL Hvr]. destruct Hor; congruence. }
  destruct (registered reg) eqn:Hreg.
  - rewrite HL. eexists. split; [done|]. constructor; simpl; try done.
    + intros L. destruct (decide (registrations reg = L)) as [<-|Hne].
      * rewrite lookup_insert_eq, HL. simpl. f_equal. apply filter_agree.
        intros x _. set_solver.
      * rewrite lookup_insert_ne by done.
        destruct (lists s !! L) as [ns|] eqn:Hns; [|done]. simpl.
        by rewrite (Hother L ns) by eauto.
    + intros r'. destruct (decide (r = r')) as [<-|Hne].
      * rewrite lookup_insert_eq, Hr. simpl. by rewrite decide_True by set_solver.
      * rewrite lookup_insert_ne by done. destruct (regs s !! r'); [|done]. simpl.
        by rewrite decide_False by set_solver.
  - eexists. split; [done|]. constructor; try done.
    + intros L. destruct (lists s !! L) as [ns|] eqn:Hns; [|done]. simpl.
      by rewrite (Hother L ns) by eauto.
    + intros r'. destruct (regs s !! r') as [reg'|] eqn:Hr'; [|done]. simpl.
      case_decide as Hin; [|done]. apply list_elem_of_singleton in Hin as ->.
      rewrite Hr in Hr'. injection Hr' as <-. by rewrite <-Hreg, set_registered_same.
Qed.

Lemma NoDup_fst_filter {B} (P : N * B → Prop) `{∀ x, Decision (P x)}
    (nodes : list (N * B)) :
  NoDup nodes.*1 → NoDup (filter P nodes).*1.
Proof.
  induction nodes as [|[n v] nodes IH]; [done|].
  csimpl. rewrite NoDup_cons. intros [Hn Hnd]. rewrite filter_cons.
  case_decide; [|by apply IH].
  csimpl. rewrite NoDup_cons. split; [|by apply IH].
  intros Hin. apply Hn. apply list_elem_of_fmap in Hin as (x & -> & Hx).
  apply list_elem_of_filter in Hx as [_ Hx]. by apply list_elem_of_fmap_2.
Qed.

Lemma wf_removed X s s' : wf s → removed X s s' → wf s'.
Proof.
  intros Hwf Hrm. constructor.
  - intros L nodes'. rewrite (removed_lists _ _ _ Hrm).
    destruct (lists s !! L) as [nodes|] eqn:HL; [|done]. simpl. intros [= <-].
    destruct (wf_lists _ Hwf _ _ HL) as (Hb & Hnd & Hall).
    split; [by rewrite (removed_brk _ _ _ Hrm)|].
    split; [by apply NoDup_fst_filter|].
    apply Forall_forall. intros nd [HndX Hin]%list_elem_of_filter.
    rewrite Forall_forall in Hall. destruct (Hall _ Hin) as [Hlt Hreg].
    split; [by rewrite (removed_brk _ _ _ Hrm)|].
    rewrite (removed_regs _ _ _ Hrm). destruct (regs s !! nd.2); [|done]. simpl.
    by rewrite decide_False.
  - intros r reg'. rewrite (removed_regs _ _ _ Hrm).
    destruct (regs s !! r) as [reg|] eqn:Hr; [|done]. simpl. intros [= <-].
    destruct (wf_regs _ Hwf _ _ Hr) as (Hb & HL & Hh).
    assert (Hgoal : reg_wf s' r reg).
    { split; [by rewrite (removed_brk _ _ _ Hrm)|]. split; [|done].
      rewrite (removed_lists _ _ _ Hrm). destruct HL as [ns ->]. eauto. }
    by case_decide.
  - intros k p. rewrite (removed_handlers _ _ _ Hrm). intros Hk.
    pose proof (wf_handlers _ Hwf _ _ Hk) as He. unfold entry_wf in *.
    destruct p as [L|]; [|done]. destruct He as [[ns HL] Hinj].
    rewrite (removed_handlers _ _ _ Hrm). split; [|done].
    rewrite (removed_lists _ _ _ Hrm), HL. eauto.
Qed.

Lemma perform_all_silent cs s : (perform_all cs s).1 = [].
Proof.
  revert s. induction cs as [|[r] cs IH]; intros s; [done|]. simpl.
  rewrite bind_run. pose proof (removeHandler_silent r s) as Hs.
  destruct (removeHandler r s) as [t [[u s1]|x]]; simpl in *; subst t; [|done].
  apply IH.
Qed.

Lemma perform_all_shrinks cs s u s' :
  (perform_all cs s).2 = Done (u, s') → shrinks s s'.
Proof.
  revert s. induction cs as [|[r] cs IH]; intros s; simpl.
  - intros [= _ <-]. apply shrinks_refl.
  - rewrite bind_run. pose proof (removeHandler_shrinks r s) as Hs.
    destruct (removeHandler r s) as [t [[[] s1]|x]]; simpl in *; [|done].
    intros Hd. eapply shrinks_trans; [by eapply Hs|by apply IH].
Qed.

Lemma perform_all_Done cs s u s' :
  wf s → (perform_all cs s).2 = Done (u, s') → removed (targets cs) s s'.
Proof.
  revert s. induction cs as [|[r] cs IH]; intros s Hwf; simpl.
  - intros [= _ <-]. apply removed_nil.
  - rewrite bind_run. destruct (regs s !! r) as [reg|] eqn:Hr.
    + destruct (removeHandler_removed r s Hwf) as (s1 & -> & Hrm); [eauto|]. simpl.
      intros Hd. apply (removed_trans [r] (targets cs) _ _ _ Hrm).
      apply IH; [by eapply wf_removed|done].
    + by rewrite (removeHandler_dangling _ _ Hr).
Qed.

Lemma perform_all_removed cs s :
  wf s → Forall (λ x, is_Some (regs s !! x)) (targets cs) →
  ∃ s', perform_all cs s = ([], Done ((), s')) ∧ removed (targets cs) s s'.
Proof.
  revert s. induction cs as [|[r] cs IH]; intros s Hwf Hall.
  - exists s. split; [done|apply removed_nil].
  - apply Forall_cons in Hall as [Hr Hall].
    destruct (removeHandler_removed r s Hwf Hr) as (s1 & Hrun & Hrm).
    destruct (IH s1) as (s2 & Hrun2 & Hrm2).
    { by eapply wf_removed. }
    { eapply Forall_impl; [done|]. intros x [reg Hx]. simpl.
      rewrite (removed_regs _ _ _ Hrm), Hx. eauto. }
    exists s2. split.
    + simpl. rewrite (bind_Done _ _ _ _ _ _ Hrun), Hrun2. done.
    + apply (removed_trans [r] (targets cs) _ _ _ Hrm Hrm2).
Qed.

(** ** The dispatch loop *)

(** A handler that revokes a registration that does not exist. *)
Lemma perform_all_dangling cs s :
  wf s → ¬ Forall (λ x, is_Some (regs s !! x)) (targets cs) →
  perform_all cs s = ([], Stop UndefinedBehaviour).
Proof.
  revert s. induction cs as [|[r] cs IH]; intros s Hwf Hn.
  - destruct Hn. constructor.
  - simpl. rewrite bind_run. destruct (regs s !! r) as [reg|] eqn:Hr.
    + destruct (removeHandler_removed r s Hwf) as (s1 & Hrun & Hrm); [eauto|].
      rewrite Hrun. simpl. rewrite IH; [done|by eapply wf_removed|].
      intros HF. apply Hn. csimpl. apply Forall_cons. split; [eauto|].
      eapply Forall_impl; [exact HF|]. intros x. simpl.
      rewrite (removed_regs _ _ _ Hrm). destruct (regs s !! x); [eauto|].
      by intros [? ?].
    + by rewrite (removeHandler_dangling _ _ Hr).
Qed.

Lemma handler_of_shrinks s s' r a :
  shrinks s s' → handler_of s' r = Some a → handler_of s r = Some a.
Proof.
  intros Hsh. unfold handler_of. destruct (regs s' !! r) as [reg'|] eqn:Hr; [|done].
  destruct (shrinks_regs _ _ Hsh _ _ Hr) as (reg & -> & <- & _). done.
Qed.

Lemma handler_of_removed X s s' r :
  removed X s s' → handler_of s' r = handler_of s r.
Proof.
  intros Hrm. unfold handler_of. rewrite (removed_regs _ _ _ Hrm).
  destruct (regs s !! r) as [reg|]; [|done]. simpl. by case_decide.
Qed.

Lemma list_load_run L nodes s :
  lists s !! L = Some nodes → list_load L s = ([], Done (nodes, s)).
Proof. intros HL. unfold list_load, load, gets, mbind, M_bind. simpl. by rewrite HL. Qed.

Lemma list_load_dangling L s :
  lists s !! L = None → list_load L s = ([], Stop UndefinedBehaviour).
Proof. intros HL. unfold list_load, load, gets, mbind, M_bind. simpl. by rewrite HL. Qed.

Lemma iterator_deref_run L n v nodes s :
  lists s !! L = Some nodes → held n nodes = Some v →
  iterator_deref L n s = ([], Done (v, s)).
Proof.
  intros HL Hv. unfold iterator_deref, list_load, load, gets, mbind, M_bind.
  simpl. rewrite HL. simpl. by rewrite Hv.
Qed.

Lemma iterator_increment_run L n rest nodes s :
  lists s !! L = Some nodes → behind n nodes = Some rest →
  iterator_increment L n s = ([], Done (begin rest, s)).
Proof.
  intros HL Hv. unfold iterator_increment, list_load, load, gets, mbind, M_bind.
  simpl. rewrite HL. simpl. by rewrite Hv.
Qed.

(** Incrementing an iterator whose node was erased. *)
Lemma iterator_increment_erased L n nodes s :
  lists s !! L = Some nodes → behind n nodes = None →
  iterator_increment L n s = ([], Stop UndefinedBehaviour).
Proof.
  intros HL Hv. unfold iterator_increment, list_load, load, gets, mbind, M_bind.
  simpl. rewrite HL. simpl. by rewrite Hv.
Qed.

Lemma iterator_deref_cases L n s :
  (∃ nodes v, lists s !! L = Some nodes ∧ (n, v) ∈ nodes ∧
              iterator_deref L n s = ([], Done (v, s))) ∨
  iterator_deref L n s = ([], Stop UndefinedBehaviour).
Proof.
  unfold iterator_deref. destruct (lists s !! L) as [nodes|] eqn:HL.
  - rewrite (bind_Done _ _ _ _ _ _ (list_load_run _ _ _ HL)). simpl.
    destruct (held n nodes) as [v|] eqn:Hv; [|by right].
    left. exists nodes, v. split; [done|]. split; [by apply held_elem|done].
  - right. by rewrite (bind_Stop _ _ _ _ _ (list_load_dangling _ _ HL)).
Qed.

Lemma iterator_increment_cases L n s :
  (∃ it, iterator_increment L n s = ([], Done (it, s))) ∨
  iterator_increment L n s = ([], Stop UndefinedBehaviour).
Proof.
  unfold iterator_increment. destruct (lists s !! L) as [nodes|] eqn:HL.
  - rewrite (bind_Done _ _ _ _ _ _ (list_load_run _ _ _ HL)). simpl.
    destruct (behind n nodes) as [rest|] eqn:Hv; [|by right].
    left. by exists (begin rest).
  - right. by rewrite (bind_Stop _ _ _ _ _ (list_load_dangling _ _ HL)).
Qed.

Lemma omap_filter_sublist {A B} (f : A → option B) (P : A → Prop)
    `{∀ x, Decision (P x)} (l : list A) :
  omap f (filter P l) `sublist_of` omap f l.
Proof.
  induction l as [|x l IH]; [done|].
  rewrite filter_cons. destruct (decide (P x)); simpl.
  - destruct (f x); [by apply sublist_skip|done].
  - destruct (f x); [by apply sublist_cons|done].
Qed.

Lemma range_for_step fuel L n body s :
  range_for (S fuel) L (at_node n) body s =
  (reg ← iterator_deref L n; body reg;; it' ← iterator_increment L n;
   range_for fuel L it' body) s.
Proof. done. Qed.

Section Dispatch.

Variable dispatch : N → RoutedEvent → list bus_call.

Lemma dispatch_to_run e r a s :
  handler_of s r = Some a →
  dispatch_to dispatch e r s =
  (Handled r a e :: (perform_all (dispatch a e) s).1, (perform_all (dispatch a e) s).2).
Proof.
  unfold handler_of. intros Hh.
  destruct (regs s !! r) as [reg|] eqn:Hr; [|done].
  destruct (handler reg) as [|a'|] eqn:Ha; try done. injection Hh as ->.
  unfold dispatch_to, getHandler, reg_load, load, gets, emit, mbind, M_bind. simpl.
  rewrite Hr. simpl. rewrite Ha. by destruct (perform_all (dispatch a e) s).
Qed.

Lemma dispatch_to_wild e r s :
  handler_of s r = None →
  dispatch_to dispatch e r s = ([], Stop UndefinedBehaviour).
Proof.
  unfold handler_of. intros Hh.
  unfold dispatch_to, getHandler, reg_load, load, gets, emit, mbind, M_bind. simpl.
  destruct (regs s !! r) as [reg|] eqn:Hr; [|done]. simpl.
  by destruct (handler reg).
Qed.

Lemma polite_removed X s s' e r : removed X s s' → polite dispatch s e r → polite dispatch s' e r.
Proof.
  intros Hrm. unfold polite. rewrite (handler_of_removed _ _ _ _ Hrm).
  destruct (handler_of s r); [|done].
  intros HF. eapply Forall_impl; [exact HF|]. intros x [Hx [reg Hreg]]. split; [done|].
  rewrite (removed_regs _ _ _ Hrm), Hreg. eauto.
Qed.

Lemma pass_ext fuel ho ho' e nodes :
  (∀ r, ho r = ho' r) → pass dispatch fuel ho e nodes = pass dispatch fuel ho' e nodes.
Proof.
  intros Hext. revert nodes. induction fuel as [|fuel IH]; intros [|[n r] post]; try done.
  simpl. rewrite <-Hext. destruct (ho r); [|done]. by rewrite IH.
Qed.

Lemma range_for_pass e L fuel : ∀ s pre n r post,
  wf s → lists s !! L = Some (pre ++ (n, r) :: post) →
  (length post < fuel)%nat →
  Forall (polite dispatch s e) (r :: post.*2) →
  ∃ s' X,
    range_for fuel L (at_node n) (dispatch_to dispatch e) s =
      (pass dispatch fuel (handler_of s) e ((n, r) :: post), Done ((), s')) ∧
    removed X s s' ∧ wf s'.
Proof.
  induction fuel as [|fuel IH]; intros s pre n r post Hwf HL Hlen Hpol; [lia|].
  destruct (wf_lists _ Hwf _ _ HL) as (_ & Hnd & Hall).
  rewrite fmap_app, NoDup_app in Hnd. destruct Hnd as (_ & Hpre & _).
  apply Forall_app in Hall as [_ Hall]. apply Forall_cons in Hall as [[_ Hr] _].
  simpl in Hr. destruct (regs s !! r) as [reg|] eqn:Hreg; [|done].
  destruct (wf_regs _ Hwf _ _ Hreg) as (_ & _ & Hobj).
  destruct (handler reg) as [|a|] eqn:Ha; try done.
  assert (Hho : handler_of s r = Some a) by (unfold handler_of; by rewrite Hreg, Ha).
  apply Forall_cons in Hpol as [Hr_pol Hpost_pol].
  unfold polite in Hr_pol. rewrite Hho in Hr_pol.
  destruct (perform_all_removed (dispatch a e) s Hwf) as (s1 & Hrun & Hrm).
  { eapply Forall_impl; [done|]. by intros x [_ ?]. }
  pose proof (wf_removed _ _ _ Hwf Hrm) as Hwf1.
  assert (Hrnot : r ∉ targets (dispatch a e)).
  { intros Hin. rewrite Forall_forall in Hr_pol. by destruct (Hr_pol _ Hin). }
  set (keep := λ nd : N * N, nd.2 ∉ targets (dispatch a e)) in *.
  assert (HL1 : lists s1 !! L = Some (filter keep pre ++ (n, r) :: filter keep post)).
  { rewrite (removed_lists _ _ _ Hrm), HL. simpl.
    by rewrite filter_app, filter_cons_True. }
  assert (Hpre1 : n ∉ (filter keep pre).*1).
  { intros (x & -> & Hx)%list_elem_of_fmap. apply list_elem_of_filter in Hx as [_ Hx].
    apply (Hpre x.1); [by apply list_elem_of_fmap_2|]. simpl. left. }
  assert (Hpre0 : n ∉ pre.*1).
  { intros Hin. apply (Hpre n Hin). simpl. left. }
  rewrite range_for_step.
  rewrite (bind_Done _ _ _ _ _ _
             (iterator_deref_run _ _ _ _ _ HL (held_split _ r _ post Hpre0))).
  rewrite bind_run, (dispatch_to_run _ _ _ _ Hho), Hrun. simpl.
  rewrite (bind_Done _ _ _ _ _ _
             (iterator_increment_run _ _ _ _ _ HL1 (behind_split _ _ _ _ Hpre1))).
  simpl. rewrite Hho. fold keep.
  destruct (filter keep post) as [|[n' r'] post'] eqn:Hfilter.
  - exists s1, (targets (dispatch a e)). simpl. split; [|done].
    by destruct fuel.
  - destruct (IH s1 (filter keep pre ++ [(n, r)]) n' r' post') as (s2 & X & Hrun2 & Hrm2 & Hwf2).
    + done.
    + by rewrite <-app_assoc.
    + pose proof (length_filter keep post) as Hle. rewrite Hfilter in Hle.
      simpl in Hle. lia.
    + assert (Hsub : ∀ x, x ∈ r' :: post'.*2 → x ∈ post.*2).
      { intros x Hx. change (r' :: post'.*2) with (((n', r') :: post').*2) in Hx.
        rewrite <-Hfilter in Hx. apply list_elem_of_fmap in Hx as (y & -> & Hy).
        apply list_elem_of_filter in Hy as [_ Hy]. by apply list_elem_of_fmap_2. }
      apply Forall_forall. intros x Hx. eapply polite_removed; [done|].
      rewrite Forall_forall in Hpost_pol. by apply Hpost_pol, Hsub.
    + exists s2, (targets (dispatch a e) ++ X). simpl in *. rewrite Hrun2. simpl.
      split; [|split; [by eapply removed_trans|done]].
      f_equal. f_equal. apply pass_ext. intros x.
      by apply (handler_of_removed _ _ _ _ Hrm).
Qed.

Lemma handlers_index_found k p s :
  handlers s !! k = Some p → handlers_index k s = ([], Done (p, s)).
Proof.
  intros Hk. unfold handlers_index, gets, mbind, M_bind. simpl. by rewrite Hk.
Qed.

Lemma handlers_index_missing k s :
  handlers s !! k = None →
  handlers_index k s = ([], Done (None, set_handlers (insert k None) s)).
Proof.
  intros Hk. unfold handlers_index, gets, mbind, M_bind. simpl. by rewrite Hk.
Qed.

Lemma FireEvent_missing e s :
  handlers s !! typeid e = None →
  FireEvent dispatch e s = ([], Done ((), set_handlers (insert (typeid e) None) s)).
Proof.
  intros Hk. unfold FireEvent.
  by rewrite (bind_Done _ _ _ _ _ _ (handlers_index_missing _ _ Hk)).
Qed.

Lemma FireEvent_null e s :
  handlers s !! typeid e = Some None → FireEvent dispatch e s = ([], Done ((), s)).
Proof.
  intros Hk. unfold FireEvent.
  by rewrite (bind_Done _ _ _ _ _ _ (handlers_index_found _ _ _ Hk)).
Qed.

Lemma FireEvent_found e L nodes s :
  handlers s !! typeid e = Some (Some L) → lists s !! L = Some nodes →
  FireEvent dispatch e s =
  range_for (length nodes) L (begin nodes) (dispatch_to dispatch e) s.
Proof.
  intros Hk HL. unfold FireEvent.
  rewrite (bind_Done _ _ _ _ _ _ (handlers_index_found _ _ _ Hk)). simpl.
  rewrite (bind_Done _ _ _ _ _ _ (list_load_run _ _ _ HL)). simpl.
  by destruct (range_for (length nodes) L (begin nodes) (dispatch_to dispatch e) s).
Qed.

Lemma dispatch_to_cases e r s :
  (∃ a, handler_of s r = Some a ∧
        dispatch_to dispatch e r s =
          ([Handled r a e], (perform_all (dispatch a e) s).2)) ∨
  dispatch_to dispatch e r s = ([], Stop UndefinedBehaviour).
Proof.
  destruct (handler_of s r) as [a|] eqn:Hh.
  - left. exists a. split; [done|].
    by rewrite (dispatch_to_run _ _ _ _ Hh), perform_all_silent.
  - right. by apply dispatch_to_wild.
Qed.

(** Whatever the handlers do, and whatever the state, the loop calls
    only handlers of registrations that were in the list when it began. *)
Lemma range_for_only e L nodes0 s0 fuel : ∀ it s,
  shrinks s0 s → lists s0 !! L = Some nodes0 →
  Forall (from_collection s0 nodes0 e)
    (range_for fuel L it (dispatch_to dispatch e) s).1 ∧
  ∀ u s', (range_for fuel L it (dispatch_to dispatch e) s).2 = Done (u, s') →
          shrinks s0 s'.
Proof.
  induction fuel as [|fuel IH]; intros [n|] s Hsh HL0;
    try (simpl; split; [by constructor|]; try done; by intros ? ? [= _ <-]).
  rewrite range_for_step, bind_run.
  destruct (iterator_deref_cases L n s) as [(nodes & v & HL & Hin & ->)| ->].
  2: { split; [by constructor|done]. }
  simpl. rewrite bind_run.
  destruct (dispatch_to_cases e v s) as [(a & Hh & ->)| ->].
  2: { split; [by constructor|done]. }
  pose proof (perform_all_shrinks (dispatch a e) s) as Hsh1.
  assert (Hcall : from_collection s0 nodes0 e (Handled v a e)).
  { exists n, v, a. split; [done|]. split; [|by eapply handler_of_shrinks].
    destruct (shrinks_lists _ _ Hsh _ _ HL) as (ns & HL0' & Hsub).
    rewrite HL0 in HL0'. injection HL0' as <-. by apply Hsub. }
  destruct (perform_all (dispatch a e) s).2 as [[[] s1]|x]; simpl.
  2: { split; [by repeat constructor|done]. }
  specialize (Hsh1 _ _ eq_refl).
  rewrite bind_run.
  destruct (iterator_increment_cases L n s1) as [(it' & ->)| ->]; simpl.
  2: { split; [by repeat constructor|done]. }
  destruct (IH it' s1) as [Htr Hfin]; [by eapply shrinks_trans|done|].
  split; [by constructor|done].
Qed.

(** In a well-formed state the loop, if it returns, has only revoked. *)
Lemma range_for_Done e L fuel : ∀ it s u s',
  wf s → (range_for fuel L it (dispatch_to dispatch e) s).2 = Done (u, s') →
  ∃ X, removed X s s'.
Proof.
  induction fuel as [|fuel IH]; intros [n|] s u s' Hwf;
    try (simpl; try done; intros [= _ <-]; exists []; apply removed_nil).
  rewrite range_for_step, bind_run.
  destruct (iterator_deref_cases L n s) as [(nodes & v & HL & Hin & ->)| ->]; [|done].
  simpl. rewrite bind_run.
  destruct (dispatch_to_cases e v s) as [(a & Hh & ->)| ->]; [|done].
  pose proof (perform_all_Done (dispatch a e) s) as Hrm.
  destruct (perform_all (dispatch a e) s).2 as [[[] s1]|x]; simpl; [|done].
  specialize (Hrm _ _ Hwf eq_refl). rewrite bind_run.
  destruct (iterator_increment_cases L n s1) as [(it' & ->)| ->]; simpl; [|done].
  intros Hd. destruct (IH it' s1 u s') as [X HX]; [by eapply wf_removed|done|].
  eexists. by eapply removed_trans.
Qed.

Lemma FireEvent_only e s :
  Forall (λ o, ∃ L nodes, handlers s !! typeid e = Some (Some L) ∧
                          lists s !! L = Some nodes ∧ from_collection s nodes e o)
    (FireEvent dispatch e s).1.
Proof.
  destruct (handlers s !! typeid e) as [[L|]|] eqn:Hk.
  - destruct (lists s !! L) as [nodes|] eqn:HL.
    + rewrite (FireEvent_found _ _ _ _ Hk HL).
      destruct (range_for_only e L nodes s (length nodes) (begin nodes) s) as [Htr _];
        [apply shrinks_refl|done|].
      eapply Forall_impl; [exact Htr|]. intros o Ho. by exists L, nodes.
    + unfold FireEvent.
      rewrite (bind_Done _ _ _ _ _ _ (handlers_index_found _ _ _ Hk)). simpl.
      rewrite (bind_Stop _ _ _ _ _ (list_load_dangling _ _ HL)). constructor.
  - rewrite (FireEvent_null _ _ Hk). constructor.
  - rewrite (FireEvent_missing _ _ Hk). constructor.
Qed.

(** One event fired on a collection of polite handlers. *)
Lemma FireEvent_pass e L nodes s :
  wf s → handlers s !! typeid e = Some (Some L) → lists s !! L = Some nodes →
  Forall (polite dispatch s e) nodes.*2 →
  ∃ s' X,
    FireEvent dispatch e s =
      (pass dispatch (length nodes) (handler_of s) e nodes, Done ((), s')) ∧
    removed X s s' ∧ wf s'.
Proof.
  intros Hwf Hk HL Hpol. rewrite (FireEvent_found _ _ _ _ Hk HL).
  destruct nodes as [|[n r] post].
  - exists s, []. split; [done|]. split; [apply removed_nil|done].
  - apply (range_for_pass e L (length ((n, r) :: post)) s [] n r post); try done.
    simpl. lia.
Qed.

Lemma wf_handler_of s L nodes nd :
  wf s → lists s !! L = Some nodes → nd ∈ nodes → is_Some (handler_of s nd.2).
Proof.
  intros Hwf HL Hin. destruct (wf_lists _ Hwf _ _ HL) as (_ & _ & Hall).
  rewrite Forall_forall in Hall. destruct (Hall _ Hin) as [_ Hnode].
  unfold handler_of. destruct (regs s !! nd.2) as [reg|] eqn:Hr; [|done].
  destruct (wf_regs _ Hwf _ _ Hr) as (_ & _ & Hobj).
  by destruct (handler reg).
Qed.

(** A pass over quiet handlers visits the nodes one after the other. *)
Lemma pass_quiet ho e nodes : ∀ fuel,
  (length nodes ≤ fuel)%nat →
  Forall (λ nd : N * N, ∃ a, ho nd.2 = Some a ∧ dispatch a e = []) nodes →
  pass dispatch fuel ho e nodes =
  omap (λ nd : N * N, (λ a, Handled nd.2 a e) <$> ho nd.2) nodes.
Proof.
  induction nodes as [|[n r] post IH]; intros fuel Hlen Hall; [by destruct fuel|].
  destruct fuel as [|fuel]; [simpl in Hlen; lia|].
  apply Forall_cons in Hall as [(a & Ha & Hq) Hall]. simpl in *.
  rewrite Ha, Hq. simpl. f_equal.
  rewrite filter_all by (apply Forall_forall; intros; set_solver).
  apply IH; [lia|done].
Qed.

(** A pass over polite handlers visits every node whose registration none
    of the handlers revokes. *)
Lemma pass_visits ho e nd : ∀ fuel nodes,
  (length nodes ≤ fuel)%nat →
  Forall (λ nd' : N * N, is_Some (ho nd'.2)) nodes →
  nd ∈ nodes →
  (∀ nd' a, nd' ∈ nodes → ho nd'.2 = Some a → nd.2 ∉ targets (dispatch a e)) →
  ∃ a, ho nd.2 = Some a ∧ Handled nd.2 a e ∈ pass dispatch fuel ho e nodes.
Proof.
  induction fuel as [|fuel IH]; intros [|[n r] post] Hlen Hall Hin Hnot;
    try (by apply elem_of_nil in Hin); [simpl in Hlen; lia|].
  apply Forall_cons in Hall as [[a Ha] Hall]. simpl in Ha. simpl. rewrite Ha.
  apply elem_of_cons in Hin as [->|Hin].
  - exists a. split; [done|]. left.
  - destruct (IH (filter (λ nd0 : N * N, nd0.2 ∉ targets (dispatch a e)) post))
      as (a' & Ha' & Hin').
    + pose proof (length_filter (λ nd0 : N * N, nd0.2 ∉ targets (dispatch a e)) post).
      simpl in Hlen. lia.
    + apply Forall_forall. intros x [_ Hx]%list_elem_of_filter.
      rewrite Forall_forall in Hall. by apply Hall.
    + apply list_elem_of_filter. split; [|done].
      apply (Hnot (n, r) a); [left|done].
    + intros nd' a0 [_ Hx]%list_elem_of_filter. apply Hnot. by right.
    + exists a'. split; [done|]. by right.
Qed.

(** The handler of the first node revokes the registration it is called
    through: the node is erased under the loop's iterator, and the
    increment that follows is undefined. *)
Lemma FireEvent_self_removal e L n r post a s :
  wf s → handlers s !! typeid e = Some (Some L) → lists s !! L = Some ((n, r) :: post) →
  handler_of s r = Some a → r ∈ targets (dispatch a e) →
  Forall (λ x, is_Some (regs s !! x)) (targets (dispatch a e)) →
  FireEvent dispatch e s = ([Handled r a e], Stop UndefinedBehaviour).
Proof.
  intros Hwf Hk HL Ha Hself Hvalid. rewrite (FireEvent_found _ _ _ _ Hk HL).
  simpl length. simpl begin. rewrite range_for_step.
  rewrite (bind_Done _ _ _ _ _ _ (iterator_deref_run L n r _ s HL (held_split n r [] post
             (not_elem_of_nil _)))).
  destruct (perform_all_removed (dispatch a e) s Hwf Hvalid) as (s1 & Hrun & Hrm).
  simpl. rewrite bind_run, (dispatch_to_run _ _ _ _ Ha), Hrun. simpl.
  destruct (wf_lists _ Hwf _ _ HL) as (_ & Hnd & _).
  csimpl in Hnd. apply NoDup_cons in Hnd as [Hn _].
  assert (HL1 : lists s1 !! L =
                Some (filter (λ nd : N * N, nd.2 ∉ targets (dispatch a e)) post)).
  { rewrite (removed_lists _ _ _ Hrm), HL. simpl. by rewrite filter_cons_False by tauto. }
  assert (Hgone : behind n (filter (λ nd : N * N, nd.2 ∉ targets (dispatch a e)) post)
                  = None).
  { apply behind_None. intros (x & -> & Hx)%list_elem_of_fmap.
    apply list_elem_of_filter in Hx as [_ Hx]. apply Hn. by apply list_elem_of_fmap_2. }
  by rewrite (bind_Stop _ _ _ _ _ (iterator_increment_erased L n _ s1 HL1 Hgone)).
Qed.

Lemma perform_all_Stop cs s x :
  (perform_all cs s).2 = Stop x → x = UndefinedBehaviour.
Proof.
  revert s. induction cs as [|[r] cs IH]; intros s; simpl; [done|].
  rewrite bind_run. destruct (regs s !! r) as [reg|] eqn:Hr.
  - rewrite (removeHandler_run _ _ _ Hr).
    destruct (registered reg); [|by apply IH].
    destruct (lists s !! registrations reg); [by apply IH|].
    simpl. congruence.
  - rewrite (removeHandler_dangling _ _ Hr). simpl. congruence.
Qed.

(** The loop never runs out of fuel, and nothing is thrown: from a
    well-formed state, it returns or meets undefined behaviour. *)
Lemma range_for_Stop e L fuel : ∀ s pre n r post x,
  wf s → lists s !! L = Some (pre ++ (n, r) :: post) →
  (length post < fuel)%nat →
  (range_for fuel L (at_node n) (dispatch_to dispatch e) s).2 = Stop x →
  x = UndefinedBehaviour.
Proof.
  induction fuel as [|fuel IH]; intros s pre n r post x Hwf HL Hlen; [lia|].
  destruct (wf_lists _ Hwf _ _ HL) as (_ & Hnd & _).
  rewrite fmap_app, NoDup_app in Hnd. destruct Hnd as (_ & Hpre & Hnd).
  csimpl in Hnd. apply NoDup_cons in Hnd as [Hpost _].
  assert (Hpre0 : n ∉ pre.*1).
  { intros Hin. apply (Hpre n Hin). simpl. left. }
  assert (Hin : (n, r) ∈ pre ++ (n, r) :: post).
  { apply elem_of_app. right. left. }
  destruct (wf_handler_of _ _ _ _ Hwf HL Hin) as [a Hho]. simpl in Hho.
  rewrite range_for_step.
  rewrite (bind_Done _ _ _ _ _ _
             (iterator_deref_run _ _ _ _ _ HL (held_split _ r _ post Hpre0))).
  simpl. rewrite bind_run, (dispatch_to_run _ _ _ _ Hho). simpl.
  pose proof (perform_all_Stop (dispatch a e) s) as Hstop.
  pose proof (perform_all_Done (dispatch a e) s) as Hdone.
  destruct (perform_all (dispatch a e) s).2 as [[[] s1]|y]; simpl;
    [|intros [= <-]; by apply Hstop].
  specialize (Hdone _ _ Hwf eq_refl). clear Hstop.
  set (keep := λ nd : N * N, nd.2 ∉ targets (dispatch a e)) in *.
  assert (Hids : ∀ l : list (N * N), n ∉ l.*1 → n ∉ (filter keep l).*1).
  { intros l Hl (y & -> & Hy)%list_elem_of_fmap. apply list_elem_of_filter in Hy as [_ Hy].
    apply Hl. by apply list_elem_of_fmap_2. }
  rewrite bind_run.
  destruct (decide (r ∈ targets (dispatch a e))) as [Hself|Hother].
  - assert (HL1 : lists s1 !! L = Some (filter keep pre ++ filter keep post)).
    { rewrite (removed_lists _ _ _ Hdone), HL. simpl.
      rewrite filter_app, filter_cons_False; [done|]. unfold keep. simpl. tauto. }
    rewrite (iterator_increment_erased L n _ s1 HL1).
    + simpl. congruence.
    + apply behind_None. rewrite fmap_app.
      intros [H1|H1]%elem_of_app; [exact (Hids pre Hpre0 H1)|exact (Hids post Hpost H1)].
  - assert (HL1 : lists s1 !! L = Some (filter keep pre ++ (n, r) :: filter keep post)).
    { rewrite (removed_lists _ _ _ Hdone), HL. simpl.
      by rewrite filter_app, filter_cons_True. }
    rewrite (iterator_increment_run _ _ _ _ _ HL1 (behind_split _ _ _ _ (Hids _ Hpre0))).
    simpl. destruct (filter keep post) as [|[n' r'] post'] eqn:Hfilter; [by destruct fuel|].
    simpl. apply (IH s1 (filter keep pre ++ [(n, r)]) n' r' post').
    + by eapply wf_removed.
    + by rewrite <-app_assoc.
    + pose proof (length_filter keep post) as Hle. rewrite Hfilter in Hle.
      simpl in Hle. lia.
Qed.

Lemma FireEvent_Stop e s x :
  wf s → (FireEvent dispatch e s).2 = Stop x → x = UndefinedBehaviour.
Proof.
  intros Hwf. destruct (handlers s !! typeid e) as [[L|]|] eqn:Hk.
  - destruct (wf_handlers _ Hwf _ _ Hk) as [[nodes HL] _].
    rewrite (FireEvent_found _ _ _ _ Hk HL). destruct nodes as [|[n r] post]; [done|].
    apply (range_for_Stop e L _ s [] n r post); [done..|]. simpl. lia.
  - by rewrite (FireEvent_null _ _ Hk).
  - by rewrite (FireEvent_missing _ _ Hk).
Qed.

(** The only handler of a collection is called, whatever it does then. *)
Lemma FireEvent_single e L n r a s :
  handlers s !! typeid e = Some (Some L) → lists s !! L = Some [(n, r)] →
  handler_of s r = Some a →
  (FireEvent dispatch e s).1 = [Handled r a e].
Proof.
  intros Hk HL Ha. rewrite (FireEvent_found _ _ _ _ Hk HL).
  simpl length. simpl begin. rewrite range_for_step.
  rewrite (bind_Done _ _ _ _ _ _
             (iterator_deref_run L n r _ s HL (held_split n r [] [] (not_elem_of_nil _)))).
  simpl. rewrite bind_run, (dispatch_to_run _ _ _ _ Ha), perform_all_silent.
  destruct (perform_all (dispatch a e) s).2 as [[[] s1]|x]; simpl; [|done].
  rewrite bind_run.
  by destruct (iterator_increment_cases L n s1) as [([n'|] & ->)| ->].
Qed.

Lemma FireEvent_empty e L s :
  handlers s !! typeid e = Some (Some L) → lists s !! L = Some [] →
  FireEvent dispatch e s = ([], Done ((), s)).
Proof. intros Hk HL. by rewrite (FireEvent_found _ _ _ _ Hk HL). Qed.

Lemma collection_found s T L nodes :
  handlers s !! T = Some (Some L) → lists s !! L = Some nodes → collection s T = nodes.
Proof. intros HT HL. unfold collection. by rewrite HT, HL. Qed.

(** Quiet handlers are called in the order of the collection. *)
Lemma FireEvent_quiet e s :
  wf s → quiet dispatch s e (collection s (typeid e)) →
  ∃ s', FireEvent dispatch e s =
          (calls_in_order s e (collection s (typeid e)), Done ((), s')) ∧
        length (calls_in_order s e (collection s (typeid e))) =
          length (collection s (typeid e)).
Proof.
  intros Hwf Hq. unfold quiet, collection in *.
  destruct (handlers s !! typeid e) as [[L|]|] eqn:Hk.
  - destruct (wf_handlers _ Hwf _ _ Hk) as [[nodes HL] _]. rewrite HL in *. simpl in *.
    assert (Hall : Forall (λ nd : N * N,
                     ∃ a, handler_of s nd.2 = Some a ∧ dispatch a e = []) nodes).
    { apply Forall_forall. intros nd Hin.
      destruct (wf_handler_of _ _ _ _ Hwf HL Hin) as [a Ha]. exists a. split; [done|].
      rewrite Forall_forall in Hq. by apply (Hq nd). }
    destruct (FireEvent_pass e L nodes s Hwf Hk HL) as (s' & X & Hrun & _).
    { apply Forall_fmap, Forall_forall. intros nd Hin. unfold polite. simpl.
      rewrite Forall_forall in Hall. destruct (Hall _ Hin) as (a & -> & ->). constructor. }
    exists s'. rewrite Hrun, (pass_quiet _ _ _ _ (Nat.le_refl _) Hall).
    split; [done|]. unfold calls_in_order. clear -Hall.
    induction Hall as [|nd nodes (a & Ha & _) _ IH]; [done|].
    simpl. rewrite Ha. simpl. f_equal. exact IH.
  - exists s. by rewrite (FireEvent_null _ _ Hk).
  - eexists. by rewrite (FireEvent_missing _ _ Hk).
Qed.

(** A pass calls only handlers of the nodes it is given. *)
Lemma pass_only ho e o : ∀ fuel nodes,
  o ∈ pass dispatch fuel ho e nodes →
  ∃ nd a, nd ∈ nodes ∧ ho nd.2 = Some a ∧ o = Handled nd.2 a e.
Proof.
  induction fuel as [|fuel IH]; intros [|[n r] post]; simpl;
    try (by intros ?%elem_of_nil).
  destruct (ho r) as [a|] eqn:Ha; [|by intros ?%elem_of_nil].
  intros [->|Hin]%elem_of_cons.
  - exists (n, r), a. split; [left|done].
  - destruct (IH _ Hin) as (nd & a' & Hnd & Ha' & ->).
    apply list_elem_of_filter in Hnd as [_ Hnd].
    exists nd, a'. split; [by right|done].
Qed.

(** Quiet handlers leave the state as it is. *)
Lemma range_for_quiet e L fuel : ∀ s pre n r post,
  lists s !! L = Some (pre ++ (n, r) :: post) → NoDup (pre ++ (n, r) :: post).*1 →
  (length post < fuel)%nat →
  Forall (λ nd : N * N, ∃ a, handler_of s nd.2 = Some a ∧ dispatch a e = [])
    ((n, r) :: post) →
  (range_for fuel L (at_node n) (dispatch_to dispatch e) s).2 = Done ((), s).
Proof.
  induction fuel as [|fuel IH]; intros s pre n r post HL Hnd Hlen Hall; [lia|].
  pose proof Hnd as Hnd'. rewrite fmap_app, NoDup_app in Hnd'.
  destruct Hnd' as (_ & Hpre & _).
  assert (Hpre0 : n ∉ pre.*1).
  { intros Hin. apply (Hpre n Hin). simpl. left. }
  apply Forall_cons in Hall as [(a & Ha & Hq) Hall].
  rewrite range_for_step.
  rewrite (bind_Done _ _ _ _ _ _
             (iterator_deref_run _ _ _ _ _ HL (held_split _ r _ post Hpre0))).
  simpl. rewrite bind_run, (dispatch_to_run _ _ _ _ Ha), Hq. simpl.
  rewrite (bind_Done _ _ _ _ _ _
             (iterator_increment_run _ _ _ _ _ HL (behind_split _ r _ post Hpre0))).
  simpl. destruct post as [|[n' r'] post']; [by destruct fuel|].
  simpl. apply (IH s (pre ++ [(n, r)]) n' r' post').
  - by rewrite <-app_assoc.
  - by rewrite <-app_assoc.
  - simpl in Hlen. lia.
  - done.
Qed.

(** The loop goes past quiet handlers, calling each, and is then at the
    node behind them with the state it started from. *)
Lemma range_for_skip_quiet e L : ∀ q fuel s pre n0 r0 n r post,
  lists s !! L = Some (pre ++ (n0, r0) :: q ++ (n, r) :: post) →
  NoDup (pre ++ (n0, r0) :: q ++ (n, r) :: post).*1 →
  Forall (λ nd : N * N, ∃ a, handler_of s nd.2 = Some a ∧ dispatch a e = [])
    ((n0, r0) :: q) →
  range_for (S (length q) + fuel) L (at_node n0) (dispatch_to dispatch e) s =
  (omap (λ nd : N * N, (λ a, Handled nd.2 a e) <$> handler_of s nd.2) ((n0, r0) :: q) ++
     (range_for fuel L (at_node n) (dispatch_to dispatch e) s).1,
   (range_for fuel L (at_node n) (dispatch_to dispatch e) s).2).
Proof.
  induction q as [|[n1 r1] q IH]; intros fuel s pre n0 r0 n r post HL Hnd Hall.
  - pose proof Hnd as Hnd'. rewrite fmap_app, NoDup_app in Hnd'.
    destruct Hnd' as (_ & Hpre & _).
    assert (Hpre0 : n0 ∉ pre.*1).
    { intros Hin. apply (Hpre n0 Hin). simpl. left. }
    apply Forall_cons in Hall as [(a & Ha & Hq) _].
    change (S (length (@nil (N * N))) + fuel)%nat with (S fuel).
    rewrite range_for_step.
    rewrite (bind_Done _ _ _ _ _ _
               (iterator_deref_run _ _ _ _ _ HL (held_split _ r0 _ _ Hpre0))).
    simpl. rewrite bind_run, (dispatch_to_run _ _ _ _ Ha), Hq. simpl.
    rewrite (bind_Done _ _ _ _ _ _
               (iterator_increment_run _ _ _ _ _ HL (behind_split _ r0 _ _ Hpre0))).
    simpl in Ha. simpl. rewrite Ha. simpl.
    by destruct (range_for fuel L (at_node n) (dispatch_to dispatch e) s).
  - pose proof Hnd as Hnd'. rewrite fmap_app, NoDup_app in Hnd'.
    destruct Hnd' as (_ & Hpre & _).
    assert (Hpre0 : n0 ∉ pre.*1).
    { intros Hin. apply (Hpre n0 Hin). simpl. left. }
    apply Forall_cons in Hall as [(a & Ha & Hq) Hall].
    specialize (IH fuel s (pre ++ [(n0, r0)]) n1 r1 n r post).
    rewrite <-!app_assoc in IH. specialize (IH HL Hnd Hall).
    set (f := λ nd : N * N, (λ a, Handled nd.2 a e) <$> handler_of s nd.2) in *.
    assert (Hom : omap f ((n0, r0) :: (n1, r1) :: q) =
                  Handled r0 a e :: omap f ((n1, r1) :: q)).
    { change (omap f ((n0, r0) :: (n1, r1) :: q))
        with (match f (n0, r0) with
              | Some y => y :: omap f ((n1, r1) :: q)
              | None => omap f ((n1, r1) :: q)
              end).
      unfold f at 1. simpl in Ha. simpl. by rewrite Ha. }
    rewrite Hom. clear Hom.
    remember (omap f ((n1, r1) :: q)) as front eqn:Hfront.
    change (S (length ((n1, r1) :: q)) + fuel)%nat with (S (S (length q) + fuel)).
    remember (S (length q) + fuel)%nat as k eqn:Hk in *.
    rewrite range_for_step.
    rewrite (bind_Done _ _ _ _ _ _
               (iterator_deref_run _ _ _ _ _ HL (held_split _ r0 _ _ Hpre0))).
    simpl. rewrite bind_run, (dispatch_to_run _ _ _ _ Ha), Hq. simpl.
    rewrite (bind_Done _ _ _ _ _ _
               (iterator_increment_run _ _ _ _ _ HL (behind_split _ r0 _ _ Hpre0))).
    simpl begin. cbv beta. simpl. rewrite IH. done.
Qed.

(** The loop at a node whose handler revokes the registration the node
    holds: one call, then the increment of an erased iterator. *)
Lemma range_for_self_removal e L fuel s pre n r post a :
  wf s → lists s !! L = Some (pre ++ (n, r) :: post) →
  handler_of s r = Some a → r ∈ targets (dispatch a e) →
  Forall (λ x, is_Some (regs s !! x)) (targets (dispatch a e)) →
  range_for (S fuel) L (at_node n) (dispatch_to dispatch e) s =
  ([Handled r a e], Stop UndefinedBehaviour).
Proof.
  intros Hwf HL Ha Hself Hvalid.
  destruct (wf_lists _ Hwf _ _ HL) as (_ & Hnd & _).
  rewrite fmap_app, NoDup_app in Hnd. destruct Hnd as (_ & Hpre & Hnd).
  csimpl in Hnd. apply NoDup_cons in Hnd as [Hpost _].
  assert (Hpre0 : n ∉ pre.*1).
  { intros Hin. apply (Hpre n Hin). simpl. left. }
  rewrite range_for_step.
  rewrite (bind_Done _ _ _ _ _ _
             (iterator_deref_run _ _ _ _ _ HL (held_split _ r _ post Hpre0))).
  destruct (perform_all_removed (dispatch a e) s Hwf Hvalid) as (s1 & Hrun & Hrm).
  simpl. rewrite bind_run, (dispatch_to_run _ _ _ _ Ha), Hrun. simpl.
  set (keep := λ nd : N * N, nd.2 ∉ targets (dispatch a e)) in *.
  assert (Hids : ∀ l : list (N * N), n ∉ l.*1 → n ∉ (filter keep l).*1).
  { intros l Hl (y & -> & Hy)%list_elem_of_fmap. apply list_elem_of_filter in Hy as [_ Hy].
    apply Hl. by apply list_elem_of_fmap_2. }
  assert (HL1 : lists s1 !! L = Some (filter keep pre ++ filter keep post)).
  { rewrite (removed_lists _ _ _ Hrm), HL. simpl.
    rewrite filter_app, filter_cons_False; [done|]. unfold keep. simpl. tauto. }
  assert (Hgone : behind n (filter keep pre ++ filter keep post) = None).
  { apply behind_None. rewrite fmap_app.
    intros [H1|H1]%elem_of_app; [exact (Hids pre Hpre0 H1)|exact (Hids post Hpost H1)]. }
  by rewrite (bind_Stop _ _ _ _ _ (iterator_increment_erased L n _ s1 HL1 Hgone)).
Qed.

(** ** Handlers that revoke other registrations *)

Lemma courteous_removed X s s' o :
  removed X s s' → courteous dispatch s o → courteous dispatch s' o.
Proof.
  intros Hrm. destruct o as [r a e|]; [|done]. simpl.
  intros HF. eapply Forall_impl; [exact HF|]. intros x [Hx [reg Hreg]]. split; [done|].
  rewrite (removed_regs _ _ _ Hrm), Hreg. eauto.
Qed.

(** The loop over a list whose handlers, as far as the loop calls them, are
    courteous: it makes the calls of [pass] and returns. *)
Lemma range_for_courteous e L fuel : ∀ s pre n r post,
  wf s → lists s !! L = Some (pre ++ (n, r) :: post) →
  (length post < fuel)%nat →
  Forall (courteous dispatch s)
    (range_for fuel L (at_node n) (dispatch_to dispatch e) s).1 →
  ∃ s',
    range_for fuel L (at_node n) (dispatch_to dispatch e) s =
      (pass dispatch fuel (handler_of s) e ((n, r) :: post), Done ((), s')) ∧
    removed (revoked_by dispatch (pass dispatch fuel (handler_of s) e ((n, r) :: post)))
      s s' ∧
    wf s'.
Proof.
  induction fuel as [|fuel IH]; intros s pre n r post Hwf HL Hlen Htr; [lia|].
  destruct (wf_lists _ Hwf _ _ HL) as (_ & Hnd & Hall).
  rewrite fmap_app, NoDup_app in Hnd. destruct Hnd as (_ & Hpre & _).
  apply Forall_app in Hall as [_ Hall]. apply Forall_cons in Hall as [[_ Hr] _].
  simpl in Hr. destruct (regs s !! r) as [reg|] eqn:Hreg; [|done].
  destruct (wf_regs _ Hwf _ _ Hreg) as (_ & _ & Hobj).
  destruct (handler reg) as [|a|] eqn:Ha; try done.
  assert (Hho : handler_of s r = Some a) by (unfold handler_of; by rewrite Hreg, Ha).
  assert (Hpre0 : n ∉ pre.*1).
  { intros Hin. apply (Hpre n Hin). simpl. left. }
  rewrite range_for_step in Htr.
  rewrite (bind_Done _ _ _ _ _ _
             (iterator_deref_run _ _ _ _ _ HL (held_split _ r _ post Hpre0))) in Htr.
  rewrite bind_run, (dispatch_to_run _ _ _ _ Hho) in Htr.
  assert (Hr_pol : courteous dispatch s (Handled r a e)).
  { rewrite Forall_forall in Htr. apply Htr.
    destruct (perform_all (dispatch a e) s) as [t [[u s1]|x]]; simpl; left. }
  simpl in Hr_pol.
  destruct (perform_all_removed (dispatch a e) s Hwf) as (s1 & Hrun & Hrm).
  { eapply Forall_impl; [done|]. by intros x [_ ?]. }
  pose proof (wf_removed _ _ _ Hwf Hrm) as Hwf1.
  assert (Hrnot : r ∉ targets (dispatch a e)).
  { intros Hin. rewrite Forall_forall in Hr_pol. by destruct (Hr_pol _ Hin). }
  set (keep := λ nd : N * N, nd.2 ∉ targets (dispatch a e)) in *.
  assert (HL1 : lists s1 !! L = Some (filter keep pre ++ (n, r) :: filter keep post)).
  { rewrite (removed_lists _ _ _ Hrm), HL. simpl.
    by rewrite filter_app, filter_cons_True. }
  assert (Hpre1 : n ∉ (filter keep pre).*1).
  { intros (x & -> & Hx)%list_elem_of_fmap. apply list_elem_of_filter in Hx as [_ Hx].
    apply (Hpre x.1); [by apply list_elem_of_fmap_2|]. simpl. left. }
  rewrite Hrun in Htr. simpl in Htr.
  rewrite (bind_Done _ _ _ _ _ _
             (iterator_increment_run _ _ _ _ _ HL1 (behind_split _ _ _ _ Hpre1))) in Htr.
  simpl in Htr. apply Forall_cons in Htr as [_ Htr].
  rewrite range_for_step.
  rewrite (bind_Done _ _ _ _ _ _
             (iterator_deref_run _ _ _ _ _ HL (held_split _ r _ post Hpre0))).
  rewrite bind_run, (dispatch_to_run _ _ _ _ Hho), Hrun. simpl.
  rewrite (bind_Done _ _ _ _ _ _
             (iterator_increment_run _ _ _ _ _ HL1 (behind_split _ _ _ _ Hpre1))).
  simpl. rewrite Hho. fold keep.
  destruct (filter keep post) as [|[n' r'] post'] eqn:Hfilter.
  - exists s1. assert (Hnil : pass dispatch fuel (handler_of s) e [] = [])
      by (by destruct fuel).
    rewrite Hnil. split; [by destruct fuel|]. split; [|done].
    unfold revoked_by. rewrite bind_singleton. done.
  - destruct (IH s1 (filter keep pre ++ [(n, r)]) n' r' post') as (s2 & Hrun2 & Hrm2 & Hwf2).
    + done.
    + by rewrite <-app_assoc.
    + pose proof (length_filter keep post) as Hle. rewrite Hfilter in Hle.
      simpl in Hle. lia.
    + eapply Forall_impl; [exact Htr|]. intros o. exact (courteous_removed _ _ _ o Hrm).
    + assert (Hext : pass dispatch fuel (handler_of s1) e ((n', r') :: post') =
                     pass dispatch fuel (handler_of s) e ((n', r') :: post')).
      { apply pass_ext. intros x. by apply (handler_of_removed _ _ _ _ Hrm). }
      rewrite Hext in Hrun2, Hrm2.
      exists s2. simpl begin. rewrite Hrun2. split; [done|]. split; [|done].
      unfold revoked_by in Hrm2 |- *. rewrite bind_cons. by eapply removed_trans.
Qed.

Lemma courteous_removed_inv X s s' o :
  removed X s s' → courteous dispatch s' o → courteous dispatch s o.
Proof.
  intros Hrm. destruct o as [r a e|]; [|done]. simpl.
  intros HF. eapply Forall_impl; [exact HF|]. intros x [Hx Hreg]. split; [done|].
  rewrite (removed_regs _ _ _ Hrm) in Hreg. destruct (regs s !! x); [eauto|].
  by destruct Hreg.
Qed.

(** One step of the loop at a node whose handler is courteous. *)
Lemma range_for_courteous_step e L fuel s pre n r post a :
  wf s → lists s !! L = Some (pre ++ (n, r) :: post) →
  handler_of s r = Some a → courteous dispatch s (Handled r a e) →
  ∃ s1, removed (targets (dispatch a e)) s s1 ∧ wf s1 ∧
    lists s1 !! L =
      Some (filter (λ nd : N * N, nd.2 ∉ targets (dispatch a e)) pre ++
            (n, r) :: filter (λ nd : N * N, nd.2 ∉ targets (dispatch a e)) post) ∧
    range_for (S fuel) L (at_node n) (dispatch_to dispatch e) s =
      (Handled r a e ::
         (range_for fuel L
            (begin (filter (λ nd : N * N, nd.2 ∉ targets (dispatch a e)) post))
            (dispatch_to dispatch e) s1).1,
       (range_for fuel L
          (begin (filter (λ nd : N * N, nd.2 ∉ targets (dispatch a e)) post))
          (dispatch_to dispatch e) s1).2).
Proof.
  intros Hwf HL Hho Hr_pol. simpl in Hr_pol.
  destruct (wf_lists _ Hwf _ _ HL) as (_ & Hnd & _).
  rewrite fmap_app, NoDup_app in Hnd. destruct Hnd as (_ & Hpre & _).
  assert (Hpre0 : n ∉ pre.*1).
  { intros Hin. apply (Hpre n Hin). simpl. left. }
  destruct (perform_all_removed (dispatch a e) s Hwf) as (s1 & Hrun & Hrm).
  { eapply Forall_impl; [done|]. by intros x [_ ?]. }
  assert (Hrnot : r ∉ targets (dispatch a e)).
  { intros Hin. rewrite Forall_forall in Hr_pol. by destruct (Hr_pol _ Hin). }
  set (keep := λ nd : N * N, nd.2 ∉ targets (dispatch a e)) in *.
  assert (HL1 : lists s1 !! L = Some (filter keep pre ++ (n, r) :: filter keep post)).
  { rewrite (removed_lists _ _ _ Hrm), HL. simpl.
    by rewrite filter_app, filter_cons_True. }
  assert (Hpre1 : n ∉ (filter keep pre).*1).
  { intros (x & -> & Hx)%list_elem_of_fmap. apply list_elem_of_filter in Hx as [_ Hx].
    apply (Hpre x.1); [by apply list_elem_of_fmap_2|]. simpl. left. }
  exists s1. split; [done|]. split; [by eapply wf_removed|]. split; [done|].
  rewrite range_for_step.
  rewrite (bind_Done _ _ _ _ _ _
             (iterator_deref_run _ _ _ _ _ HL (held_split _ r _ post Hpre0))).
  rewrite bind_run, (dispatch_to_run _ _ _ _ Hho), Hrun. simpl.
  by rewrite (bind_Done _ _ _ _ _ _
                (iterator_increment_run _ _ _ _ _ HL1 (behind_split _ _ _ _ Hpre1))).
Qed.

(** The loop at a node whose handler is not courteous: one call, and the
    behaviour is undefined. *)
Lemma range_for_discourteous e L fuel s pre n r post a :
  wf s → lists s !! L = Some (pre ++ (n, r) :: post) →
  handler_of s r = Some a → ¬ courteous dispatch s (Handled r a e) →
  range_for (S fuel) L (at_node n) (dispatch_to dispatch e) s =
  ([Handled r a e], Stop UndefinedBehaviour).
Proof.
  intros Hwf HL Hho Hn. simpl in Hn.
  destruct (decide (Forall (λ x, is_Some (regs s !! x)) (targets (dispatch a e))))
    as [Hall|Hdangling].
  - apply (range_for_self_removal e L fuel s pre n r post a); try done.
    apply (not_Forall_Exists _), Exists_exists in Hn as (x & Hx & Hnx).
    rewrite Forall_forall in Hall. specialize (Hall _ Hx).
    destruct (decide (x = r)) as [->|Hne]; [done|]. destruct Hnx. by split.
  - destruct (wf_lists _ Hwf _ _ HL) as (_ & Hnd & _).
    rewrite fmap_app, NoDup_app in Hnd. destruct Hnd as (_ & Hpre & _).
    assert (Hpre0 : n ∉ pre.*1).
    { intros Hin. apply (Hpre n Hin). simpl. left. }
    rewrite range_for_step.
    rewrite (bind_Done _ _ _ _ _ _
               (iterator_deref_run _ _ _ _ _ HL (held_split _ r _ post Hpre0))).
    by rewrite bind_run, (dispatch_to_run _ _ _ _ Hho),
      (perform_all_dangling _ _ Hwf Hdangling).
Qed.

(** The loop returns after calls of courteous handlers, or its last call
    is the first call of a handler that is not, and it does not return. *)
Lemma range_for_outcome e L fuel : ∀ s pre n r post,
  wf s → lists s !! L = Some (pre ++ (n, r) :: post) →
  (length post < fuel)%nat →
  Forall (courteous dispatch s)
    (range_for fuel L (at_node n) (dispatch_to dispatch e) s).1 ∨
  ∃ t r' a',
    (range_for fuel L (at_node n) (dispatch_to dispatch e) s).1 =
      t ++ [Handled r' a' e] ∧
    Forall (courteous dispatch s) t ∧ ¬ courteous dispatch s (Handled r' a' e) ∧
    (range_for fuel L (at_node n) (dispatch_to dispatch e) s).2 =
      Stop UndefinedBehaviour.
Proof.
  induction fuel as [|fuel IH]; intros s pre n r post Hwf HL Hlen; [lia|].
  destruct (wf_handler_of s L _ (n, r) Hwf HL) as [a Hho].
  { apply elem_of_app. right. left. }
  simpl in Hho.
  destruct (decide (courteous dispatch s (Handled r a e))) as [Hc|Hn].
  - destruct (range_for_courteous_step e L fuel s pre n r post a Hwf HL Hho Hc)
      as (s1 & Hrm & Hwf1 & HL1 & ->).
    simpl. set (keep := λ nd : N * N, nd.2 ∉ targets (dispatch a e)) in *.
    destruct (filter keep post) as [|[n' r'] post'] eqn:Hfilter.
    + left. simpl begin. assert (Hend :
        range_for fuel L past_the_end (dispatch_to dispatch e) s1 = ([], Done ((), s1)))
        by (by destruct fuel).
      rewrite Hend. simpl. by apply Forall_singleton.
    + simpl begin.
      destruct (IH s1 (filter keep pre ++ [(n, r)]) n' r' post') as [Hall|Hbad].
      * done.
      * by rewrite <-app_assoc.
      * pose proof (length_filter keep post) as Hle. rewrite Hfilter in Hle.
        simpl in Hle. lia.
      * left. apply Forall_cons. split; [done|].
        eapply Forall_impl; [exact Hall|]. intros o.
        exact (courteous_removed_inv _ _ _ o Hrm).
      * right. destruct Hbad as (t & r0 & a0 & Htr & Ht & Hn0 & Hstop).
        rewrite Htr, Hstop.
        exists (Handled r a e :: t), r0, a0. split; [done|]. split.
        { apply Forall_cons. split; [done|].
          eapply Forall_impl; [exact Ht|]. intros o.
          exact (courteous_removed_inv _ _ _ o Hrm). }
        split; [|done]. intros Hc0. apply Hn0.
        exact (courteous_removed _ _ _ (Handled r0 a0 e) Hrm Hc0).
  - right. exists [], r, a.
    rewrite (range_for_discourteous e L fuel s pre n r post a Hwf HL Hho Hn).
    by split.
Qed.

(** A pass reaches every node that none of the handlers called before it
    has revoked. *)
Lemma pass_reaches ho e r : ∀ fuel pre n post,
  (length (pre ++ (n, r) :: post) ≤ fuel)%nat →
  Forall (λ nd : N * N, is_Some (ho nd.2)) (pre ++ (n, r) :: post) →
  (∀ r' a', r' ∈ pre.*2 →
     Handled r' a' e ∈ pass dispatch fuel ho e (pre ++ (n, r) :: post) →
     r ∉ targets (dispatch a' e)) →
  ∃ a, ho r = Some a ∧ Handled r a e ∈ pass dispatch fuel ho e (pre ++ (n, r) :: post).
Proof.
  induction fuel as [|fuel IH]; intros pre n post Hlen Hall Hnot.
  { rewrite length_app in Hlen. simpl in Hlen. lia. }
  destruct pre as [|[n0 r0] pre].
  - apply Forall_cons in Hall as [[a Ha] _]. simpl in Ha. simpl. rewrite Ha.
    exists a. split; [done|left].
  - change (((n0, r0) :: pre) ++ (n, r) :: post)
      with ((n0, r0) :: (pre ++ (n, r) :: post)) in *.
    apply Forall_cons in Hall as [[a0 Ha0] Hall]. simpl in Ha0.
    simpl in Hnot |- *. rewrite Ha0 in Hnot |- *.
    set (keep := λ nd : N * N, nd.2 ∉ targets (dispatch a0 e)) in *.
    assert (Hkeep : r ∉ targets (dispatch a0 e)).
    { apply (Hnot r0 a0); left. }
    assert (Hsplit : filter keep (pre ++ (n, r) :: post) =
                     filter keep pre ++ (n, r) :: filter keep post).
    { by rewrite filter_app, filter_cons_True. }
    rewrite Hsplit in Hnot |- *.
    destruct (IH (filter keep pre) n (filter keep post)) as (a & Ha & Hin).
    + pose proof (length_filter keep pre). pose proof (length_filter keep post).
      simpl in Hlen. rewrite length_app in Hlen |- *. simpl in Hlen |- *. lia.
    + rewrite <-Hsplit. apply Forall_forall. intros x [_ Hx]%list_elem_of_filter.
      rewrite Forall_forall in Hall. by apply Hall.
    + intros r' a' Hr' Hin'. apply (Hnot r' a'); [|by right].
      right. apply list_elem_of_fmap in Hr' as (y & -> & Hy).
      apply list_elem_of_filter in Hy as [_ Hy]. by apply list_elem_of_fmap_2.
    + exists a. split; [done|]. by right.
Qed.

(** A pass calls handlers of the nodes, in the order of the nodes. *)
Lemma pass_sublist ho e : ∀ fuel nodes,
  pass dispatch fuel ho e nodes `sublist_of`
  omap (λ nd : N * N, (λ a, Handled nd.2 a e) <$> ho nd.2) nodes.
Proof.
  induction fuel as [|fuel IH]; intros [|[n r] post]; simpl;
    try apply sublist_nil_l.
  destruct (ho r) as [a|]; simpl; [|apply sublist_nil_l].
  apply sublist_skip. etrans; [apply IH|]. apply omap_filter_sublist.
Qed.

End Dispatch.

(** ** AddHandler *)

Lemma wf_fresh_list s L : wf s → brk s ≤ L → lists s !! L = None.
Proof.
  intros Hwf Hle. destruct (lists s !! L) as [nodes|] eqn:HL; [|done].
  destruct (wf_lists _ Hwf _ _ HL) as (Hlt & _). lia.
Qed.

Lemma wf_fresh_reg s r : wf s → brk s ≤ r → regs s !! r = None.
Proof.
  intros Hwf Hle. destruct (regs s !! r) as [reg|] eqn:Hr; [|done].
  destruct (wf_regs _ Hwf _ _ Hr) as (Hlt & _). lia.
Qed.

Lemma wf_null_entry T s :
  wf s → handlers s !! T = None → wf (set_handlers (insert T None) s).
Proof.
  intros Hwf HT. constructor; simpl; try apply Hwf.
  apply map_Forall_insert; [done|]. split; [done|].
  intros k p Hk. pose proof (wf_handlers _ Hwf _ _ Hk) as He. unfold entry_wf in *.
  destruct p as [L|]; [|done]. destruct He as [HL Hinj]. simpl. split; [done|].
  apply map_Forall_insert; [done|]. split; [done|]. exact Hinj.
Qed.

Lemma wf_with_new_list T s :
  wf s → handlers s !! T = Some None → wf (with_new_list T s).
Proof.
  intros Hwf HT. pose proof (wf_fresh_list s (brk s) Hwf (N.le_refl _)) as Hfresh.
  constructor; simpl.
  - apply map_Forall_insert; [done|]. split.
    + split; [simpl; lia|]. split; [constructor|constructor].
    + intros L nodes HL. destruct (wf_lists _ Hwf _ _ HL) as (Hlt & Hnd & Hall).
      split; [simpl; lia|]. split; [done|].
      eapply Forall_impl; [exact Hall|]. intros nd [Hn Hreg]. split; [simpl; lia|done].
  - intros r reg Hr. destruct (wf_regs _ Hwf _ _ Hr) as (Hlt & [ns HL] & Hobj).
    split; [simpl; lia|]. split; [|done]. simpl.
    rewrite lookup_insert_ne; [eauto|]. intros Heq. congruence.
  - assert (Hold : ∀ k p, handlers s !! k = Some p → p ≠ Some (brk s)).
    { intros k [L|] Hk; [|done]. intros [= ->].
      destruct (wf_handlers _ Hwf _ _ Hk) as [[ns HL] _]. congruence. }
    intros k p. destruct (decide (T = k)) as [<-|Hne].
    + rewrite lookup_insert_eq. intros [= <-]. split; simpl.
      * rewrite lookup_insert_eq. eauto.
      * intros k' p'. destruct (decide (T = k')) as [<-|Hne']; [done|].
        rewrite lookup_insert_ne by done. intros Hk' ->. by destruct (Hold _ _ Hk').
    + rewrite lookup_insert_ne by done. intros Hk.
      pose proof (wf_handlers _ Hwf _ _ Hk) as He. unfold entry_wf in *.
      destruct p as [L|]; [|done]. destruct He as [[ns HL] Hinj]. simpl. split.
      * rewrite lookup_insert_ne; [eauto|]. intros Heq. congruence.
      * intros k' p'. destruct (decide (T = k')) as [<-|Hne'].
        -- rewrite lookup_insert_eq. intros [= <-] [= <-]. by destruct (Hold _ _ Hk).
        -- rewrite lookup_insert_ne by done. apply Hinj.
Qed.

Lemma wf_with_new_registration a snd L nodes s :
  wf s → lists s !! L = Some nodes →
  wf (with_new_registration (object a) snd L nodes s).
Proof.
  intros Hwf HL. pose proof (wf_fresh_reg s (brk s) Hwf (N.le_refl _)) as Hfresh.
  assert (Hnode : ∀ L' nd, node_wf s L' nd →
            node_wf (with_new_registration (object a) snd L nodes s) L' nd).
  { intros L' nd [Hlt Hreg]. split; [simpl; lia|]. simpl.
    destruct (regs s !! nd.2) as [reg|] eqn:Hnd; [|done].
    rewrite lookup_insert_ne; [by rewrite Hnd|]. intros Heq. congruence. }
  constructor; simpl.
  - intros L' nodes'. destruct (decide (L = L')) as [<-|Hne].
    + rewrite lookup_insert_eq. intros [= <-].
      destruct (wf_lists _ Hwf _ _ HL) as (Hlt & Hnd & Hall).
      split; [simpl; lia|]. split.
      * rewrite fmap_app. apply NoDup_app. split; [done|]. split; [|apply NoDup_singleton].
        intros n Hn1 Hn2. apply list_elem_of_fmap in Hn1 as (nd & Hnd1 & Hin).
        apply list_elem_of_singleton in Hn2. simpl in Hn2.
        rewrite Forall_forall in Hall. destruct (Hall _ Hin) as [Hn _]. lia.
      * apply Forall_app. split.
        -- eapply Forall_impl; [exact Hall|]. apply Hnode.
        -- apply Forall_singleton. split; [simpl; lia|]. simpl.
           by rewrite lookup_insert_eq.
    + rewrite lookup_insert_ne by done. intros HL'.
      destruct (wf_lists _ Hwf _ _ HL') as (Hlt & Hnd & Hall).
      split; [simpl; lia|]. split; [done|].
      eapply Forall_impl; [exact Hall|]. apply Hnode.
  - intros r reg. destruct (decide (brk s = r)) as [<-|Hne].
    + rewrite lookup_insert_eq. intros [= <-]. split; [simpl; lia|]. simpl.
      split; [|done]. rewrite lookup_insert_eq. eauto.
    + rewrite lookup_insert_ne by done. intros Hr.
      destruct (wf_regs _ Hwf _ _ Hr) as (Hlt & [ns Hns] & Hobj).
      split; [simpl; lia|]. split; [|done]. simpl.
      destruct (decide (L = registrations reg)) as [<-|HneL].
      * rewrite lookup_insert_eq. eauto.
      * rewrite lookup_insert_ne by done. eauto.
  - intros k p Hk. pose proof (wf_handlers _ Hwf _ _ Hk) as He. unfold entry_wf in *.
    destruct p as [L'|]; [|done]. destruct He as [[ns Hns] Hinj]. simpl.
    split; [|done]. destruct (decide (L = L')) as [<-|HneL].
    + rewrite lookup_insert_eq. eauto.
    + rewrite lookup_insert_ne by done. eauto.
Qed.

Lemma AddHandler_register T h : AddHandler T h = register nullptr T h.
Proof. done. Qed.

Lemma AddHandler_sender_register T h snd :
  AddHandler_sender T h snd = register address_of_parameter T h.
Proof. done. Qed.

Lemma prepared_wf T s : wf s → wf (prepared T s).
Proof.
  intros Hwf. unfold prepared. destruct (handlers s !! T) as [[L|]|] eqn:HT; [done|..].
  - by apply wf_with_new_list.
  - apply wf_with_new_list; [by apply wf_null_entry|]. simpl. by rewrite lookup_insert_eq.
Qed.

Lemma prepared_entry T s :
  wf s →
  ∃ L, handlers (prepared T s) !! T = Some (Some L) ∧
       lists (prepared T s) !! L = Some (collection s T).
Proof.
  intros Hwf. unfold prepared, collection.
  destruct (handlers s !! T) as [[L|]|] eqn:HT.
  - exists L. split; [done|]. destruct (wf_handlers _ Hwf _ _ HT) as [[ns ->] _]. done.
  - exists (brk s). simpl. by rewrite !lookup_insert_eq.
  - exists (brk s). simpl. by rewrite !lookup_insert_eq.
Qed.

Lemma register_run snd T h s L :
  handlers (prepared T s) !! T = Some (Some L) →
  lists (prepared T s) !! L = Some (collection s T) →
  register snd T h s =
  ([], Done (brk (prepared T s),
             with_new_registration (object h) snd L (collection s T) (prepared T s))).
Proof.
  unfold prepared, collection.
  destruct (handlers s !! T) as [[L'|]|] eqn:HT; intros HL Hnodes.
  - rewrite HT in HL. injection HL as ->.
    unfold register, handlers_index, new_EventRegistration, push_back, new, list_load,
      list_store, load, gets, modify, mbind, M_bind, mret, M_ret.
    simpl. rewrite HT. simpl. rewrite Hnodes. done.
  - simpl in HL. rewrite lookup_insert_eq in HL. injection HL as <-.
    unfold register, handlers_index, new_Registrations, handlers_assign,
      new_EventRegistration, push_back, new, list_load,
      list_store, load, gets, modify, mbind, M_bind, mret, M_ret.
    simpl. rewrite HT. simpl. rewrite lookup_insert_eq. done.
  - simpl in HL. rewrite lookup_insert_eq in HL. injection HL as <-.
    unfold register, handlers_index, new_Registrations, handlers_assign,
      new_EventRegistration, push_back, new, list_load,
      list_store, load, gets, modify, mbind, M_bind, mret, M_ret.
    simpl. rewrite HT. simpl. rewrite lookup_insert_eq. done.
Qed.

(** Registering calls no user code. *)
Lemma register_silent snd T h s : (register snd T h s).1 = [].
Proof.
  unfold register, handlers_index, new_Registrations, handlers_assign,
    new_EventRegistration, push_back, new, list_load,
    list_store, load, gets, modify, mbind, M_bind, mret, M_ret, fail.
  simpl. destruct (handlers s !! T) as [[L|]|]; simpl.
  - by destruct (lists s !! L).
  - by rewrite lookup_insert_eq.
  - by rewrite lookup_insert_eq.
Qed.

Lemma prepared_frame T s :
  regs (prepared T s) = regs s ∧ _collectionMap (prepared T s) = _collectionMap s ∧
  _map (prepared T s) = _map s ∧ brk s ≤ brk (prepared T s) ∧
  (∀ T', T' ≠ T → handlers (prepared T s) !! T' = handlers s !! T') ∧
  (∀ L nodes, lists s !! L = Some nodes → wf s → lists (prepared T s) !! L = Some nodes).
Proof.
  unfold prepared. destruct (handlers s !! T) as [[L|]|] eqn:HT; simpl;
    repeat split; try done; try lia.
  - intros T' Hne. by rewrite lookup_insert_ne.
  - intros L nodes HL Hwf. rewrite lookup_insert_ne; [done|]. intros Heq.
    pose proof (wf_fresh_list s (brk s) Hwf (N.le_refl _)). congruence.
  - intros T' Hne. by rewrite !lookup_insert_ne.
  - intros L nodes HL Hwf. rewrite lookup_insert_ne; [done|]. intros Heq.
    pose proof (wf_fresh_list s (brk s) Hwf (N.le_refl _)). congruence.
Qed.

Lemma register_added snd T h s :
  wf s → ∃ r s', register snd T h s = ([], Done (r, s')) ∧ added snd T h r s s'.
Proof.
  intros Hwf. destruct (prepared_entry T s Hwf) as (L & HT & HL).
  pose proof (prepared_wf T s Hwf) as Hwf1.
  destruct (prepared_frame T s) as (Hregs & Hcm & Hmap & Hbrk & Hhs & Hls).
  eexists _, _. split; [by apply (register_run snd T h s L)|].
  assert (HL' : lists (with_new_registration (object h) snd L (collection s T)
                         (prepared T s)) !! L =
                Some (collection s T ++ [(N.succ (brk (prepared T s)), brk (prepared T s))])).
  { simpl. by rewrite lookup_insert_eq. }
  assert (Hcol : collection (with_new_registration (object h) snd L (collection s T)
                               (prepared T s)) T =
                 collection s T ++ [(N.succ (brk (prepared T s)), brk (prepared T s))]).
  { unfold collection at 1. simpl handlers. rewrite HT. by rewrite HL'. }
  constructor.
  - by apply wf_with_new_registration.
  - eauto.
  - exists L. split; [done|]. split; [by rewrite Hcol|]. simpl. by rewrite lookup_insert_eq.
  - by apply wf_fresh_reg.
  - intros r' Hne. simpl. rewrite lookup_insert_ne by done. by rewrite Hregs.
  - intros T' Hne. unfold collection. simpl handlers. rewrite (Hhs T' Hne).
    destruct (handlers s !! T') as [[L'|]|] eqn:HT'; try done.
    destruct (wf_handlers _ Hwf _ _ HT') as [[ns Hns] _].
    assert (L ≠ L').
    { intros <-. destruct (wf_handlers _ Hwf1 _ _ HT) as [_ Hinj].
      apply Hne. apply (Hinj T' (Some L)); [|done]. by rewrite Hhs. }
    simpl. rewrite lookup_insert_ne by done. by rewrite (Hls _ _ Hns Hwf), Hns.
  - intros T' L' HT'. simpl. destruct (decide (T' = T)) as [->|Hne].
    + revert HT. unfold prepared. by rewrite HT'.
    + by rewrite Hhs.
  - intros T' Hne. simpl. by apply Hhs.
  - done.
  - done.
Qed.

Lemma wf_collection_regs s T nd :
  wf s → nd ∈ collection s T → is_Some (regs s !! nd.2).
Proof.
  intros Hwf. unfold collection.
  destruct (handlers s !! T) as [[L|]|] eqn:HT; try by intros ?%elem_of_nil.
  destruct (lists s !! L) as [nodes|] eqn:HL; [|by intros ?%elem_of_nil]. simpl.
  intros Hin. destruct (wf_lists _ Hwf _ _ HL) as (_ & _ & Hall).
  rewrite Forall_forall in Hall. destruct (Hall _ Hin) as [_ Hnode].
  by destruct (regs s !! nd.2).
Qed.

Lemma removed_collection X s s' T :
  removed X s s' → collection s' T = filter (λ nd : N * N, nd.2 ∉ X) (collection s T).
Proof.
  intros Hrm. unfold collection. rewrite (removed_handlers _ _ _ Hrm).
  destruct (handlers s !! T) as [[L|]|]; try done.
  rewrite (removed_lists _ _ _ Hrm). by destruct (lists s !! L).
Qed.

Lemma added_handler_of_old snd T h r s s' v :
  added snd T h r s s' → is_Some (regs s !! v) → handler_of s' v = handler_of s v.
Proof.
  intros Hadd [reg Hv]. unfold handler_of.
  rewrite (added_regs _ _ _ _ _ _ Hadd); [done|].
  intros ->. rewrite (added_fresh _ _ _ _ _ _ Hadd) in Hv. done.
Qed.

Lemma added_handler_of_new snd T h r s s' :
  added snd T h r s s' → handler_of s' r = Some h.
Proof.
  intros Hadd. destruct (added_entry _ _ _ _ _ _ Hadd) as (L & _ & _ & Hr).
  unfold handler_of. by rewrite Hr.
Qed.

Lemma calls_in_order_ext s s' e nodes :
  (∀ nd, nd ∈ nodes → handler_of s' nd.2 = handler_of s nd.2) →
  calls_in_order s' e nodes = calls_in_order s e nodes.
Proof.
  unfold calls_in_order. induction nodes as [|nd nodes IH]; intros Hext; [done|].
  change (nd :: nodes) with ([nd] ++ nodes). rewrite !omap_app.
  rewrite IH by (intros nd' Hin; apply Hext; by right).
  f_equal. simpl. by rewrite (Hext nd) by left.
Qed.

(** Registering appends to what a quiet pass over the collection calls. *)
Lemma added_calls_in_order snd T h r s s' e :
  wf s → added snd T h r s s' →
  calls_in_order s' e (collection s' T) =
  calls_in_order s e (collection s T) ++ [Handled r h e].
Proof.
  intros Hwf Hadd. destruct (added_collection _ _ _ _ _ _ Hadd) as [n ->].
  unfold calls_in_order at 1. rewrite omap_app. f_equal.
  - apply calls_in_order_ext. intros nd Hin.
    eapply added_handler_of_old; [done|]. by eapply wf_collection_regs.
  - simpl. by rewrite (added_handler_of_new _ _ _ _ _ _ Hadd).
Qed.

(** ** Senders *)

Lemma regs_with_senders f s r :
  regs (with_senders f s) !! r = with_sender (f r) <$> regs s !! r.
Proof. simpl. rewrite map_lookup_imap. by destruct (regs s !! r). Qed.

Lemma blind_ret {A} f (a : A) : blind f (mret a).
Proof. by intros s. Qed.

Lemma blind_fail {A} f x : blind f (@fail A x).
Proof. by intros s. Qed.

Lemma blind_emit f o : blind f (emit o).
Proof. by intros s. Qed.

Lemma blind_bind {A B} f (m : M A) (k : A → M B) :
  blind f m → (∀ a, blind f (k a)) → blind f (m ≫= k).
Proof.
  intros Hm Hk s. rewrite !bind_run, Hm.
  destruct (m s) as [t [[a s1]|x]]; simpl; [|done].
  by rewrite Hk.
Qed.

Lemma blind_handlers_index f k : blind f (handlers_index k).
Proof.
  intros s. unfold handlers_index, gets, modify, mbind, M_bind, mret, M_ret. simpl.
  by destruct (handlers s !! k).
Qed.

Lemma blind_list_load f L : blind f (list_load L).
Proof.
  intros s. unfold list_load, load, gets, mbind, M_bind, mret, M_ret, fail. simpl.
  by destruct (lists s !! L).
Qed.

Lemma blind_load {A} f (o : option A) : blind f (load o).
Proof. destruct o; [apply blind_ret|apply blind_fail]. Qed.

Lemma blind_iterator_deref f L n : blind f (iterator_deref L n).
Proof.
  apply blind_bind; [apply blind_list_load|]. intros nodes. apply blind_load.
Qed.

Lemma blind_iterator_increment f L n : blind f (iterator_increment L n).
Proof.
  apply blind_bind; [apply blind_list_load|]. intros nodes.
  apply blind_bind; [apply blind_load|]. intros rest. apply blind_ret.
Qed.

Lemma blind_getHandler f r : blind f (getHandler r).
Proof.
  intros s. unfold getHandler, reg_load, load, gets, mbind, M_bind, mret, M_ret, fail.
  cbn -[with_senders]. rewrite regs_with_senders.
  by destruct (regs s !! r).
Qed.

Lemma blind_removeHandler f r : blind f (removeHandler r).
Proof.
  intros s. destruct (regs s !! r) as [reg|] eqn:Hr.
  - assert (Hr' : regs (with_senders f s) !! r = Some (with_sender (f r) reg))
      by (by rewrite regs_with_senders, Hr).
    rewrite (removeHandler_run _ _ _ Hr), (removeHandler_run _ _ _ Hr').
    simpl registered. simpl registrations. destruct (registered reg); [|done].
    simpl lists. destruct (lists s !! registrations reg) as [nodes|]; [|done].
    simpl. do 2 f_equal. f_equal.
    unfold with_senders, set_regs, set_lists. simpl. f_equal.
    by rewrite (map_imap_insert_Some _ _ _ _ (with_sender (f r) (set_registered false reg))).
  - assert (Hr' : regs (with_senders f s) !! r = None)
      by (by rewrite regs_with_senders, Hr).
    by rewrite !removeHandler_dangling.
Qed.

Lemma blind_perform_all f cs : blind f (perform_all cs).
Proof.
  induction cs as [|[r] cs IH]; [apply blind_ret|].
  apply blind_bind; [apply blind_removeHandler|done].
Qed.

Lemma blind_range_for f L body fuel : ∀ it,
  (∀ r, blind f (body r)) → blind f (range_for fuel L it body).
Proof.
  induction fuel as [|fuel IH]; intros [n|] Hbody;
    try apply blind_ret; try apply blind_fail.
  apply blind_bind; [apply blind_iterator_deref|]. intros reg.
  apply blind_bind; [apply Hbody|]. intros _.
  apply blind_bind; [apply blind_iterator_increment|]. intros it'. by apply IH.
Qed.

Lemma with_senders_of s : with_senders (senders_of s) s = s.
Proof.
  destruct s as [hs m cm ls rs b]. unfold with_senders, set_regs. simpl. f_equal.
  apply map_eq. intros r. rewrite map_lookup_imap. unfold senders_of. simpl.
  by destruct (rs !! r) as [[]|].
Qed.

Lemma with_senders_twice f g s : with_senders f (with_senders g s) = with_senders f s.
Proof.
  unfold with_senders, set_regs. simpl. f_equal.
  rewrite map_imap_compose. by apply map_imap_ext.
Qed.

(** ** The descriptor store and the typed registry *)

Lemma apart_ret {A} f (a : A) : apart f (mret a).
Proof. by intros s. Qed.

Lemma apart_fail {A} f x : apart f (@fail A x).
Proof. by intros s. Qed.

Lemma apart_emit f o : apart f (emit o).
Proof. by intros s. Qed.

Lemma apart_bind {A B} f (m : M A) (k : A → M B) :
  apart f m → (∀ a, apart f (k a)) → apart f (m ≫= k).
Proof.
  intros Hm Hk s. rewrite !bind_run, Hm.
  destruct (m s) as [t [[a s1]|x]]; simpl; [|done].
  by rewrite Hk.
Qed.

Lemma apart_load {A} f (o : option A) : apart f (load o).
Proof. destruct o; [apply apart_ret|apply apart_fail]. Qed.

Lemma apart_handlers_index f k : apart f (handlers_index k).
Proof.
  intros s. unfold handlers_index, gets, modify, mbind, M_bind, mret, M_ret. simpl.
  by destruct (handlers s !! k).
Qed.

Lemma apart_list_load f L : apart f (list_load L).
Proof.
  intros s. unfold list_load, load, gets, mbind, M_bind, mret, M_ret, fail. simpl.
  by destruct (lists s !! L).
Qed.

Lemma apart_reg_load f r : apart f (reg_load r).
Proof.
  intros s. unfold reg_load, load, gets, mbind, M_bind, mret, M_ret, fail. simpl.
  by destruct (regs s !! r).
Qed.

Lemma apart_modify f g :
  (∀ s, g (set_collectionMap f s) = set_collectionMap f (g s)) → apart f (modify g).
Proof. intros Hg s. unfold modify. simpl. by rewrite Hg. Qed.

Lemma apart_new f : apart f new.
Proof. by intros s. Qed.

Lemma apart_list_store f L nodes : apart f (list_store L nodes).
Proof. by apply apart_modify. Qed.

Lemma apart_push_back f L v : apart f (push_back L v).
Proof.
  apply apart_bind; [apply apart_list_load|]. intros nodes.
  apply apart_bind; [apply apart_new|]. intros n. apply apart_list_store.
Qed.

Lemma apart_new_EventRegistration f h L snd : apart f (new_EventRegistration h L snd).
Proof.
  apply apart_bind; [apply apart_new|]. intros r.
  apply apart_bind; [by apply apart_modify|]. intros _. apply apart_ret.
Qed.

Lemma apart_register f snd T h : apart f (register snd T h).
Proof.
  apply apart_bind; [apply apart_handlers_index|]. intros p.
  apply apart_bind.
  - destruct p as [L|]; [apply apart_ret|].
    apply apart_bind.
    + apply apart_bind; [apply apart_new|]. intros L.
      apply apart_bind; [apply apart_list_store|]. intros _. apply apart_ret.
    + intros L. apply apart_bind; [by apply apart_modify|]. intros _. apply apart_ret.
  - intros L. apply apart_bind; [apply apart_new_EventRegistration|]. intros r.
    apply apart_bind; [apply apart_push_back|]. intros _. apply apart_ret.
Qed.

Lemma apart_getHandler f r : apart f (getHandler r).
Proof. apply apart_bind; [apply apart_reg_load|]. intros reg. apply apart_ret. Qed.

Lemma apart_getSender f r : apart f (getSender r).
Proof. apply apart_bind; [apply apart_reg_load|]. intros reg. apply apart_ret. Qed.

Lemma apart_removeHandler f r : apart f (removeHandler r).
Proof.
  apply apart_bind; [apply apart_reg_load|]. intros reg.
  destruct (registered reg); [|apply apart_ret].
  apply apart_bind; [|intros _; by apply apart_modify].
  apply apart_bind; [apply apart_list_load|]. intros nodes. apply apart_list_store.
Qed.

Lemma apart_perform_all f cs : apart f (perform_all cs).
Proof.
  induction cs as [|[r] cs IH]; [apply apart_ret|].
  apply apart_bind; [apply apart_removeHandler|done].
Qed.

Lemma apart_iterator_deref f L n : apart f (iterator_deref L n).
Proof.
  apply apart_bind; [apply apart_list_load|]. intros nodes. apply apart_load.
Qed.

Lemma apart_iterator_increment f L n : apart f (iterator_increment L n).
Proof.
  apply apart_bind; [apply apart_list_load|]. intros nodes.
  apply apart_bind; [apply apart_load|]. intros rest. apply apart_ret.
Qed.

Lemma apart_range_for f L body fuel : ∀ it,
  (∀ r, apart f (body r)) → apart f (range_for fuel L it body).
Proof.
  induction fuel as [|fuel IH]; intros [n|] Hbody;
    try apply apart_ret; try apply apart_fail.
  apply apart_bind; [apply apart_iterator_deref|]. intros reg.
  apply apart_bind; [apply Hbody|]. intros _.
  apply apart_bind; [apply apart_iterator_increment|]. intros it'. by apply IH.
Qed.

Lemma apart_dispatch_to dispatch f e r : apart f (dispatch_to dispatch e r).
Proof.
  apply apart_bind; [apply apart_getHandler|]. intros [|a|]; try apply apart_fail.
  apply apart_bind; [apply apart_emit|]. intros _. apply apart_perform_all.
Qed.

Lemma with_new_registration_senders h snd snd' L nodes s :
  with_senders (λ _, nullptr) (with_new_registration h snd L nodes s) =
  with_senders (λ _, nullptr) (with_new_registration h snd' L nodes s).
Proof.
  unfold with_senders, with_new_registration, set_regs, set_lists, set_brk. simpl.
  f_equal. by rewrite !map_imap_insert.
Qed.

Section Calls.

Variable dispatch : N → RoutedEvent → list bus_call.
Variable base_of : type_index → type_index → bool.

(** [FireEvent] leaves the collaborator's store and [_map] alone, whatever
    the state and the handlers; it keeps the entries the type map has. *)
Lemma FireEvent_frame e s u s' :
  (FireEvent dispatch e s).2 = Done (u, s') →
  _collectionMap s' = _collectionMap s ∧ _map s' = _map s ∧
  ∀ k p, handlers s !! k = Some p → handlers s' !! k = Some p.
Proof.
  destruct (handlers s !! typeid e) as [[L|]|] eqn:Hk.
  - destruct (lists s !! L) as [nodes|] eqn:HL.
    + rewrite (FireEvent_found dispatch _ _ _ _ Hk HL). intros Hd.
      destruct (range_for_only dispatch e L nodes s (length nodes) (begin nodes) s)
        as [_ Hsh]; [apply shrinks_refl|done|].
      specialize (Hsh _ _ Hd). split; [apply Hsh|]. split; [apply Hsh|].
      intros k p. by rewrite (shrinks_handlers _ _ Hsh).
    + unfold FireEvent.
      rewrite (bind_Done _ _ _ _ _ _ (handlers_index_found _ _ _ Hk)). simpl.
      by rewrite (bind_Stop _ _ _ _ _ (list_load_dangling _ _ HL)).
  - rewrite (FireEvent_null dispatch _ _ Hk). by intros [= _ <-].
  - rewrite (FireEvent_missing dispatch _ _ Hk). intros [= _ <-]. simpl.
    split; [done|]. split; [done|]. intros k p Hp.
    rewrite lookup_insert_ne; [done|]. intros Heq. congruence.
Qed.

Lemma FireEvent_Done e s u s' :
  wf s → (FireEvent dispatch e s).2 = Done (u, s') →
  ∃ X, removed X (if handlers s !! typeid e is None
                  then set_handlers (insert (typeid e) None) s else s) s'.
Proof.
  intros Hwf. destruct (handlers s !! typeid e) as [[L|]|] eqn:Hk.
  - destruct (wf_handlers _ Hwf _ _ Hk) as [[nodes HL] _].
    rewrite (FireEvent_found dispatch _ _ _ _ Hk HL). by apply range_for_Done.
  - rewrite (FireEvent_null dispatch _ _ Hk). intros [= _ <-]. exists []. apply removed_nil.
  - rewrite (FireEvent_missing dispatch _ _ Hk). intros [= _ <-]. exists []. apply removed_nil.
Qed.

Lemma FireEvent_wf e s u s' :
  wf s → (FireEvent dispatch e s).2 = Done (u, s') → wf s'.
Proof.
  intros Hwf Hd. destruct (FireEvent_Done _ _ _ _ Hwf Hd) as [X HX].
  eapply wf_removed; [|done].
  destruct (handlers s !! typeid e) eqn:Hk; [done|]. by apply wf_null_entry.
Qed.

(** ** The descriptor facade *)

Lemma notify_cases e entry s :
  (∃ t, notify e entry s = (t, Done ((), s)) ∧ Forall (delivered_for entry.1) t) ∨
  notify e entry s = ([], Stop BadCast).
Proof.
  unfold notify. destruct (sd_predicate entry.2 e) as [[|]|]; [|left|by right].
  - destruct (sd_handler entry.2 e) as [calls|]; [left|by right].
    eexists. split; [done|]. apply Forall_fmap, Forall_forall. by intros [cb e'] _.
  - exists []. by split.
Qed.

Lemma notify_all_state e es s u s' :
  (notify_all e es s).2 = Done (u, s') → s' = s.
Proof.
  induction es as [|entry es IH]; simpl; [by intros [= _ <-]|].
  rewrite bind_run. destruct (notify_cases e entry s) as [(t & -> & _)| ->]; [|done].
  apply IH.
Qed.

Lemma notify_all_deliveries e es s :
  Forall (λ o, ∃ sub cb e', o = Delivered sub cb e') (notify_all e es s).1.
Proof.
  induction es as [|entry es IH]; simpl; [constructor|].
  rewrite bind_run. destruct (notify_cases e entry s) as [(t & -> & Ht)| ->]; [|constructor].
  simpl. apply Forall_app. split; [|done].
  eapply Forall_impl; [exact Ht|]. intros [] Ho; [done|eauto].
Qed.

Lemma Publish_state e s u s' : (Publish e s).2 = Done (u, s') → s' = s.
Proof.
  unfold Publish, HandlerCollectionMap_Dispatch. rewrite bind_run. simpl.
  apply notify_all_state.
Qed.

Lemma Publish_deliveries e s :
  Forall (λ o, ∃ sub cb e', o = Delivered sub cb e') (Publish e s).1.
Proof.
  unfold Publish, HandlerCollectionMap_Dispatch. rewrite bind_run. simpl.
  apply notify_all_deliveries.
Qed.

Lemma notify_calm e entry s :
  sd_predicate entry.2 e ≠ Threw_bad_cast → sd_handler entry.2 e ≠ Threw_bad_cast →
  notify e entry s = (notified e entry, Done ((), s)).
Proof.
  unfold notify, notified. intros Hp Hh.
  destruct (sd_predicate entry.2 e) as [[|]|]; try done.
  by destruct (sd_handler entry.2 e).
Qed.

Lemma notify_all_calm e es s :
  Forall (λ entry : N * SubscriptionDescriptor,
            sd_predicate entry.2 e ≠ Threw_bad_cast ∧
            sd_handler entry.2 e ≠ Threw_bad_cast) es →
  notify_all e es s = (mjoin (notified e <$> es), Done ((), s)).
Proof.
  induction 1 as [|entry es [Hp Hh] _ IH]; [done|]. simpl.
  by rewrite (bind_Done _ _ _ _ _ _ (notify_calm e entry s Hp Hh)), IH.
Qed.

Lemma notified_for e entry : Forall (delivered_for entry.1) (notified e entry).
Proof.
  unfold notified. destruct (sd_predicate entry.2 e) as [[|]|]; try constructor.
  destruct (sd_handler entry.2 e); [|constructor].
  apply Forall_fmap, Forall_forall. by intros [cb e'] _.
Qed.

(** Among the calls made for distinct handles, those for [sub] are the
    calls its entry received. *)
Lemma deliveries_of_entry e sub d es :
  NoDup es.*1 → (sub, d) ∈ es →
  filter (delivered_for sub) (mjoin (notified e <$> es)) = notified e (sub, d).
Proof.
  induction es as [|entry es IH]; [by intros _ ?%elem_of_nil|].
  csimpl. rewrite NoDup_cons. intros [Hfresh Hnd] Hin. rewrite filter_app.
  apply elem_of_cons in Hin as [<-|Hin].
  - rewrite filter_all by apply (notified_for e (sub, d)).
    rewrite filter_none; [by rewrite app_nil_r|].
    apply Forall_forall. intros o (l & Ho & Hl)%list_elem_of_join.
    apply list_elem_of_fmap in Hl as (entry' & -> & Hentry').
    pose proof (notified_for e entry') as Hall. rewrite Forall_forall in Hall.
    specialize (Hall _ Ho). destruct o; simpl in *; [done|]. intros <-.
    apply Hfresh. rewrite Hall. by apply list_elem_of_fmap_2.
  - rewrite IH by done.
    rewrite filter_none; [done|].
    apply Forall_forall. intros o Ho.
    pose proof (notified_for e entry) as Hall. rewrite Forall_forall in Hall.
    specialize (Hall _ Ho). destruct o; simpl in *; [done|]. intros <-.
    apply Hfresh. rewrite <-Hall. by apply (list_elem_of_fmap_2 fst _ (sub0, d)).
Qed.

Lemma notified_descriptor_of e sub T cb p :
  typeid e = T →
  notified e (sub, descriptor_of base_of T cb p) =
  if p e then [Delivered sub cb e] else [].
Proof.
  intros HT. unfold notified, descriptor_of, dynamic_cast. simpl.
  rewrite decide_True by done. by destruct (p e).
Qed.

(** What [Publish] delivers to a stored subscription. *)
Lemma Publish_subscribed e sub d s :
  cm_wf s → subscribed s sub d → sd_type d = typeid e → calm e s →
  ∃ t, Publish e s = (t, Done ((), s)) ∧
       filter (delivered_for sub) t = notified e (sub, d).
Proof.
  intros [Hnd _] Hin Hkey Hcalm.
  unfold Publish, HandlerCollectionMap_Dispatch. rewrite bind_run. simpl.
  set (es := filter (λ entry : N * SubscriptionDescriptor, sd_type entry.2 = typeid e)
               (entries (_collectionMap s))).
  rewrite (notify_all_calm e es s).
  - eexists. split; [done|]. apply deliveries_of_entry.
    + by apply NoDup_fst_filter.
    + by apply list_elem_of_filter.
  - apply Forall_forall. intros entry [Hk Hentry]%list_elem_of_filter.
    unfold calm in Hcalm. rewrite Forall_forall in Hcalm. by apply Hcalm.
Qed.

Lemma Add_run d s :
  Add d s =
  ([], Done (next_subscription (_collectionMap s),
             set_collectionMap (λ m,
               {| entries := entries m ++ [(next_subscription (_collectionMap s), d)];
                  next_subscription := N.succ (next_subscription (_collectionMap s)) |}) s)).
Proof. done. Qed.

Lemma Subscribe_Add T cb p : Subscribe base_of T cb p = Add (descriptor_of base_of T cb p).
Proof. done. Qed.

Lemma Add_cm_wf d s :
  cm_wf s → cm_wf (exec (Add d) s) ∧
            subscribed (exec (Add d) s) (next_subscription (_collectionMap s)) d ∧
            ∀ sub' d', subscribed s sub' d' → subscribed (exec (Add d) s) sub' d'.
Proof.
  intros [Hnd Hlt]. unfold exec, subscribed, cm_wf. rewrite Add_run. simpl.
  split; [split|split].
  - rewrite fmap_app. apply NoDup_app. split; [done|]. split; [|apply NoDup_singleton].
    intros n Hn1 Hn2. apply list_elem_of_fmap in Hn1 as (entry & Hentry & Hin).
    apply list_elem_of_singleton in Hn2. simpl in Hn2.
    rewrite Forall_forall in Hlt. specialize (Hlt _ Hin). lia.
  - apply Forall_app. split.
    + eapply Forall_impl; [exact Hlt|]. intros entry Hentry. simpl in *. lia.
    + apply Forall_singleton. simpl. lia.
  - apply elem_of_app. right. left.
  - intros sub' d' Hin. apply elem_of_app. by left.
Qed.

Lemma register_collectionMap snd T h s r s' :
  (register snd T h s).2 = Done (r, s') → _collectionMap s' = _collectionMap s.
Proof.
  unfold register, handlers_index, new_Registrations, handlers_assign,
    new_EventRegistration, push_back, new, list_load,
    list_store, load, gets, modify, mbind, M_bind, mret, M_ret, fail.
  simpl. destruct (handlers s !! T) as [[L|]|]; simpl.
  - destruct (lists s !! L); [|done]. by intros [= _ <-].
  - rewrite lookup_insert_eq. by intros [= _ <-].
  - rewrite lookup_insert_eq. by intros [= _ <-].
Qed.

(** The store keeps its subscriptions through every call that does not
    cancel them. *)
Lemma run_call_subscribed c s sub d u s' :
  ¬ cancels sub c → cm_wf s → subscribed s sub d →
  (run_call dispatch base_of c s).2 = Done (u, s') →
  cm_wf s' ∧ subscribed s' sub d.
Proof.
  intros Hc Hcm Hsub. unfold cm_wf, subscribed in *.
  destruct c as [T h|T h snd|r|e|d0|T cb p|T cb|e|sub0]; simpl.
  - rewrite AddHandler_register, bind_run.
    pose proof (register_collectionMap nullptr T h s) as Hreg.
    destruct (register nullptr T h s) as [t [[r s1]|x]]; simpl in *; [|done].
    intros [= _ <-]. by rewrite (Hreg _ _ eq_refl).
  - rewrite AddHandler_sender_register, bind_run.
    pose proof (register_collectionMap address_of_parameter T h s) as Hreg.
    destruct (register address_of_parameter T h s) as [t [[r s1]|x]]; simpl in *; [|done].
    intros [= _ <-]. by rewrite (Hreg _ _ eq_refl).
  - intros Hd. pose proof (removeHandler_shrinks _ _ _ _ Hd) as Hsh.
    by rewrite (shrinks_collectionMap _ _ Hsh).
  - intros Hd. destruct (FireEvent_frame _ _ _ _ Hd) as (-> & _). done.
  - intros [= _ <-]. destruct (Add_cm_wf d0 s Hcm) as (Hcm' & _ & Hkeep).
    split; [exact Hcm'|]. by apply Hkeep.
  - intros [= _ <-].
    destruct (Add_cm_wf (descriptor_of base_of T cb p) s Hcm) as (Hcm' & _ & Hkeep).
    split; [exact Hcm'|]. by apply Hkeep.
  - intros [= _ <-].
    destruct (Add_cm_wf (descriptor_of base_of T cb (λ _, true)) s Hcm)
      as (Hcm' & _ & Hkeep).
    split; [exact Hcm'|]. by apply Hkeep.
  - by intros ->%Publish_state.
  - intros [= _ <-]. simpl in *. destruct Hcm as [Hnd Hlt]. split; [split|].
    + by apply NoDup_fst_filter.
    + apply Forall_forall. intros entry [_ Hin]%list_elem_of_filter.
      rewrite Forall_forall in Hlt. by apply Hlt.
    + apply list_elem_of_filter. split; [|done]. simpl. intros ->. by apply Hc.
Qed.

(** ** Client programs *)

Lemma wf_set_collectionMap f s : wf s → wf (set_collectionMap f s).
Proof. intros Hwf. constructor; simpl; apply Hwf. Qed.

Lemma run_call_change c s u s' :
  wf s → (run_call dispatch base_of c s).2 = Done (u, s') → change s s'.
Proof.
  intros Hwf. destruct c as [T h|T h snd|r|e|d|T cb p|T cb|e|sub]; simpl.
  - rewrite AddHandler_register, bind_run.
    destruct (register_added nullptr T h s Hwf) as (r & s1 & -> & Hadd). simpl.
    intros [= _ <-]. by eapply change_added.
  - rewrite AddHandler_sender_register, bind_run.
    destruct (register_added address_of_parameter T h s Hwf) as (r & s1 & -> & Hadd).
    simpl. intros [= _ <-]. by eapply change_added.
  - destruct (regs s !! r) as [reg|] eqn:Hr.
    + destruct (removeHandler_removed r s Hwf) as (s1 & -> & Hrm); [eauto|].
      simpl. intros [= _ <-]. eapply change_removed; [by left|done].
    + by rewrite (removeHandler_dangling _ _ Hr).
  - intros Hd. destruct (FireEvent_Done _ _ _ _ Hwf Hd) as [X HX].
    eapply change_removed; [|exact HX].
    destruct (handlers s !! typeid e) eqn:Hk; [by left|right; eauto].
  - intros [= _ <-]. by eapply change_store.
  - intros [= _ <-]. by eapply change_store.
  - intros [= _ <-]. by eapply change_store.
  - intros ->%Publish_state. by eapply (change_store _ _ id); destruct s.
  - intros [= _ <-]. by eapply change_store.
Qed.

Lemma change_wf s s' : wf s → change s s' → wf s'.
Proof.
  intros Hwf [snd T h r Hadd|X s0 Hs0 Hrm|f ->].
  - apply Hadd.
  - eapply wf_removed; [|done]. destruct Hs0 as [->|(k & Hk & ->)]; [done|].
    by apply wf_null_entry.
  - by apply wf_set_collectionMap.
Qed.

Lemma change_regs s s' r reg :
  change s s' → regs s !! r = Some reg →
  ∃ reg', regs s' !! r = Some reg' ∧ handler reg' = handler reg ∧
          registrations reg' = registrations reg ∧ sender reg' = sender reg ∧
          (registered reg = false → registered reg' = false).
Proof.
  intros [snd T h r0 Hadd|X s0 Hs0 Hrm|f ->] Hr.
  - exists reg. rewrite (added_regs _ _ _ _ _ _ Hadd); [done|].
    intros ->. rewrite (added_fresh _ _ _ _ _ _ Hadd) in Hr. done.
  - assert (Hr0 : regs s0 !! r = Some reg).
    { by destruct Hs0 as [->|(k & Hk & ->)]. }
    rewrite (removed_regs _ _ _ Hrm), Hr0. simpl. eexists. split; [done|].
    case_decide; done.
  - exists reg. done.
Qed.

Lemma change_handlers s s' T L :
  change s s' → handlers s !! T = Some (Some L) → handlers s' !! T = Some (Some L).
Proof.
  intros [snd T0 h r0 Hadd|X s0 Hs0 Hrm|f ->] HT.
  - by apply (added_handlers _ _ _ _ _ _ Hadd).
  - rewrite (removed_handlers _ _ _ Hrm).
    destruct Hs0 as [->|(k & Hk & ->)]; [done|]. simpl.
    rewrite lookup_insert_ne; [done|]. intros ->. congruence.
  - done.
Qed.

Lemma change_registered_for s s' r A :
  change s s' → registered_for s r A → registered_for s' r A.
Proof.
  intros Hch (reg & Hr & HA).
  destruct (change_regs _ _ _ _ Hch Hr) as (reg' & Hr' & _ & Hown & _).
  exists reg'. split; [done|]. rewrite Hown. by eapply change_handlers.
Qed.

Lemma change_revoked s s' r : change s s' → revoked s r → revoked s' r.
Proof.
  intros Hch (reg & Hr & Hreg).
  destruct (change_regs _ _ _ _ Hch Hr) as (reg' & Hr' & _ & _ & _ & Hoff).
  exists reg'. auto.
Qed.

(** A property of states that every call keeps, and a property of calls
    into user code that every call made from such a state has, hold all
    along a client program. *)
Lemma run_calls_invariant (I : state → Prop) (P : observation → Prop)
    (allowed : api_call → Prop) :
  (∀ c s, allowed c → I s →
     Forall P (run_call dispatch base_of c s).1 ∧
     ∀ u s', (run_call dispatch base_of c s).2 = Done (u, s') → I s') →
  ∀ cs s, Forall allowed cs → I s →
    Forall P (run_calls dispatch base_of cs s).1 ∧
    ∀ u s', (run_calls dispatch base_of cs s).2 = Done (u, s') → I s'.
Proof.
  intros Hcall. induction cs as [|c cs IH]; intros s Hok HI; simpl.
  - split; [constructor|]. by intros ? ? [= _ <-].
  - apply Forall_cons in Hok as [Hc Hcs]. rewrite bind_run.
    destruct (Hcall c s Hc HI) as [Htr Hnext].
    destruct (run_call dispatch base_of c s) as [t [[[] s1]|x]]; simpl in *; [|done].
    destruct (IH s1 Hcs (Hnext _ _ eq_refl)) as [Htr' Hnext'].
    split; [by apply Forall_app|done].
Qed.

Lemma run_call_observations c s :
  match c with
  | do_FireEvent e =>
      Forall (λ o, ∃ L nodes, handlers s !! typeid e = Some (Some L) ∧
                              lists s !! L = Some nodes ∧ from_collection s nodes e o)
        (run_call dispatch base_of c s).1
  | do_Publish e =>
      Forall (λ o, ∃ sub cb e', o = Delivered sub cb e') (run_call dispatch base_of c s).1
  | _ => (run_call dispatch base_of c s).1 = []
  end.
Proof.
  destruct c as [T h|T h snd|r|e|d|T cb p|T cb|e|sub]; simpl; try done.
  - rewrite bind_run. pose proof (register_silent nullptr T h s) as Hs.
    rewrite <-AddHandler_register in Hs.
    by destruct (AddHandler T h s) as [t [[r s1]|x]]; simpl in *; subst t.
  - rewrite bind_run. pose proof (register_silent address_of_parameter T h s) as Hs.
    rewrite <-(AddHandler_sender_register T h snd) in Hs.
    by destruct (AddHandler_sender T h snd s) as [t [[r s1]|x]]; simpl in *; subst t.
  - apply removeHandler_silent.
  - apply FireEvent_only.
  - apply Publish_deliveries.
Qed.

(** From a well-formed state in which [r] was registered for [A], an event
    of another type does not reach [r]. *)
Lemma run_call_isolated c s r A :
  wf s → registered_for s r A →
  Forall (λ o, ∀ a e, o = Handled r a e → typeid e = A) (run_call dispatch base_of c s).1.
Proof.
  intros Hwf (reg & Hr & HA). pose proof (run_call_observations c s) as Hobs.
  destruct c as [T h|T h snd|r'|e|d|T cb p|T cb|e|sub];
    try (rewrite Hobs; constructor).
  - eapply Forall_impl; [exact Hobs|]. simpl.
    intros o (L & nodes & Hk & HL & n & r' & a' & -> & Hin & _) a e' [= <- _ <-].
    destruct (wf_lists _ Hwf _ _ HL) as (_ & _ & Hall).
    rewrite Forall_forall in Hall. destruct (Hall _ Hin) as [_ Hnode].
    simpl in Hnode. rewrite Hr in Hnode. destruct Hnode as [Hown _].
    destruct (wf_handlers _ Hwf _ _ Hk) as [_ Hinj].
    symmetry. rewrite Hown in HA. by apply (Hinj A (Some L)).
  - eapply Forall_impl; [exact Hobs|]. by intros o (sub & cb & e' & ->) a e0.
Qed.

(** From a well-formed state in which [r] is revoked, no event reaches [r]. *)
Lemma run_call_revoked c s r :
  wf s → revoked s r →
  Forall (λ o, ¬ handled_through r o) (run_call dispatch base_of c s).1.
Proof.
  intros Hwf (reg & Hr & Hoff). pose proof (run_call_observations c s) as Hobs.
  destruct c as [T h|T h snd|r'|e|d|T cb p|T cb|e|sub];
    try (rewrite Hobs; constructor).
  - eapply Forall_impl; [exact Hobs|]. simpl.
    intros o (L & nodes & Hk & HL & n & r' & a' & -> & Hin & _). simpl. intros ->.
    destruct (wf_lists _ Hwf _ _ HL) as (_ & _ & Hall).
    rewrite Forall_forall in Hall. destruct (Hall _ Hin) as [_ Hnode].
    simpl in Hnode. rewrite Hr in Hnode. destruct Hnode as [_ Hon]. congruence.
  - eapply Forall_impl; [exact Hobs|]. intros o (sub & cb & e' & ->). simpl. tauto.
Qed.

Lemma getSender_run r reg s :
  regs s !! r = Some reg → getSender r s = ([], Done (sender reg, s)).
Proof.
  intros Hr. unfold getSender, reg_load, load, gets, mbind, M_bind. simpl. by rewrite Hr.
Qed.

Lemma set_handlers_id k p s :
  handlers s !! k = Some p → set_handlers (insert k p) s = s.
Proof. intros Hk. destruct s. unfold set_handlers. simpl in *. by rewrite insert_id. Qed.

Lemma FireEvent_unknown e s :
  unknown_type s (typeid e) →
  FireEvent dispatch e s = ([], Done ((), set_handlers (insert (typeid e) None) s)).
Proof.
  intros [Hk|Hk].
  - by apply FireEvent_missing.
  - by rewrite (FireEvent_null dispatch _ _ Hk), (set_handlers_id _ _ _ Hk).
Qed.

(** A call that is not an [AddHandler] for [T] gives [T] no list. *)
Lemma run_call_unknown_type c s T u s' :
  wf s → ¬ registers_for T c → unknown_type s T →
  (run_call dispatch base_of c s).2 = Done (u, s') → unknown_type s' T.
Proof.
  intros Hwf Hc HT. unfold unknown_type in *.
  destruct c as [T' h|T' h snd|r|e|d|T' cb p|T' cb|e|sub]; simpl in *.
  - rewrite AddHandler_register, bind_run.
    destruct (register_added nullptr T' h s Hwf) as (r & s1 & -> & Hadd). simpl.
    intros [= _ <-]. rewrite (added_handlers_other _ _ _ _ _ _ Hadd); [done|].
    intros Heq. by apply Hc.
  - rewrite AddHandler_sender_register, bind_run.
    destruct (register_added address_of_parameter T' h s Hwf) as (r & s1 & -> & Hadd).
    simpl. intros [= _ <-]. rewrite (added_handlers_other _ _ _ _ _ _ Hadd); [done|].
    intros Heq. by apply Hc.
  - intros Hd. pose proof (removeHandler_shrinks _ _ _ _ Hd) as Hsh.
    by rewrite (shrinks_handlers _ _ Hsh).
  - intros Hd. destruct (FireEvent_Done _ _ _ _ Hwf Hd) as [X HX].
    rewrite (removed_handlers _ _ _ HX).
    destruct (handlers s !! typeid e) eqn:Hk; [done|]. simpl.
    destruct (decide (typeid e = T)) as [->|Hne].
    + right. by rewrite lookup_insert_eq.
    + by rewrite lookup_insert_ne.
  - by intros [= _ <-].
  - by intros [= _ <-].
  - by intros [= _ <-].
  - by intros ->%Publish_state.
  - by intros [= _ <-].
Qed.

Lemma added_quiet snd T h r s s' e :
  wf s → added snd T h r s s' → quiet dispatch s e (collection s T) →
  dispatch h e = [] → quiet dispatch s' e (collection s' T).
Proof.
  intros Hwf Hadd Hq Hh. unfold quiet in *.
  destruct (added_collection _ _ _ _ _ _ Hadd) as [n ->].
  apply Forall_app. split.
  - apply Forall_forall. intros nd Hin a.
    rewrite (added_handler_of_old _ _ _ _ _ _ _ Hadd)
      by (by eapply wf_collection_regs).
    rewrite Forall_forall in Hq. by apply Hq.
  - apply Forall_singleton. intros a. simpl.
    rewrite (added_handler_of_new _ _ _ _ _ _ Hadd). by intros [= <-].
Qed.

Lemma no_subscribers_collection s T : no_subscribers s T → collection s T = [].
Proof.
  unfold collection. intros [[HT|HT]|(L & HT & HL)]; rewrite HT; [done..|].
  by rewrite HL.
Qed.

(** With no subscriber, [FireEvent] returns at once, into a well-formed
    state in which the type still has no subscriber. *)
Lemma FireEvent_no_subscribers e s :
  wf s → no_subscribers s (typeid e) →
  ∃ s0, FireEvent dispatch e s = ([], Done ((), s0)) ∧ wf s0 ∧
        no_subscribers s0 (typeid e).
Proof.
  intros Hwf [[HT|HT]|(L & HT & HL)].
  - exists (set_handlers (insert (typeid e) None) s).
    split; [by apply FireEvent_missing|]. split; [by apply wf_null_entry|].
    left. right. simpl. by rewrite lookup_insert_eq.
  - exists s. split; [by apply FireEvent_null|]. split; [done|]. left. by right.
  - exists s. split; [by eapply FireEvent_empty|]. split; [done|]. right. eauto.
Qed.

Lemma blind_dispatch_to f e r : blind f (dispatch_to dispatch e r).
Proof.
  apply blind_bind; [apply blind_getHandler|]. intros [|a|]; try apply blind_fail.
  apply blind_bind; [apply blind_emit|]. intros _. apply blind_perform_all.
Qed.

Lemma blind_FireEvent f e : blind f (FireEvent dispatch e).
Proof.
  apply blind_bind; [apply blind_handlers_index|]. intros [L|]; [|apply blind_ret].
  apply blind_bind; [apply blind_list_load|]. intros nodes.
  apply blind_range_for. apply blind_dispatch_to.
Qed.

(** States that differ in their senders only give [FireEvent] the same
    calls to make. *)
Lemma FireEvent_same_calls e s s' :
  with_senders (λ _, nullptr) s = with_senders (λ _, nullptr) s' →
  (FireEvent dispatch e s).1 = (FireEvent dispatch e s').1.
Proof.
  intros Heq.
  rewrite <-(with_senders_of s), <-(with_senders_twice _ (λ _, nullptr) s), Heq.
  rewrite with_senders_twice, blind_FireEvent. simpl.
  by rewrite <-(with_senders_of s') at 2; rewrite blind_FireEvent.
Qed.

(** A subscription made by [Subscribe] stays in the store, under the
    handle [Subscribe] returned, through every call that does not cancel
    it. *)
Lemma Subscribe_stays T cb p s :
  cm_wf s →
  ∃ sub s1, Subscribe base_of T cb p s = ([], Done (sub, s1)) ∧
    ∀ calls u s2,
      Forall (λ c, ¬ cancels sub c) calls →
      (run_calls dispatch base_of calls s1).2 = Done (u, s2) →
      cm_wf s2 ∧ subscribed s2 sub (descriptor_of base_of T cb p).
Proof.
  intros Hcm. rewrite Subscribe_Add.
  destruct (Add_cm_wf (descriptor_of base_of T cb p) s Hcm) as (Hcm1 & Hsub1 & _).
  eexists _, _. split; [apply Add_run|].
  intros calls u s2 Hcalls Hd.
  destruct (run_calls_invariant
              (λ s', cm_wf s' ∧
                     subscribed s' (next_subscription (_collectionMap s))
                       (descriptor_of base_of T cb p))
              (λ _, True)
              (λ c, ¬ cancels (next_subscription (_collectionMap s)) c))
    with (cs := calls) (s := exec (Add (descriptor_of base_of T cb p)) s)
    as [_ Hfin].
  - intros c s0 Hc [Hcm0 Hsub0]. split; [by apply Forall_forall|].
    intros u' s' Hd'. by eapply run_call_subscribed.
  - done.
  - done.
  - by apply (Hfin u s2).
Qed.

(** The overload with a sender stores the address of its parameter for
    every sender it is given; the overload without stores a null pointer. *)
Lemma getSender_of_new_registration s T h :
  wf s →
  (∀ snd, ∃ r s1, AddHandler_sender T h snd s = ([], Done (r, s1)) ∧
                  getSender r s1 = ([], Done (address_of_parameter, s1))) ∧
  (∃ r s1, AddHandler T h s = ([], Done (r, s1)) ∧
           getSender r s1 = ([], Done (nullptr, s1))).
Proof.
  intros Hwf. split; [intros snd|].
  - destruct (register_added address_of_parameter T h s Hwf) as (r & s1 & Hrun & Hadd).
    exists r, s1. split; [done|].
    destruct (added_entry _ _ _ _ _ _ Hadd) as (L & _ & _ & Hr).
    by rewrite (getSender_run _ _ _ Hr).
  - destruct (register_added nullptr T h s Hwf) as (r & s1 & Hrun & Hadd).
    exists r, s1. split; [done|].
    destruct (added_entry _ _ _ _ _ _ Hadd) as (L & _ & _ & Hr).
    by rewrite (getSender_run _ _ _ Hr).
Qed.

Lemma removeHandler_again r s :
  revoked s r → removeHandler r s = ([], Done ((), s)).
Proof. intros (reg & Hr & Hoff). by rewrite (removeHandler_run _ _ _ Hr), Hoff. Qed.

Lemma removed_revoked X s s' r :
  removed X s s' → r ∈ X → is_Some (regs s !! r) → revoked s' r.
Proof.
  intros Hrm Hin [reg Hr]. exists (set_registered false reg).
  rewrite (removed_regs _ _ _ Hrm), Hr. simpl. by rewrite decide_True.
Qed.

Lemma removed_absent X s s' r L nodes :
  removed X s s' → r ∈ X → lists s' !! L = Some nodes → r ∉ nodes.*2.
Proof.
  intros Hrm Hin. rewrite (removed_lists _ _ _ Hrm).
  destruct (lists s !! L) as [ns|]; [|done]. simpl. intros [= <-].
  intros (nd & -> & Hnd)%list_elem_of_fmap.
  apply list_elem_of_filter in Hnd as [Hnot _]. done.
Qed.

Lemma getHandler_run r reg s :
  regs s !! r = Some reg → getHandler r s = ([], Done (handler reg, s)).
Proof.
  intros Hr. unfold getHandler, reg_load, load, gets, mbind, M_bind. simpl. by rewrite Hr.
Qed.

Lemma NoDup_snd_filter (P : N * N → Prop) `{∀ x, Decision (P x)} (nodes : list (N * N)) :
  NoDup nodes.*2 → NoDup (filter P nodes).*2.
Proof.
  induction nodes as [|[n v] nodes IH]; [done|].
  csimpl. rewrite NoDup_cons. intros [Hn Hnd]. rewrite filter_cons.
  case_decide; [|by apply IH].
  csimpl. rewrite NoDup_cons. split; [|by apply IH].
  intros Hin. apply Hn. apply list_elem_of_fmap in Hin as (x & -> & Hx).
  apply list_elem_of_filter in Hx as [_ Hx]. by apply list_elem_of_fmap_2.
Qed.

Lemma removed_tidy X s s' : removed X s s' → tidy s → tidy s'.
Proof.
  intros Hrm Ht L nodes'. rewrite (removed_lists _ _ _ Hrm).
  destruct (lists s !! L) as [nodes|] eqn:HL; [|done]. simpl. intros [= <-].
  apply NoDup_snd_filter. by apply (Ht L).
Qed.

Lemma register_tidy snd T h s r s' :
  wf s → tidy s → (register snd T h s).2 = Done (r, s') → tidy s'.
Proof.
  intros Hwf Ht. destruct (prepared_entry T s Hwf) as (L & HT & HL).
  rewrite (register_run snd T h s L HT HL). simpl. intros [= _ <-].
  pose proof (prepared_wf T s Hwf) as Hwf1.
  assert (Ht1 : tidy (prepared T s)).
  { unfold prepared. destruct (handlers s !! T) as [[L'|]|]; [done|..];
      (simpl; apply map_Forall_insert_2; [constructor|done]). }
  intros L' nodes'. simpl. destruct (decide (L = L')) as [<-|Hne].
  - rewrite lookup_insert_eq. intros [= <-]. rewrite fmap_app. apply NoDup_app.
    split; [by apply (Ht1 L)|]. split; [|apply NoDup_singleton].
    intros v Hv Hv'. apply list_elem_of_singleton in Hv'. simpl in Hv'. subst v.
    apply list_elem_of_fmap in Hv as (nd & Hnd & Hin).
    destruct (wf_lists _ Hwf1 _ _ HL) as (_ & _ & Hall).
    rewrite Forall_forall in Hall. destruct (Hall _ Hin) as [_ Hnode].
    rewrite <-Hnd, (wf_fresh_reg _ _ Hwf1 (N.le_refl _)) in Hnode. done.
  - rewrite lookup_insert_ne by done. apply Ht1.
Qed.

Lemma run_call_tidy c s u s' :
  wf s → tidy s → (run_call dispatch base_of c s).2 = Done (u, s') → tidy s'.
Proof.
  intros Hwf Ht. destruct c as [T h|T h snd|r|e|d|T cb p|T cb|e|sub]; simpl.
  - rewrite AddHandler_register, bind_run.
    pose proof (register_tidy nullptr T h s) as Hreg.
    destruct (register nullptr T h s) as [t [[r s1]|x]]; simpl in *; [|done].
    intros [= _ <-]. by eapply Hreg.
  - rewrite AddHandler_sender_register, bind_run.
    pose proof (register_tidy address_of_parameter T h s) as Hreg.
    destruct (register address_of_parameter T h s) as [t [[r s1]|x]]; simpl in *; [|done].
    intros [= _ <-]. by eapply Hreg.
  - destruct (regs s !! r) as [reg|] eqn:Hr.
    + destruct (removeHandler_removed r s Hwf) as (s1 & -> & Hrm); [eauto|].
      simpl. intros [= _ <-]. by eapply removed_tidy.
    + by rewrite (removeHandler_dangling _ _ Hr).
  - intros Hd. destruct (FireEvent_Done _ _ _ _ Hwf Hd) as [X HX].
    eapply removed_tidy; [exact HX|]. by destruct (handlers s !! typeid e).
  - by intros [= _ <-].
  - by intros [= _ <-].
  - by intros [= _ <-].
  - by intros ->%Publish_state.
  - by intros [= _ <-].
Qed.

Lemma tidy_collection s T : tidy s → NoDup (collection s T).*2.
Proof.
  intros Ht. unfold collection.
  destruct (handlers s !! T) as [[L|]|]; try constructor.
  destruct (lists s !! L) as [nodes|] eqn:HL; [|constructor]. by apply (Ht L).
Qed.

Lemma handler_of_quiet_removed X s s' e nodes :
  removed X s s' → quiet dispatch s e nodes →
  quiet dispatch s' e (filter (λ nd : N * N, nd.2 ∉ X) nodes).
Proof.
  intros Hrm Hq. unfold quiet in *. apply Forall_forall.
  intros nd [_ Hin]%list_elem_of_filter a.
  rewrite (handler_of_removed _ _ _ _ Hrm). rewrite Forall_forall in Hq. by apply Hq.
Qed.

(** What quiet handlers are given after a revocation: what they were given
    before, without the calls through the revoked registration. *)
Lemma calls_in_order_removed r s s' e T :
  removed [r] s s' →
  calls_in_order s' e (collection s' T) =
  filter (λ o, ¬ handled_through r o) (calls_in_order s e (collection s T)).
Proof.
  intros Hrm. rewrite (removed_collection _ _ _ T Hrm).
  rewrite (calls_in_order_ext s s') by (intros; by apply (handler_of_removed _ _ _ _ Hrm)).
  unfold calls_in_order. induction (collection s T) as [|nd nodes IH]; [done|].
  rewrite filter_cons. change (nd :: nodes) with ([nd] ++ nodes).
  rewrite omap_app, filter_app, <-IH. simpl.
  case_decide as Hnd.
  - change (nd :: filter (λ nd0 : N * N, nd0.2 ∉ [r]) nodes)
      with ([nd] ++ filter (λ nd0 : N * N, nd0.2 ∉ [r]) nodes).
    rewrite omap_app. f_equal. simpl.
    destruct (handler_of s nd.2); [|done]. simpl.
    rewrite filter_cons_True; [done|]. simpl.
    intros Heq. apply Hnd. rewrite Heq. left.
  - destruct (handler_of s nd.2); [|done]. simpl.
    rewrite filter_cons_False; [done|]. simpl.
    intros Hn. apply Hn. by apply list_elem_of_singleton in Hnd.
Qed.

(** With quiet handlers and an entry for the event's type, [FireEvent]
    gives back the state it was given. *)
Lemma FireEvent_quiet_state e s :
  wf s → is_Some (handlers s !! typeid e) →
  quiet dispatch s e (collection s (typeid e)) →
  FireEvent dispatch e s = (calls_in_order s e (collection s (typeid e)), Done ((), s)).
Proof.
  intros Hwf [p Hk] Hq.
  destruct (FireEvent_quiet dispatch e s Hwf Hq) as (s' & Hfire & _).
  rewrite Hfire. do 2 f_equal. apply (f_equal snd) in Hfire. simpl in Hfire.
  revert Hfire Hq. unfold collection, quiet. rewrite Hk. destruct p as [L|].
  - destruct (wf_handlers _ Hwf _ _ Hk) as [[nodes HL] _]. rewrite HL. simpl.
    rewrite (FireEvent_found dispatch _ _ _ _ Hk HL). intros Hfire Hq.
    destruct nodes as [|[n r] post]; [by revert Hfire; intros [= ->]|].
    rewrite (range_for_quiet dispatch e L _ s [] n r post) in Hfire.
    + by injection Hfire as ->.
    + done.
    + by destruct (wf_lists _ Hwf _ _ HL) as (_ & ? & _).
    + simpl. lia.
    + apply Forall_forall. intros nd Hin.
      destruct (wf_handler_of _ _ _ _ Hwf HL Hin) as [a Ha]. exists a. split; [done|].
      rewrite Forall_forall in Hq. by apply (Hq nd).
  - rewrite (FireEvent_null dispatch _ _ Hk). by intros [= ->].
Qed.

(** A registration outlives every client program, with the handler, the
    list and the sender it was made with; once revoked it stays revoked. *)
Lemma run_calls_regs cs s u s' r reg :
  wf s → regs s !! r = Some reg →
  (run_calls dispatch base_of cs s).2 = Done (u, s') →
  wf s' ∧
  ∃ reg', regs s' !! r = Some reg' ∧ handler reg' = handler reg ∧
          registrations reg' = registrations reg ∧ sender reg' = sender reg ∧
          (registered reg = false → registered reg' = false).
Proof.
  intros Hwf Hr Hd.
  destruct (run_calls_invariant
              (λ s0, wf s0 ∧
                 ∃ reg', regs s0 !! r = Some reg' ∧ handler reg' = handler reg ∧
                         registrations reg' = registrations reg ∧
                         sender reg' = sender reg ∧
                         (registered reg = false → registered reg' = false))
              (λ _, True) (λ _, True))
    with (cs := cs) (s := s) as [_ Hfin].
  - intros c s0 _ (Hwf0 & reg0 & Hr0 & Hh & Hl & Hs & Hoff).
    split; [by apply Forall_forall|]. intros u' s1 Hd1.
    pose proof (run_call_change _ _ _ _ Hwf0 Hd1) as Hch.
    split; [by eapply change_wf|].
    destruct (change_regs _ _ _ _ Hch Hr0) as (reg1 & Hr1 & Hh1 & Hl1 & Hs1 & Hoff1).
    exists reg1. split; [done|]. split; [congruence|]. split; [congruence|].
    split; [congruence|]. tauto.
  - by apply Forall_forall.
  - split; [done|]. by exists reg.
  - by eapply Hfin.
Qed.

(** The list of a type outlives every client program. *)
Lemma run_calls_handlers cs s u s' T L :
  wf s → handlers s !! T = Some (Some L) →
  (run_calls dispatch base_of cs s).2 = Done (u, s') →
  wf s' ∧ handlers s' !! T = Some (Some L).
Proof.
  intros Hwf HT Hd.
  destruct (run_calls_invariant (λ s0, wf s0 ∧ handlers s0 !! T = Some (Some L))
              (λ _, True) (λ _, True))
    with (cs := cs) (s := s) as [_ Hfin].
  - intros c s0 _ [Hwf0 HT0]. split; [by apply Forall_forall|]. intros u' s1 Hd1.
    pose proof (run_call_change _ _ _ _ Hwf0 Hd1) as Hch.
    split; [by eapply change_wf|by eapply change_handlers].
  - by apply Forall_forall.
  - done.
  - by eapply Hfin.
Qed.

(** Every node of a well-formed bus has a handler. *)
Lemma collection_handler_of s T :
  wf s → Forall (λ nd : N * N, is_Some (handler_of s nd.2)) (collection s T).
Proof.
  intros Hwf. apply Forall_forall. intros nd Hin.
  destruct (wf_collection_regs s T nd Hwf Hin) as [reg Hreg].
  destruct (wf_regs _ Hwf _ _ Hreg) as (_ & _ & Hobj).
  unfold handler_of. rewrite Hreg. by destruct (handler reg).
Qed.

Lemma revoked_by_elem x t :
  x ∈ revoked_by dispatch t ↔
  ∃ r a e, Handled r a e ∈ t ∧ x ∈ targets (dispatch a e).
Proof.
  unfold revoked_by. rewrite list_elem_of_bind. split.
  - intros ([r a e|sub cb e] & Hx & Ho); [eauto|by apply elem_of_nil in Hx].
  - intros (r & a & e & Ho & Hx). by exists (Handled r a e).
Qed.

(** [FireEvent] on a bus whose handlers, as far as it calls them, are
    courteous: the calls are those of [pass], and what the handlers revoked
    is taken out of the bus. *)
Lemma FireEvent_courteous e s :
  wf s → Forall (courteous dispatch s) (FireEvent dispatch e s).1 →
  ∃ s0 s',
    FireEvent dispatch e s =
      (pass dispatch (length (collection s (typeid e))) (handler_of s) e
         (collection s (typeid e)),
       Done ((), s')) ∧
    wf s' ∧
    removed (revoked_by dispatch
               (pass dispatch (length (collection s (typeid e))) (handler_of s) e
                  (collection s (typeid e)))) s0 s' ∧
    regs s0 = regs s ∧ ∀ T, collection s0 T = collection s T.
Proof.
  intros Hwf Htr.
  destruct (handlers s !! typeid e) as [[L|]|] eqn:Hk.
  - destruct (wf_handlers _ Hwf _ _ Hk) as [[nodes HL] _].
    rewrite (collection_found _ _ _ _ Hk HL).
    rewrite (FireEvent_found dispatch _ _ _ _ Hk HL) in Htr |- *.
    destruct nodes as [|[n r] post].
    { exists s, s. split; [done|]. split; [done|]. split; [apply removed_nil|done]. }
    destruct (range_for_courteous dispatch e L (length ((n, r) :: post)) s [] n r post)
      as (s' & Hrun & Hrm & Hwf'); try done.
    { simpl. lia. }
    by exists s, s'.
  - assert (Hcol : collection s (typeid e) = []) by (unfold collection; by rewrite Hk).
    rewrite Hcol. exists s, s. rewrite (FireEvent_null dispatch _ _ Hk).
    split; [done|]. split; [done|]. split; [apply removed_nil|done].
  - assert (Hcol : collection s (typeid e) = []) by (unfold collection; by rewrite Hk).
    rewrite Hcol. eexists _, _. rewrite (FireEvent_missing dispatch _ _ Hk).
    split; [done|]. split; [by apply wf_null_entry|]. split; [apply removed_nil|].
    split; [done|]. intros T. unfold collection. simpl.
    destruct (decide (T = typeid e)) as [->|Hne].
    + by rewrite lookup_insert_eq, Hk.
    + by rewrite lookup_insert_ne.
Qed.

(** [FireEvent] returns after calls of courteous handlers, or its last
    call is the first call of a handler that is not, and it does not
    return. *)
Lemma FireEvent_outcome e s :
  wf s →
  Forall (courteous dispatch s) (FireEvent dispatch e s).1 ∨
  ∃ t r a,
    (FireEvent dispatch e s).1 = t ++ [Handled r a e] ∧
    Forall (courteous dispatch s) t ∧ ¬ courteous dispatch s (Handled r a e) ∧
    (FireEvent dispatch e s).2 = Stop UndefinedBehaviour.
Proof.
  intros Hwf. destruct (handlers s !! typeid e) as [[L|]|] eqn:Hk.
  - destruct (wf_handlers _ Hwf _ _ Hk) as [[nodes HL] _].
    rewrite (FireEvent_found dispatch _ _ _ _ Hk HL).
    destruct nodes as [|[n r] post]; [by left|].
    apply (range_for_outcome dispatch e L _ s [] n r post); [done..|]. simpl. lia.
  - left. by rewrite (FireEvent_null dispatch _ _ Hk).
  - left. by rewrite (FireEvent_missing dispatch _ _ Hk).
Qed.

(** Quiet handlers of a well-formed bus are each called. *)
Lemma calls_in_order_all s e T r :
  wf s → r ∈ (collection s T).*2 →
  ∃ a, handler_of s r = Some a ∧ Handled r a e ∈ calls_in_order s e (collection s T).
Proof.
  intros Hwf (nd & -> & Hin)%list_elem_of_fmap.
  pose proof (collection_handler_of s T Hwf) as Hall.
  rewrite Forall_forall in Hall. destruct (Hall _ Hin) as [a Ha].
  exists a. split; [done|]. unfold calls_in_order. apply list_elem_of_omap.
  exists nd. split; [done|]. by rewrite Ha.
Qed.

(** Each call in order goes through a node of the list. *)
Lemma calls_in_order_through s e nodes o :
  o ∈ calls_in_order s e nodes →
  ∃ nd a, nd ∈ nodes ∧ handler_of s nd.2 = Some a ∧ o = Handled nd.2 a e.
Proof.
  unfold calls_in_order. intros (nd & Hin & Hnd)%list_elem_of_omap.
  destruct (handler_of s nd.2) as [a|] eqn:Ha; [|done].
  exists nd, a. simpl in Hnd. split; [done|]. split; [done|]. congruence.
Qed.

(** A registration that a list holds once is called once. *)
Lemma calls_in_order_once s e nodes nd a :
  NoDup nodes.*2 → nd ∈ nodes → handler_of s nd.2 = Some a →
  filter (handled_through nd.2) (calls_in_order s e nodes) = [Handled nd.2 a e].
Proof.
  intros Hnd Hin Ha. unfold calls_in_order.
  induction nodes as [|nd0 nodes IH]; [by apply elem_of_nil in Hin|].
  csimpl in Hnd. apply NoDup_cons in Hnd as [Hfresh Hnd].
  change (nd0 :: nodes) with ([nd0] ++ nodes). rewrite omap_app, filter_app.
  apply elem_of_cons in Hin as [->|Hin].
  - simpl. rewrite Ha. simpl. rewrite filter_cons_True by done.
    rewrite filter_nil. simpl. f_equal.
    apply filter_none, Forall_forall. intros o Ho.
    apply calls_in_order_through in Ho as (nd' & a' & Hin' & _ & ->). simpl.
    intros Heq. apply Hfresh. rewrite <-Heq. by apply list_elem_of_fmap_2.
  - rewrite (IH Hnd Hin). rewrite filter_none; [done|].
    apply Forall_forall. intros o Ho.
    apply calls_in_order_through in Ho as (nd' & a' & Hin' & _ & ->). simpl.
    apply list_elem_of_singleton in Hin'. subst nd'.
    intros Heq. apply Hfresh. rewrite Heq. by apply list_elem_of_fmap_2.
Qed.

(** What a handler revokes is not called in the rest of the pass. *)
Lemma pass_after ho e x : ∀ fuel nodes t1 r a t2,
  pass dispatch fuel ho e nodes = t1 ++ Handled r a e :: t2 →
  x ∈ targets (dispatch a e) → Forall (λ o, ¬ handled_through x o) t2.
Proof.
  induction fuel as [|fuel IH]; intros [|[n0 r0] post] t1 r a t2; simpl;
    try (by intros ?%app_cons_not_nil).
  destruct (ho r0) as [a0|] eqn:Ha0; [|by intros ?%app_cons_not_nil].
  destruct t1 as [|o t1]; simpl.
  - intros Heq Hx. injection Heq as Hr Ha Ht. subst r a t2.
    apply Forall_forall. intros o Ho.
    apply pass_only in Ho as (nd & a' & Hnd & _ & ->). simpl.
    apply list_elem_of_filter in Hnd as [Hkeep _]. intros Heq. apply Hkeep. by rewrite Heq.
  - intros [= _ Hrest] Hx. by eapply IH.
Qed.

(** Every state a client can reach from a new bus is well formed. *)
Lemma wf_reachable calls u s :
  (run_calls dispatch base_of calls new_EventBus).2 = Done (u, s) → wf s ∧ cm_wf s.
Proof.
  intros Hd.
  destruct (run_calls_invariant (λ s, wf s ∧ cm_wf s) (λ _, True) (λ _, True))
    with (cs := calls) (s := new_EventBus) as [_ Hfin].
  - intros c s0 _ [Hwf0 Hcm0]. split; [by apply Forall_forall|].
    intros u' s' Hd'. split.
    + eapply change_wf; [done|]. by eapply run_call_change.
    + clear Hd. destruct c as [T h|T h snd|r|e|d|T cb p|T cb|e|sub]; simpl in Hd'.
      * rewrite AddHandler_register, bind_run in Hd'.
        pose proof (register_collectionMap nullptr T h s0) as Hreg.
        destruct (register nullptr T h s0) as [t [[r s1]|x]]; simpl in *; [|done].
        revert Hd'; intros [= _ <-]. unfold cm_wf. by rewrite (Hreg _ _ eq_refl).
      * rewrite AddHandler_sender_register, bind_run in Hd'.
        pose proof (register_collectionMap address_of_parameter T h s0) as Hreg.
        destruct (register address_of_parameter T h s0) as [t [[r s1]|x]];
          simpl in *; [|done].
        revert Hd'; intros [= _ <-]. unfold cm_wf. by rewrite (Hreg _ _ eq_refl).
      * pose proof (removeHandler_shrinks _ _ _ _ Hd') as Hsh.
        unfold cm_wf. by rewrite (shrinks_collectionMap _ _ Hsh).
      * destruct (FireEvent_frame _ _ _ _ Hd') as (Heq & _).
        unfold cm_wf. by rewrite Heq.
      * revert Hd'; intros [= _ <-]. by apply (Add_cm_wf d s0).
      * revert Hd'; intros [= _ <-]. by apply (Add_cm_wf (descriptor_of base_of T cb p) s0).
      * revert Hd'; intros [= _ <-].
        by apply (Add_cm_wf (descriptor_of base_of T cb (λ _, true)) s0).
      * by apply Publish_state in Hd' as ->.
      * revert Hd'; intros [= _ <-]. destruct Hcm0 as [Hnd Hlt]. split; simpl.
        -- by apply NoDup_fst_filter.
        -- apply Forall_forall. intros entry [_ Hin]%list_elem_of_filter.
           rewrite Forall_forall in Hlt. by apply Hlt.
  - by apply Forall_forall.
  - split; by apply (bool_decide_unpack _); vm_compute.
  - by apply (Hfin u s).
Qed.

End Calls.

(** * The properties of the specification *)

(** C1, type isolation.  Whatever the state, [FireEvent] calls only
    handlers of registrations held in the collection of the event's own
    type key.  And once a handler is registered for the type [A], by either
    overload of [AddHandler], nothing a client does afterwards delivers an
    event of another type through that registration. *)
Theorem type_isolation dispatch base_of :
  (∀ s e, Forall (from_collection s (collection s (typeid e)) e)
            (FireEvent dispatch e s).1) ∧
  (∀ s A h snd m calls,
     wf s → m = AddHandler A h ∨ m = AddHandler_sender A h snd →
     ∃ r s1, m s = ([], Done (r, s1)) ∧
       Forall (λ o, ∀ a e, o = Handled r a e → typeid e = A)
         (run_calls dispatch base_of calls s1).1).
Proof.
  split.
  - intros s e. eapply Forall_impl; [exact (FireEvent_only dispatch e s)|].
    intros o (L & nodes & Hk & HL & Ho). unfold collection. by rewrite Hk, HL.
  - intros s A h snd m calls Hwf Hm.
    assert (∃ snd', m = register snd' A h) as [snd' ->].
    { destruct Hm as [-> | ->]; eauto. }
    destruct (register_added snd' A h s Hwf) as (r & s1 & Hrun & Hadd).
    exists r, s1. split; [done|].
    assert (Hfor : registered_for s1 r A).
    { destruct (added_entry _ _ _ _ _ _ Hadd) as (L & HA & _ & Hr).
      eexists. split; [exact Hr|exact HA]. }
    apply (run_calls_invariant dispatch base_of
             (λ s, wf s ∧ registered_for s r A) _ (λ _, True)).
    + intros c s0 _ [Hwf0 Hfor0]. split; [by apply run_call_isolated|].
      intros u s' Hd. pose proof (run_call_change _ _ _ _ _ _ Hwf0 Hd) as Hch.
      split; [by eapply change_wf|by eapply change_registered_for].
    + apply Forall_forall. done.
    + split; [apply Hadd|done].
Qed.

Lemma type_isolation_witness :
  wf new_EventBus ∧
  ∃ r s1, AddHandler 1 10 new_EventBus = ([], Done (r, s1)) ∧
    Forall (λ o, ∀ a e, o = Handled r a e → typeid e = 1)
      (run_calls (λ _ _, []) (λ _ _, false)
         [do_AddHandler 2 20; do_FireEvent {| typeid := 2; payload := 0 |};
          do_FireEvent {| typeid := 1; payload := 0 |}] s1).1.
Proof.
  split; [by apply (bool_decide_unpack _); vm_compute|].
  apply (proj2 (type_isolation _ _) new_EventBus 1 10 nullptr).
  - by apply (bool_decide_unpack _); vm_compute.
  - by left.
Defined.

(** C2, registration-order dispatch.  When the handlers of a collection do
    not call back into the bus, [FireEvent] calls every one of them, in
    the order of the collection.  Three handlers registered one after the
    other for the same type come last in its collection, in that order,
    and an event of the type is given to them in that order, after the
    handlers that were registered before.  The collection is in
    registration order: [AddHandler] puts the new registration at its end,
    [removeHandler] takes one out and leaves the order of the others. *)
Theorem registration_order dispatch :
  (∀ s e, wf s → quiet dispatch s e (collection s (typeid e)) →
     ∃ s', FireEvent dispatch e s =
             (calls_in_order s e (collection s (typeid e)), Done ((), s')) ∧
           length (calls_in_order s e (collection s (typeid e))) =
             length (collection s (typeid e))) ∧
  (∀ s e h1 h2 h3,
     wf s → quiet dispatch s e (collection s (typeid e)) →
     dispatch h1 e = [] → dispatch h2 e = [] → dispatch h3 e = [] →
     ∃ r1 r2 r3 s3 s',
       (r1 ← AddHandler (typeid e) h1; r2 ← AddHandler (typeid e) h2;
        r3 ← AddHandler (typeid e) h3; mret (r1, r2, r3)) s
       = ([], Done ((r1, r2, r3), s3)) ∧
       FireEvent dispatch e s3 =
         (calls_in_order s e (collection s (typeid e)) ++
            [Handled r1 h1 e; Handled r2 h2 e; Handled r3 h3 e],
          Done ((), s'))) ∧
  (∀ s T h, wf s →
     ∃ r s1 n, AddHandler T h s = ([], Done (r, s1)) ∧
               collection s1 T = collection s T ++ [(n, r)] ∧
               handler_of s1 r = Some h) ∧
  (∀ s r T, wf s → is_Some (regs s !! r) →
     ∃ s1, removeHandler r s = ([], Done ((), s1)) ∧
           collection s1 T = filter (λ nd : N * N, nd.2 ≠ r) (collection s T)).
Proof.
  split; [intros s e; apply FireEvent_quiet|]. split; [|split].
  - intros s e h1 h2 h3 Hwf Hq H1 H2 H3.
    destruct (register_added nullptr (typeid e) h1 s Hwf) as (r1 & s1 & Hrun1 & Hadd1).
    pose proof (added_wf _ _ _ _ _ _ Hadd1) as Hwf1.
    destruct (register_added nullptr (typeid e) h2 s1 Hwf1) as (r2 & s2 & Hrun2 & Hadd2).
    pose proof (added_wf _ _ _ _ _ _ Hadd2) as Hwf2.
    destruct (register_added nullptr (typeid e) h3 s2 Hwf2) as (r3 & s3 & Hrun3 & Hadd3).
    pose proof (added_wf _ _ _ _ _ _ Hadd3) as Hwf3.
    pose proof (added_quiet dispatch _ _ _ _ _ _ e Hwf Hadd1 Hq H1) as Hq1.
    pose proof (added_quiet dispatch _ _ _ _ _ _ e Hwf1 Hadd2 Hq1 H2) as Hq2.
    pose proof (added_quiet dispatch _ _ _ _ _ _ e Hwf2 Hadd3 Hq2 H3) as Hq3.
    destruct (FireEvent_quiet dispatch e s3 Hwf3 Hq3) as (s' & Hfire & _).
    exists r1, r2, r3, s3, s'. split.
    + rewrite !AddHandler_register.
      rewrite (bind_Done _ _ _ _ _ _ Hrun1). simpl.
      rewrite (bind_Done _ _ _ _ _ _ Hrun2). simpl.
      by rewrite (bind_Done _ _ _ _ _ _ Hrun3).
    + rewrite Hfire. f_equal.
      rewrite (added_calls_in_order _ _ _ _ _ _ e Hwf2 Hadd3).
      rewrite (added_calls_in_order _ _ _ _ _ _ e Hwf1 Hadd2).
      rewrite (added_calls_in_order _ _ _ _ _ _ e Hwf Hadd1).
      by rewrite <-!app_assoc.
  - intros s T h Hwf.
    destruct (register_added nullptr T h s Hwf) as (r & s1 & Hrun & Hadd).
    destruct (added_collection _ _ _ _ _ _ Hadd) as [n Hcol].
    exists r, s1, n. split; [done|]. split; [done|].
    by apply (added_handler_of_new _ _ _ _ _ _ Hadd).
  - intros s r T Hwf Hr.
    destruct (removeHandler_removed r s Hwf Hr) as (s1 & Hrun & Hrm).
    exists s1. split; [done|]. rewrite (removed_collection _ _ _ T Hrm).
    apply filter_agree. intros nd _. set_solver.
Qed.

Lemma registration_order_witness :
  let e := {| typeid := 7; payload := 0 |} in
  let s := exec (AddHandler 7 99) new_EventBus in
  wf s ∧ quiet (λ _ _, []) s e (collection s (typeid e)) ∧
  ∃ r1 r2 r3 s3 s',
    (r1 ← AddHandler 7 100; r2 ← AddHandler 7 101;
     r3 ← AddHandler 7 102; mret (r1, r2, r3)) s
    = ([], Done ((r1, r2, r3), s3)) ∧
    FireEvent (λ _ _, []) e s3 =
      (calls_in_order s e (collection s (typeid e)) ++
         [Handled r1 100 e; Handled r2 101 e; Handled r3 102 e],
       Done ((), s')).
Proof.
  intros e s.
  assert (Hwf : wf s) by (by apply (bool_decide_unpack _); vm_compute).
  assert (Hq : quiet (λ _ _, []) s e (collection s (typeid e))).
  { apply Forall_forall. done. }
  split; [done|]. split; [done|].
  exact (proj1 (proj2 (registration_order (λ _ _, []))) s e 100 101 102 Hwf Hq
           eq_refl eq_refl eq_refl).
Defined.

(** C3 as stated fails.  Two handlers are registered for the type 7; the
    first one revokes, when called, the registration it is called through.
    [FireEvent] calls it, the node under the loop's iterator is erased, and
    the increment is undefined: the call does not return normally, and the
    second handler, which had not been visited, has not been called. *)
Lemma self_removal_undefined :
  let dispatch := λ (h : N) (_ : RoutedEvent),
                    if decide (h = 100) then [call_removeHandler 2] else [] in
  let e := {| typeid := 7; payload := 0 |} in
  let s := exec (AddHandler 7 100;; AddHandler 7 101) new_EventBus in
  wf s ∧ collection s 7 = [(3, 2); (5, 4)] ∧
  handler_of s 2 = Some 100 ∧ handler_of s 4 = Some 101 ∧
  FireEvent dispatch e s = ([Handled 2 100 e], Stop UndefinedBehaviour) ∧
  ¬ ∃ t s', FireEvent dispatch e s = (t, Done ((), s')) ∧ Handled 4 101 e ∈ t.
Proof.
  intros dispatch e s.
  assert (Hfire : FireEvent dispatch e s = ([Handled 2 100 e], Stop UndefinedBehaviour))
    by (by vm_compute).
  split; [by apply (bool_decide_unpack _); vm_compute|].
  do 3 (split; [by vm_compute|]). split; [done|].
  intros (t & s' & Heq & _). rewrite Hfire in Heq. done.
Qed.

(** C3, amended: revoking other registrations during dispatch.  The
    handlers are those of [dispatch]: a handler, while it is called, does
    nothing to the bus but revoke registrations, and it returns; handlers
    that fire or register from inside a dispatch are not covered.  When
    every handler that [FireEvent] calls revokes only registrations that
    exist, and not the one it is called through, then: [FireEvent] returns
    normally and leaves a well-formed bus; its calls go to handlers of the
    collection, in the order of the collection; a registration of the
    collection is called when no handler called through a registration in
    front of it has revoked it; once a handler has been called, the
    registrations it revoked are not called; and afterwards the
    registrations revoked by the handlers that were called are revoked and
    out of their collections, the other registrations are where they were.
    Nothing is asked of a handler the pass does not call.  When a handler
    that [FireEvent] calls revokes the registration it is called through,
    the behaviour of [FireEvent] is undefined. *)
Theorem removal_during_dispatch dispatch s e :
  wf s →
  (Forall (courteous dispatch s) (FireEvent dispatch e s).1 →
   ∃ s', (FireEvent dispatch e s).2 = Done ((), s') ∧ wf s' ∧
     (FireEvent dispatch e s).1 `sublist_of`
       calls_in_order s e (collection s (typeid e)) ∧
     (∀ pre n r post,
        collection s (typeid e) = pre ++ (n, r) :: post →
        (∀ r' a', r' ∈ pre.*2 → Handled r' a' e ∈ (FireEvent dispatch e s).1 →
                  r ∉ targets (dispatch a' e)) →
        ∃ a, handler_of s r = Some a ∧ Handled r a e ∈ (FireEvent dispatch e s).1) ∧
     (∀ t1 r a t2 x,
        (FireEvent dispatch e s).1 = t1 ++ Handled r a e :: t2 →
        x ∈ targets (dispatch a e) → Forall (λ o, ¬ handled_through x o) t2) ∧
     (∀ x, x ∈ revoked_by dispatch (FireEvent dispatch e s).1 → revoked s' x) ∧
     (∀ T, collection s' T =
           filter (λ nd : N * N, nd.2 ∉ revoked_by dispatch (FireEvent dispatch e s).1)
             (collection s T))) ∧
  (∀ r a, Handled r a e ∈ (FireEvent dispatch e s).1 → r ∈ targets (dispatch a e) →
     (FireEvent dispatch e s).2 = Stop UndefinedBehaviour).
Proof.
  intros Hwf. split.
  - intros Hpol.
    destruct (FireEvent_courteous dispatch e s Hwf Hpol)
      as (s0 & s' & Hfire & Hwf' & Hrm & Hregs & Hcol).
    rewrite Hfire in Hpol |- *. simpl in Hpol |- *.
    exists s'. split; [done|]. split; [done|]. split; [apply pass_sublist|].
    split; [|split; [|split]].
    + intros pre n r post Hsplit Hnot.
      pose proof (collection_handler_of s (typeid e) Hwf) as Hall.
      rewrite Hsplit in Hnot, Hall |- *. by apply pass_reaches.
    + intros t1 r a t2 x Htr Hx. by eapply pass_after.
    + intros x Hx. eapply removed_revoked; [exact Hrm|done|]. rewrite Hregs.
      apply revoked_by_elem in Hx as (r & a & e' & Ho & Hx).
      rewrite Forall_forall in Hpol. specialize (Hpol _ Ho). simpl in Hpol.
      rewrite Forall_forall in Hpol. by destruct (Hpol _ Hx).
    + intros T. by rewrite (removed_collection _ _ _ T Hrm), Hcol.
  - intros r a Hin Hself.
    destruct (FireEvent_outcome dispatch e s Hwf)
      as [Hall|(t & r0 & a0 & _ & _ & _ & Hstop)]; [|done].
    rewrite Forall_forall in Hall. specialize (Hall _ Hin). simpl in Hall.
    rewrite Forall_forall in Hall. by destruct (Hall _ Hself).
Qed.

Lemma removal_during_dispatch_witness :
  let dispatch := λ (h : N) (_ : RoutedEvent),
                    if decide (h = 100) then [call_removeHandler 4]
                    else if decide (h = 101) then [call_removeHandler 4; call_removeHandler 6]
                    else [] in
  let e := {| typeid := 7; payload := 0 |} in
  let s := exec (AddHandler 7 100;; AddHandler 7 101;; AddHandler 7 102) new_EventBus in
  wf s ∧ (FireEvent dispatch e s).1 = [Handled 2 100 e; Handled 6 102 e] ∧
  Forall (courteous dispatch s) (FireEvent dispatch e s).1 ∧
  ∃ s', (FireEvent dispatch e s).2 = Done ((), s') ∧ wf s' ∧
    (FireEvent dispatch e s).1 `sublist_of`
      calls_in_order s e (collection s (typeid e)) ∧
    (∀ pre n r post,
       collection s (typeid e) = pre ++ (n, r) :: post →
       (∀ r' a', r' ∈ pre.*2 → Handled r' a' e ∈ (FireEvent dispatch e s).1 →
                 r ∉ targets (dispatch a' e)) →
       ∃ a, handler_of s r = Some a ∧ Handled r a e ∈ (FireEvent dispatch e s).1) ∧
    (∀ t1 r a t2 x,
       (FireEvent dispatch e s).1 = t1 ++ Handled r a e :: t2 →
       x ∈ targets (dispatch a e) → Forall (λ o, ¬ handled_through x o) t2) ∧
    (∀ x, x ∈ revoked_by dispatch (FireEvent dispatch e s).1 → revoked s' x) ∧
    (∀ T, collection s' T =
          filter (λ nd : N * N, nd.2 ∉ revoked_by dispatch (FireEvent dispatch e s).1)
            (collection s T)).
Proof.
  intros dispatch e s.
  assert (Hwf : wf s) by (by apply (bool_decide_unpack _); vm_compute).
  assert (Htr : (FireEvent dispatch e s).1 = [Handled 2 100 e; Handled 6 102 e])
    by (by vm_compute).
  assert (Hpol : Forall (courteous dispatch s) (FireEvent dispatch e s).1).
  { apply (bool_decide_unpack _). by vm_compute. }
  split; [done|]. split; [done|]. split; [done|].
  exact (proj1 (removal_during_dispatch dispatch s e Hwf) Hpol).
Defined.

(** C4, firing without subscribers.  When the event's type has no list, a
    null entry, or an empty list, [FireEvent] returns without calling any
    handler; a handler registered for the type afterwards is what the next
    [FireEvent] of the type calls, and that [FireEvent] returns when the
    handler does not call back into the bus.  The empty list is what is
    left when the only handler of a type has been revoked. *)
Theorem no_subscriber_noop dispatch :
  (∀ s e, wf s → no_subscribers s (typeid e) →
     ∃ s0, FireEvent dispatch e s = ([], Done ((), s0)) ∧
       ∀ h, ∃ r s1,
         AddHandler (typeid e) h s0 = ([], Done (r, s1)) ∧
         (FireEvent dispatch e s1).1 = [Handled r h e] ∧
         (dispatch h e = [] →
          ∃ s2, FireEvent dispatch e s1 = ([Handled r h e], Done ((), s2)))) ∧
  (∀ s T h0, wf s → no_subscribers s T →
     ∃ r0 s1 s2 L,
       AddHandler T h0 s = ([], Done (r0, s1)) ∧
       removeHandler r0 s1 = ([], Done ((), s2)) ∧
       wf s2 ∧ handlers s2 !! T = Some (Some L) ∧ lists s2 !! L = Some []).
Proof.
  split.
  - intros s e Hwf Hno.
    destruct (FireEvent_no_subscribers dispatch e s Hwf Hno) as (s0 & Hfire & Hwf0 & Hno0).
    exists s0. split; [done|]. intros h.
    destruct (register_added nullptr (typeid e) h s0 Hwf0) as (r & s1 & Hrun & Hadd).
    pose proof (no_subscribers_collection _ _ Hno0) as Hcol0.
    exists r, s1. split; [done|]. split.
    + destruct (added_entry _ _ _ _ _ _ Hadd) as (L & HT & HL & _).
      destruct (added_collection _ _ _ _ _ _ Hadd) as [n Hcol].
      rewrite Hcol0 in Hcol. rewrite Hcol in HL.
      apply (FireEvent_single dispatch e L n r h s1 HT HL).
      by apply (added_handler_of_new _ _ _ _ _ _ Hadd).
    + intros Hh.
      assert (Hq0 : quiet dispatch s0 e (collection s0 (typeid e))).
      { rewrite Hcol0. constructor. }
      pose proof (added_quiet dispatch _ _ _ _ _ _ e Hwf0 Hadd Hq0 Hh) as Hq1.
      destruct (FireEvent_quiet dispatch e s1 (added_wf _ _ _ _ _ _ Hadd) Hq1)
        as (s2 & Hfire1 & _).
      exists s2. rewrite Hfire1. f_equal.
      by rewrite (added_calls_in_order _ _ _ _ _ _ e Hwf0 Hadd), Hcol0.
  - intros s T h0 Hwf Hno.
    destruct (register_added nullptr T h0 s Hwf) as (r0 & s1 & Hrun & Hadd).
    pose proof (added_wf _ _ _ _ _ _ Hadd) as Hwf1.
    destruct (added_entry _ _ _ _ _ _ Hadd) as (L & HT & HL & Hr).
    destruct (added_collection _ _ _ _ _ _ Hadd) as [n Hcol].
    rewrite (no_subscribers_collection _ _ Hno) in Hcol. rewrite Hcol in HL.
    destruct (removeHandler_removed r0 s1 Hwf1) as (s2 & Hrun2 & Hrm); [by rewrite Hr|].
    exists r0, s1, s2, L. split; [done|]. split; [done|].
    split; [by eapply wf_removed|].
    split; [by rewrite (removed_handlers _ _ _ Hrm)|].
    rewrite (removed_lists _ _ _ Hrm), HL. simpl.
    rewrite filter_cons_False; [done|]. simpl. intros Hn. apply Hn. by left.
Qed.

Lemma no_subscriber_noop_witness :
  let e := {| typeid := 7; payload := 0 |} in
  let s := exec (r ← AddHandler 7 99; removeHandler r) new_EventBus in
  wf s ∧ no_subscribers s (typeid e) ∧
  ∃ s0, FireEvent (λ _ _, []) e s = ([], Done ((), s0)) ∧
    ∀ h, ∃ r s1,
      AddHandler (typeid e) h s0 = ([], Done (r, s1)) ∧
      (FireEvent (λ _ _, []) e s1).1 = [Handled r h e] ∧
      ((λ _ _, []) h e = @nil bus_call →
       ∃ s2, FireEvent (λ _ _, []) e s1 = ([Handled r h e], Done ((), s2))).
Proof.
  intros e s.
  assert (Hwf : wf s) by (by apply (bool_decide_unpack _); vm_compute).
  assert (Hno : no_subscribers s (typeid e)).
  { right. exists 1. by vm_compute. }
  split; [done|]. split; [done|].
  exact (proj1 (no_subscriber_noop (λ _ _, [])) s e Hwf Hno).
Defined.

(** C5, idempotent revocation.  The first [removeHandler] on a registration
    takes it out of every list; calling it again, any number of times,
    changes nothing and calls nothing; and whatever a client does
    afterwards, no event is delivered through the registration again. *)
Theorem idempotent_revocation dispatch base_of s r :
  wf s → is_Some (regs s !! r) →
  ∃ s1, removeHandler r s = ([], Done ((), s1)) ∧
    (∀ L nodes, lists s1 !! L = Some nodes → r ∉ nodes.*2) ∧
    (∀ k, run_calls dispatch base_of (replicate k (do_removeHandler r)) s1 =
          ([], Done ((), s1))) ∧
    (∀ calls, Forall (λ o, ¬ handled_through r o)
                (run_calls dispatch base_of calls s1).1).
Proof.
  intros Hwf Hr. destruct (removeHandler_removed r s Hwf Hr) as (s1 & Hrun & Hrm).
  assert (Hin : r ∈ [r]) by set_solver.
  pose proof (removed_revoked _ _ _ _ Hrm Hin Hr) as Hrev.
  exists s1. split; [done|]. split; [|split].
  - intros L nodes. by apply (removed_absent _ _ _ _ _ _ Hrm).
  - induction k as [|k IH]; [done|]. simpl.
    by rewrite (bind_Done _ _ _ _ _ _ (removeHandler_again r s1 Hrev)), IH.
  - intros calls.
    apply (run_calls_invariant dispatch base_of (λ s, wf s ∧ revoked s r) _ (λ _, True)).
    + intros c s0 _ [Hwf0 Hrev0]. split; [by apply run_call_revoked|].
      intros u s' Hd. pose proof (run_call_change _ _ _ _ _ _ Hwf0 Hd) as Hch.
      split; [by eapply change_wf|by eapply change_revoked].
    + by apply Forall_forall.
    + split; [by eapply wf_removed|done].
Qed.

Lemma idempotent_revocation_witness :
  let s := exec (AddHandler 7 100;; AddHandler 7 101) new_EventBus in
  let e := {| typeid := 7; payload := 0 |} in
  wf s ∧ is_Some (regs s !! 2) ∧
  ∃ s1, removeHandler 2 s = ([], Done ((), s1)) ∧
    (∀ L nodes, lists s1 !! L = Some nodes → 2 ∉ nodes.*2) ∧
    (∀ k, run_calls (λ _ _, []) (λ _ _, false) (replicate k (do_removeHandler 2)) s1 =
          ([], Done ((), s1))) ∧
    (∀ calls, Forall (λ o, ¬ handled_through 2 o)
                (run_calls (λ _ _, []) (λ _ _, false) calls s1).1).
Proof.
  intros s e.
  assert (Hwf : wf s) by (by apply (bool_decide_unpack _); vm_compute).
  assert (Hr : is_Some (regs s !! 2)) by (by vm_compute; eauto).
  split; [done|]. split; [done|].
  exact (idempotent_revocation _ _ s 2 Hwf Hr).
Defined.

(** C6, sender-blind dispatch.  [FireEvent] takes the event only, so who
    fires it is nothing the call could look at, and it does not look at
    the senders stored with the registrations.  With the stored senders
    replaced in any way it makes the same calls to the same handlers and
    ends in the same state, senders apart; two states that differ in their
    senders only give it the same calls to make; a handler registered with
    a sender is called as the same handler registered without.  And the
    handlers are called: whatever senders are stored, [FireEvent] calls the
    handler of every registration in the collection of the event's type, in
    the order of the collection, and a handler registered with
    [AddHandler(handler, sender)] is called, after the handlers registered
    before it, for every sender (the handlers of the type do not call back
    into the bus).  When handlers revoke registrations other than the one
    they are called through, a registration that no handler called
    through a registration in front of it has revoked is called, again
    whatever senders are stored. *)
Theorem sender_blind_dispatch dispatch :
  (∀ f e s,
     FireEvent dispatch e (with_senders f s) =
       ((FireEvent dispatch e s).1,
        outcome_with_senders f (FireEvent dispatch e s).2)) ∧
  (∀ e s s',
     with_senders (λ _, nullptr) s = with_senders (λ _, nullptr) s' →
     (FireEvent dispatch e s).1 = (FireEvent dispatch e s').1) ∧
  (∀ s T h snd,
     wf s →
     ∃ r s1 s1',
       AddHandler_sender T h snd s = ([], Done (r, s1)) ∧
       AddHandler T h s = ([], Done (r, s1')) ∧
       ∀ e, (FireEvent dispatch e s1).1 = (FireEvent dispatch e s1').1) ∧
  (∀ f e s,
     wf s → quiet dispatch s e (collection s (typeid e)) →
     (FireEvent dispatch e (with_senders f s)).1 =
       calls_in_order s e (collection s (typeid e)) ∧
     ∀ r, r ∈ (collection s (typeid e)).*2 →
       ∃ a, handler_of s r = Some a ∧
            Handled r a e ∈ (FireEvent dispatch e (with_senders f s)).1) ∧
  (∀ s e h,
     wf s → quiet dispatch s e (collection s (typeid e)) → dispatch h e = [] →
     ∃ r s1,
       (∀ snd, AddHandler_sender (typeid e) h snd s = ([], Done (r, s1))) ∧
       (FireEvent dispatch e s1).1 =
         calls_in_order s e (collection s (typeid e)) ++ [Handled r h e]) ∧
  (∀ f e s,
     wf s → Forall (courteous dispatch s) (FireEvent dispatch e s).1 →
     ∀ pre n r post,
       collection s (typeid e) = pre ++ (n, r) :: post →
       (∀ r' a', r' ∈ pre.*2 → Handled r' a' e ∈ (FireEvent dispatch e s).1 →
                 r ∉ targets (dispatch a' e)) →
       ∃ a, handler_of s r = Some a ∧
            Handled r a e ∈ (FireEvent dispatch e (with_senders f s)).1).
Proof.
  split; [|split; [|split; [|split; [|split]]]].
  - intros f e. apply blind_FireEvent.
  - intros e s s'. apply FireEvent_same_calls.
  - intros s T h snd Hwf. destruct (prepared_entry T s Hwf) as (L & HT & HL).
    eexists _, _, _.
    split; [by apply (register_run address_of_parameter T h s L)|].
    split; [by apply (register_run nullptr T h s L)|].
    intros e. apply FireEvent_same_calls, with_new_registration_senders.
  - intros f e s Hwf Hq.
    destruct (FireEvent_quiet dispatch e s Hwf Hq) as (s' & Hfire & _).
    rewrite (blind_FireEvent dispatch f e s), Hfire. simpl. split; [done|].
    intros r Hr. by apply calls_in_order_all.
  - intros s e h Hwf Hq Hh.
    destruct (register_added address_of_parameter (typeid e) h s Hwf)
      as (r & s1 & Hrun & Hadd).
    exists r, s1. split; [by intros snd; rewrite (AddHandler_sender_register _ _ snd)|].
    pose proof (added_quiet dispatch _ _ _ _ _ _ e Hwf Hadd Hq Hh) as Hq1.
    destruct (FireEvent_quiet dispatch e s1 (added_wf _ _ _ _ _ _ Hadd) Hq1)
      as (s' & Hfire & _).
    rewrite Hfire. simpl. exact (added_calls_in_order _ _ _ _ _ _ e Hwf Hadd).
  - intros f e s Hwf Hpol pre n r post Hsplit Hnot.
    rewrite (blind_FireEvent dispatch f e s). simpl.
    destruct (FireEvent_courteous dispatch e s Hwf Hpol) as (s0 & s' & Hfire & _).
    rewrite Hfire in Hnot |- *. simpl in Hnot |- *.
    pose proof (collection_handler_of s (typeid e) Hwf) as Hall.
    rewrite Hsplit in Hnot, Hall |- *. by apply pass_reaches.
Qed.

Lemma sender_blind_dispatch_witness :
  let dispatch := λ (_ : N) (_ : RoutedEvent), @nil bus_call in
  let e := {| typeid := 7; payload := 0 |} in
  let f := λ r : loc, object (r + 1000) in
  let s := exec (AddHandler_sender 7 100 (object 55);; AddHandler 7 101;;
                 AddHandler_sender 7 102 nullptr) new_EventBus in
  wf s ∧ quiet dispatch s e (collection s (typeid e)) ∧
  (FireEvent dispatch e (with_senders f s)).1 =
    calls_in_order s e (collection s (typeid e)) ∧
  ∀ r, r ∈ (collection s (typeid e)).*2 →
    ∃ a, handler_of s r = Some a ∧
         Handled r a e ∈ (FireEvent dispatch e (with_senders f s)).1.
Proof.
  intros dispatch e f s.
  assert (Hwf : wf s) by (by apply (bool_decide_unpack _); vm_compute).
  assert (Hq : quiet dispatch s e (collection s (typeid e))).
  { apply Forall_forall. done. }
  split; [done|]. split; [done|].
  exact (proj1 (proj2 (proj2 (proj2 (sender_blind_dispatch dispatch)))) f e s Hwf Hq).
Defined.

(** C7, on the failing input.  The handler at 100 is registered for the
    type 7 with the sender object at 55; [getSender] on the registration
    does not give back that object but the address of [AddHandler]'s own
    parameter. *)
Theorem getSender_after_AddHandler_sender :
  (r ← AddHandler_sender 7 100 (object 55); getSender r) new_EventBus
  = ([], Done (address_of_parameter,
               exec (AddHandler_sender 7 100 (object 55)) new_EventBus)).
Proof. by vm_compute. Qed.



(** C9, the overload of [Subscribe] without a predicate.  It is the
    operation of the specification with the predicate left out, as the
    overload with a predicate is that operation with the predicate given;
    in every program it can be replaced by [Subscribe] with the predicate
    that is always true; and its subscription, as long as it is not
    cancelled, receives every published event of its type exactly once. *)
Theorem Subscribe_handler_always_true dispatch base_of T cb :
  Subscribe_handler base_of T cb = Subscribe_as_specified base_of T cb None ∧
  (∀ p, Subscribe base_of T cb p = Subscribe_as_specified base_of T cb (Some p)) ∧
  (∀ A (k : N → M A) s,
     (Subscribe_handler base_of T cb ≫= k) s =
     (Subscribe base_of T cb (λ _, true) ≫= k) s) ∧
  (∀ s, cm_wf s →
     ∃ sub s1,
       Subscribe_handler base_of T cb s = ([], Done (sub, s1)) ∧
       Subscribe base_of T cb (λ _, true) s = ([], Done (sub, s1)) ∧
       ∀ calls u s2 e,
         Forall (λ c, ¬ cancels sub c) calls →
         (run_calls dispatch base_of calls s1).2 = Done (u, s2) →
         typeid e = T → calm e s2 →
         ∃ t, Publish e s2 = (t, Done ((), s2)) ∧
              filter (delivered_for sub) t = [Delivered sub cb e]).
Proof.
  split; [done|]. split; [done|]. split; [done|].
  intros s Hcm.
  destruct (Subscribe_stays dispatch base_of T cb (λ _, true) s Hcm)
    as (sub & s1 & Hrun & Hstay).
  exists sub, s1. split; [exact Hrun|]. split; [exact Hrun|].
  intros calls u s2 e Hcalls Hd HT Hcalm.
  destruct (Hstay calls u s2 Hcalls Hd) as [Hcm2 Hsub2].
  destruct (Publish_subscribed e sub _ s2 Hcm2 Hsub2) as (t & Hpub & Ht).
  - simpl. by rewrite HT.
  - exact Hcalm.
  - exists t. split; [exact Hpub|].
    rewrite Ht. by rewrite (notified_descriptor_of base_of e sub T cb (λ _, true) HT).
Qed.

Lemma Subscribe_handler_always_true_witness :
  let e := {| typeid := 1; payload := 3 |} in
  cm_wf new_EventBus ∧
  ∃ sub s1,
    Subscribe_handler (λ _ _, false) 1 7 new_EventBus = ([], Done (sub, s1)) ∧
    Subscribe (λ _ _, false) 1 7 (λ _, true) new_EventBus = ([], Done (sub, s1)) ∧
    ∃ t, Publish e s1 = (t, Done ((), s1)) ∧
         filter (delivered_for sub) t = [Delivered sub 7 e].
Proof.
  intros e.
  assert (Hcm : cm_wf new_EventBus) by (by apply (bool_decide_unpack _); vm_compute).
  split; [done|].
  destruct (proj2 (proj2 (proj2
              (Subscribe_handler_always_true (λ _ _, []) (λ _ _, false) 1 7)))
              new_EventBus Hcm)
    as (sub & s1 & Hrun & Hrun' & Hlater).
  exists sub, s1. split; [done|]. split; [done|].
  injection Hrun as <- <-.
  apply (Hlater [] () _ e); [constructor|done|done|].
  apply (bool_decide_unpack _). by vm_compute.
Defined.

(** C10, firing an event of a type without handlers.  When the type map
    has no list for the event's type, [FireEvent] returns after giving the
    type map a null entry for that key and touching nothing else, so the
    state changes when the key was missing.  In every case, [FireEvent]
    leaves the descriptor store and [_map] as they were and keeps every
    entry the type map had.  A type has no list as long as no [AddHandler]
    was called for it. *)
Theorem FireEvent_unknown_type dispatch base_of :
  (∀ s e, unknown_type s (typeid e) →
     FireEvent dispatch e s =
       ([], Done ((), set_handlers (insert (typeid e) None) s))) ∧
  (∀ s e, handlers s !! typeid e = None →
     handlers (set_handlers (insert (typeid e) None) s) !! typeid e = Some None ∧
     set_handlers (insert (typeid e) None) s ≠ s) ∧
  (∀ s e u s', (FireEvent dispatch e s).2 = Done (u, s') →
     _collectionMap s' = _collectionMap s ∧ _map s' = _map s ∧
     ∀ k p, handlers s !! k = Some p → handlers s' !! k = Some p) ∧
  (∀ T calls u s,
     Forall (λ c, ¬ registers_for T c) calls →
     (run_calls dispatch base_of calls new_EventBus).2 = Done (u, s) →
     unknown_type s T).
Proof.
  split; [|split; [|split]].
  - intros s e. apply FireEvent_unknown.
  - intros s e Hk. simpl. rewrite lookup_insert_eq. split; [done|].
    intros Heq. apply (f_equal (λ s, handlers s !! typeid e)) in Heq. simpl in Heq.
    rewrite lookup_insert_eq in Heq. congruence.
  - intros s e. apply FireEvent_frame.
  - intros T calls u s Hcalls Hd.
    destruct (run_calls_invariant dispatch base_of
                (λ s, wf s ∧ unknown_type s T) (λ _, True)
                (λ c, ¬ registers_for T c)) with (cs := calls) (s := new_EventBus)
      as [_ Hfin].
    + intros c s0 Hc [Hwf0 Hun0]. split; [by apply Forall_forall|].
      intros u' s' Hd'. split.
      * eapply change_wf; [done|]. by eapply run_call_change.
      * by eapply run_call_unknown_type.
    + done.
    + split; [by apply (bool_decide_unpack _); vm_compute|by left].
    + by destruct (Hfin _ _ Hd).
Qed.

Lemma FireEvent_unknown_type_witness :
  let e := {| typeid := 3; payload := 0 |} in
  unknown_type new_EventBus (typeid e) ∧
  FireEvent (λ _ _, []) e new_EventBus =
    ([], Done ((), set_handlers (insert (typeid e) None) new_EventBus)).
Proof.
  intros e. assert (Hun : unknown_type new_EventBus (typeid e)) by (by left).
  split; [done|].
  exact (proj1 (FireEvent_unknown_type (λ _ _, []) (λ _ _, false)) new_EventBus e Hun).
Defined.

(** * Further properties of the code *)

(** X1, the invariant of the bus.  A new bus is well formed and tidy, and
    so is every state in which a client program returns when it was started
    in such a state: list nodes are distinct, every pointer held in a list
    is a registration that is registered and owned by that list, no list
    holds a registration twice, every registration has a handler and a live
    list, and different types have different lists. *)
Theorem bus_invariant dispatch base_of :
  (wf new_EventBus ∧ tidy new_EventBus) ∧
  ∀ calls s u s', wf s → tidy s →
    (run_calls dispatch base_of calls s).2 = Done (u, s') → wf s' ∧ tidy s'.
Proof.
  split.
  - split; [by apply (bool_decide_unpack _); vm_compute|]. apply map_Forall_empty.
  - intros calls s u s' Hwf Ht Hd.
    destruct (run_calls_invariant dispatch base_of (λ s0, wf s0 ∧ tidy s0)
                (λ _, True) (λ _, True))
      with (cs := calls) (s := s) as [_ Hfin].
    + intros c s0 _ [Hwf0 Ht0]. split; [by apply Forall_forall|]. intros u' s1 Hd1.
      split; [|by eapply run_call_tidy].
      eapply change_wf; [done|]. by eapply run_call_change.
    + by apply Forall_forall.
    + done.
    + by eapply Hfin.
Qed.

Lemma bus_invariant_witness :
  let dispatch := λ (h : N) (_ : RoutedEvent),
                    if decide (h = 100) then [call_removeHandler 4] else [] in
  let e := {| typeid := 7; payload := 0 |} in
  let calls := [do_AddHandler 7 100; do_AddHandler 7 101; do_AddHandler 8 100;
                do_FireEvent e; do_removeHandler 4; do_removeHandler 2] in
  let s' := exec (run_calls dispatch (λ _ _, false) calls) new_EventBus in
  (run_calls dispatch (λ _ _, false) calls new_EventBus).2 = Done ((), s') ∧
  wf s' ∧ tidy s'.
Proof.
  intros dispatch e calls s'.
  assert (Hd : (run_calls dispatch (λ _ _, false) calls new_EventBus).2 = Done ((), s'))
    by (by vm_compute).
  split; [done|].
  destruct (bus_invariant dispatch (λ _ _, false)) as [[Hwf Ht] Hstep].
  exact (Hstep calls new_EventBus () s' Hwf Ht Hd).
Defined.

(** X2, the handler round trip.  [getHandler] on the registration that
    either overload of [AddHandler] returns gives back the address of the
    handler that was passed in, and changes nothing. *)
Theorem getHandler_after_AddHandler s T h snd m :
  wf s → m = AddHandler T h ∨ m = AddHandler_sender T h snd →
  ∃ r s1, m s = ([], Done (r, s1)) ∧ getHandler r s1 = ([], Done (object h, s1)).
Proof.
  intros Hwf Hm.
  assert (Hreg : ∃ p, m = register p T h).
  { destruct Hm as [->| ->]; [by exists nullptr|by exists address_of_parameter]. }
  destruct Hreg as [p ->].
  destruct (register_added p T h s Hwf) as (r & s1 & Hrun & Hadd).
  exists r, s1. split; [done|].
  destruct (added_entry _ _ _ _ _ _ Hadd) as (L & _ & _ & Hr).
  by rewrite (getHandler_run _ _ _ Hr).
Qed.

Lemma getHandler_after_AddHandler_witness :
  let s := exec (AddHandler 7 99) new_EventBus in
  wf s ∧
  ∃ r s1, AddHandler_sender 8 100 (object 55) s = ([], Done (r, s1)) ∧
          getHandler r s1 = ([], Done (object 100, s1)).
Proof.
  intros s.
  assert (Hwf : wf s) by (by apply (bool_decide_unpack _); vm_compute).
  split; [done|].
  exact (getHandler_after_AddHandler s 8 100 (object 55) _ Hwf (or_intror eq_refl)).
Defined.

(** X3, the members of a registration are constant.  Whatever a client
    program does between two calls, revocation of the registration
    included, [getHandler] returns the same handler and [getSender] the
    same sender, and neither call changes the bus. *)
Theorem registration_members_constant dispatch base_of s r calls u s' :
  wf s → is_Some (regs s !! r) →
  (run_calls dispatch base_of calls s).2 = Done (u, s') →
  ∃ a p,
    getHandler r s = ([], Done (object a, s)) ∧
    getHandler r s' = ([], Done (object a, s')) ∧
    getSender r s = ([], Done (p, s)) ∧ getSender r s' = ([], Done (p, s')).
Proof.
  intros Hwf [reg Hr] Hd.
  destruct (run_calls_regs dispatch base_of _ _ _ _ _ _ Hwf Hr Hd)
    as (_ & reg' & Hr' & Hh & _ & Hs & _).
  destruct (wf_regs _ Hwf _ _ Hr) as (_ & _ & Hobj).
  destruct (handler reg) as [|a|] eqn:Ha; try done.
  exists a, (sender reg).
  rewrite (getHandler_run _ _ _ Hr), (getHandler_run _ _ _ Hr'),
    (getSender_run _ _ _ Hr), (getSender_run _ _ _ Hr').
  by rewrite Ha, Hh, Hs.
Qed.

Lemma registration_members_constant_witness :
  let e := {| typeid := 7; payload := 0 |} in
  let s := exec (AddHandler 7 100) new_EventBus in
  let calls := [do_AddHandler 7 101; do_FireEvent e; do_removeHandler 2;
                do_AddHandler 7 102] in
  let s' := exec (run_calls (λ _ _, []) (λ _ _, false) calls) s in
  wf s ∧ is_Some (regs s !! 2) ∧
  ∃ a p,
    getHandler 2 s = ([], Done (object a, s)) ∧
    getHandler 2 s' = ([], Done (object a, s')) ∧
    getSender 2 s = ([], Done (p, s)) ∧ getSender 2 s' = ([], Done (p, s')).
Proof.
  intros e s calls s'.
  assert (Hwf : wf s) by (by apply (bool_decide_unpack _); vm_compute).
  assert (Hr : is_Some (regs s !! 2)) by (by apply (bool_decide_unpack _); vm_compute).
  assert (Hd : (run_calls (λ _ _, []) (λ _ _, false) calls s).2 = Done ((), s'))
    by (by vm_compute).
  split; [done|]. split; [done|].
  exact (registration_members_constant (λ _ _, []) (λ _ _, false) s 2 calls () s'
           Hwf Hr Hd).
Defined.

(** X4, the list of a type is kept.  Once the type map holds a list for a
    type, it holds the same list after every client program: nothing
    erases an entry of the map or replaces a list, and the list stays
    live.  Revoking the only handler of the type leaves the entry with the
    same list, which is then empty, not a null or missing entry. *)
Theorem type_list_is_kept dispatch base_of s T L :
  wf s → handlers s !! T = Some (Some L) →
  (∀ calls u s',
     (run_calls dispatch base_of calls s).2 = Done (u, s') →
     handlers s' !! T = Some (Some L) ∧ is_Some (lists s' !! L)) ∧
  (∀ r, (collection s T).*2 = [r] →
     ∃ s1, removeHandler r s = ([], Done ((), s1)) ∧
           handlers s1 !! T = Some (Some L) ∧ lists s1 !! L = Some []).
Proof.
  intros Hwf HT. split.
  - intros calls u s' Hd.
    destruct (run_calls_handlers dispatch base_of _ _ _ _ _ _ Hwf HT Hd) as [Hwf' HT'].
    split; [done|]. by destruct (wf_handlers _ Hwf' _ _ HT').
  - intros r Hone. destruct (wf_handlers _ Hwf _ _ HT) as [[nodes HL] _].
    rewrite (collection_found _ _ _ _ HT HL) in Hone.
    destruct nodes as [|[n r0] [|nd nodes]]; try done.
    csimpl in Hone. injection Hone as ->.
    destruct (wf_lists _ Hwf _ _ HL) as (_ & _ & Hall).
    apply Forall_singleton in Hall as [_ Hnode]. simpl in Hnode.
    destruct (regs s !! r) as [reg|] eqn:Hr; [|done]. destruct Hnode as [Hown Hon].
    rewrite (removeHandler_run _ _ _ Hr), Hon, Hown, HL.
    eexists. split; [done|]. simpl. split; [done|].
    rewrite lookup_insert_eq. f_equal.
    rewrite filter_cons_False; [done|]. simpl. tauto.
Qed.

Lemma type_list_is_kept_witness :
  let e := {| typeid := 7; payload := 0 |} in
  let s := exec (AddHandler 7 100) new_EventBus in
  wf s ∧ handlers s !! 7 = Some (Some 1) ∧
  (∀ calls u s',
     (run_calls (λ _ _, []) (λ _ _, false) calls s).2 = Done (u, s') →
     handlers s' !! 7 = Some (Some 1) ∧ is_Some (lists s' !! 1)) ∧
  (∀ r, (collection s 7).*2 = [r] →
     ∃ s1, removeHandler r s = ([], Done ((), s1)) ∧
           handlers s1 !! 7 = Some (Some 1) ∧ lists s1 !! 1 = Some []).
Proof.
  intros e s.
  assert (Hwf : wf s) by (by apply (bool_decide_unpack _); vm_compute).
  assert (HT : handlers s !! 7 = Some (Some 1)) by (by vm_compute).
  split; [done|]. split; [done|].
  exact (type_list_is_kept (λ _ _, []) (λ _ _, false) s 7 1 Hwf HT).
Defined.

(** X5, what [AddHandler] leaves alone.  Either overload returns a
    registration that did not exist before, calls no user code, and changes
    nothing but the list of its type: the other registrations, the lists
    and map entries of the other types, the descriptor store and [_map]
    are as they were. *)
Theorem AddHandler_frame s T h snd m :
  wf s → m = AddHandler T h ∨ m = AddHandler_sender T h snd →
  ∃ r s1, m s = ([], Done (r, s1)) ∧
    regs s !! r = None ∧
    (∀ r', r' ≠ r → regs s1 !! r' = regs s !! r') ∧
    (∀ T', T' ≠ T →
       handlers s1 !! T' = handlers s !! T' ∧ collection s1 T' = collection s T') ∧
    _collectionMap s1 = _collectionMap s ∧ _map s1 = _map s.
Proof.
  intros Hwf Hm.
  assert (Hreg : ∃ p, m = register p T h).
  { destruct Hm as [->| ->]; [by exists nullptr|by exists address_of_parameter]. }
  destruct Hreg as [p ->].
  destruct (register_added p T h s Hwf) as (r & s1 & Hrun & Hadd).
  exists r, s1. split; [done|].
  split; [exact (added_fresh _ _ _ _ _ _ Hadd)|].
  split; [exact (added_regs _ _ _ _ _ _ Hadd)|].
  split.
  - intros T' Hne. split.
    + by apply (added_handlers_other _ _ _ _ _ _ Hadd).
    + by apply (added_others _ _ _ _ _ _ Hadd).
  - split; [exact (added_collectionMap _ _ _ _ _ _ Hadd)|
            exact (added_map _ _ _ _ _ _ Hadd)].
Qed.

Lemma AddHandler_frame_witness :
  let s := exec (AddHandler 7 99;; AddHandler 8 98) new_EventBus in
  wf s ∧
  ∃ r s1, AddHandler 7 100 s = ([], Done (r, s1)) ∧
    regs s !! r = None ∧
    (∀ r', r' ≠ r → regs s1 !! r' = regs s !! r') ∧
    (∀ T', T' ≠ 7 →
       handlers s1 !! T' = handlers s !! T' ∧ collection s1 T' = collection s T') ∧
    _collectionMap s1 = _collectionMap s ∧ _map s1 = _map s.
Proof.
  intros s.
  assert (Hwf : wf s) by (by apply (bool_decide_unpack _); vm_compute).
  split; [done|].
  exact (AddHandler_frame s 7 100 nullptr _ Hwf (or_introl eq_refl)).
Defined.

(** X6, what [removeHandler] leaves alone.  On a registration of a well
    formed bus it returns without calling user code; the registration keeps
    its handler, list and sender and is marked as not registered; the type
    map, the other registrations, the other lists, the descriptor store,
    [_map] and the addresses in use are as they were; and the list of the
    registration holds what it held, without the registration, in the same
    order. *)
Theorem removeHandler_frame s r reg :
  wf s → regs s !! r = Some reg →
  ∃ s1, removeHandler r s = ([], Done ((), s1)) ∧
    regs s1 !! r = Some (set_registered false reg) ∧
    (∀ r', r' ≠ r → regs s1 !! r' = regs s !! r') ∧
    handlers s1 = handlers s ∧
    (∀ L, L ≠ registrations reg → lists s1 !! L = lists s !! L) ∧
    lists s1 !! registrations reg =
      filter (λ nd : N * N, nd.2 ≠ r) <$> lists s !! registrations reg ∧
    _collectionMap s1 = _collectionMap s ∧ _map s1 = _map s ∧ brk s1 = brk s.
Proof.
  intros Hwf Hr. rewrite (removeHandler_run _ _ _ Hr).
  destruct (wf_regs _ Hwf _ _ Hr) as (_ & [nodes HL] & _).
  destruct (registered reg) eqn:Hon.
  - rewrite HL. eexists. split; [done|]. simpl.
    split; [by rewrite lookup_insert_eq|].
    split; [by intros r' Hne; rewrite lookup_insert_ne|].
    split; [done|].
    split; [by intros L Hne; rewrite lookup_insert_ne|].
    by rewrite lookup_insert_eq.
  - exists s. split; [done|].
    split; [by rewrite <-Hon, set_registered_same|].
    do 3 (split; [done|]).
    split; [|done]. rewrite HL. simpl. f_equal. symmetry.
    apply filter_all, Forall_forall. intros nd Hin Heq.
    destruct (wf_lists _ Hwf _ _ HL) as (_ & _ & Hall). rewrite Forall_forall in Hall.
    destruct (Hall _ Hin) as [_ Hnode]. rewrite Heq, Hr in Hnode.
    destruct Hnode as [_ Hnode]. congruence.
Qed.

Lemma removeHandler_frame_witness :
  let s := exec (AddHandler 7 100;; AddHandler 7 101;; AddHandler 8 102) new_EventBus in
  let reg := {| handler := object 101; registrations := 1; sender := nullptr;
                registered := true |} in
  wf s ∧ regs s !! 4 = Some reg ∧
  ∃ s1, removeHandler 4 s = ([], Done ((), s1)) ∧
    regs s1 !! 4 = Some (set_registered false reg) ∧
    (∀ r', r' ≠ 4 → regs s1 !! r' = regs s !! r') ∧
    handlers s1 = handlers s ∧
    (∀ L, L ≠ registrations reg → lists s1 !! L = lists s !! L) ∧
    lists s1 !! registrations reg =
      filter (λ nd : N * N, nd.2 ≠ 4) <$> lists s !! registrations reg ∧
    _collectionMap s1 = _collectionMap s ∧ _map s1 = _map s ∧ brk s1 = brk s.
Proof.
  intros s reg.
  assert (Hwf : wf s) by (by apply (bool_decide_unpack _); vm_compute).
  assert (Hr : regs s !! 4 = Some reg) by (by vm_compute).
  split; [done|]. split; [done|].
  exact (removeHandler_frame s 4 reg Hwf Hr).
Defined.

(** X7, registering one handler twice.  [AddHandler] does not look for the
    handler in the list: a second registration of the same handler for the
    same type is a second, different registration, and while the handlers
    of the type do not call back into the bus, [FireEvent] calls the
    handler once through each, after the handlers registered before, and
    leaves the bus as it was.  Revoking the first registration leaves the
    second: the handler is then called once. *)
Theorem double_registration dispatch s e h :
  wf s → quiet dispatch s e (collection s (typeid e)) → dispatch h e = [] →
  ∃ r1 r2 s2 s3,
    (r1 ← AddHandler (typeid e) h; r2 ← AddHandler (typeid e) h; mret (r1, r2)) s
      = ([], Done ((r1, r2), s2)) ∧
    r1 ≠ r2 ∧
    FireEvent dispatch e s2 =
      (calls_in_order s e (collection s (typeid e)) ++ [Handled r1 h e; Handled r2 h e],
       Done ((), s2)) ∧
    removeHandler r1 s2 = ([], Done ((), s3)) ∧
    FireEvent dispatch e s3 =
      (calls_in_order s e (collection s (typeid e)) ++ [Handled r2 h e], Done ((), s3)).
Proof.
  intros Hwf Hq Hh.
  destruct (register_added nullptr (typeid e) h s Hwf) as (r1 & s1 & Hrun1 & Hadd1).
  pose proof (added_wf _ _ _ _ _ _ Hadd1) as Hwf1.
  destruct (register_added nullptr (typeid e) h s1 Hwf1) as (r2 & s2 & Hrun2 & Hadd2).
  pose proof (added_wf _ _ _ _ _ _ Hadd2) as Hwf2.
  pose proof (added_quiet dispatch _ _ _ _ _ _ e Hwf Hadd1 Hq Hh) as Hq1.
  pose proof (added_quiet dispatch _ _ _ _ _ _ e Hwf1 Hadd2 Hq1 Hh) as Hq2.
  destruct (added_entry _ _ _ _ _ _ Hadd1) as (L1 & _ & _ & Hr1).
  destruct (added_entry _ _ _ _ _ _ Hadd2) as (L2 & HT2 & _ & _).
  assert (Hne : r1 ≠ r2).
  { intros Heq. pose proof (added_fresh _ _ _ _ _ _ Hadd2) as Hf. congruence. }
  assert (Hr1' : is_Some (regs s2 !! r1)).
  { rewrite (added_regs _ _ _ _ _ _ Hadd2) by done. by rewrite Hr1. }
  destruct (removeHandler_removed r1 s2 Hwf2 Hr1') as (s3 & Hrun3 & Hrm).
  assert (Hcalls : calls_in_order s2 e (collection s2 (typeid e)) =
                   calls_in_order s e (collection s (typeid e)) ++
                     [Handled r1 h e; Handled r2 h e]).
  { rewrite (added_calls_in_order _ _ _ _ _ _ e Hwf1 Hadd2).
    rewrite (added_calls_in_order _ _ _ _ _ _ e Hwf Hadd1).
    by rewrite <-app_assoc. }
  exists r1, r2, s2, s3. split.
  { rewrite !AddHandler_register.
    rewrite (bind_Done _ _ _ _ _ _ Hrun1). simpl.
    by rewrite (bind_Done _ _ _ _ _ _ Hrun2). }
  split; [done|]. split.
  { rewrite (FireEvent_quiet_state dispatch e s2 Hwf2) by (by rewrite ?HT2).
    by rewrite Hcalls. }
  split; [done|].
  rewrite (FireEvent_quiet_state dispatch e s3).
  - f_equal. rewrite (calls_in_order_removed r1 s2 s3 e _ Hrm), Hcalls, filter_app.
    f_equal.
    + apply filter_all, Forall_forall. intros o Ho.
      apply calls_in_order_through in Ho as (nd & a & Hin & _ & ->). simpl.
      intros Heq. destruct (wf_collection_regs s _ nd Hwf Hin) as [reg Hreg].
      rewrite Heq, (added_fresh _ _ _ _ _ _ Hadd1) in Hreg. done.
    + rewrite filter_cons_False by (simpl; tauto).
      by rewrite filter_cons_True by (simpl; congruence).
  - by eapply wf_removed.
  - by rewrite (removed_handlers _ _ _ Hrm), HT2.
  - rewrite (removed_collection _ _ _ (typeid e) Hrm).
    by apply (handler_of_quiet_removed dispatch [r1] s2 s3).
Qed.

Lemma double_registration_witness :
  let e := {| typeid := 7; payload := 0 |} in
  let s := exec (AddHandler 7 99) new_EventBus in
  wf s ∧ quiet (λ _ _, []) s e (collection s (typeid e)) ∧
  ∃ r1 r2 s2 s3,
    (r1 ← AddHandler 7 100; r2 ← AddHandler 7 100; mret (r1, r2)) s
      = ([], Done ((r1, r2), s2)) ∧
    r1 ≠ r2 ∧
    FireEvent (λ _ _, []) e s2 =
      (calls_in_order s e (collection s (typeid e)) ++
         [Handled r1 100 e; Handled r2 100 e],
       Done ((), s2)) ∧
    removeHandler r1 s2 = ([], Done ((), s3)) ∧
    FireEvent (λ _ _, []) e s3 =
      (calls_in_order s e (collection s (typeid e)) ++ [Handled r2 100 e],
       Done ((), s3)).
Proof.
  intros e s.
  assert (Hwf : wf s) by (by apply (bool_decide_unpack _); vm_compute).
  assert (Hq : quiet (λ _ _, []) s e (collection s (typeid e))).
  { apply Forall_forall. done. }
  split; [done|]. split; [done|].
  exact (double_registration (λ _ _, []) s e 100 Hwf Hq eq_refl).
Defined.

(** X8, one call for each registration.  On a well-formed and tidy bus
    whose handlers for the event's type do not call back into the bus,
    [FireEvent] calls the handler of every registration in the list of the
    type exactly once. *)
Theorem called_exactly_once dispatch s e r :
  wf s → tidy s → quiet dispatch s e (collection s (typeid e)) →
  r ∈ (collection s (typeid e)).*2 →
  ∃ a, handler_of s r = Some a ∧
       filter (handled_through r) (FireEvent dispatch e s).1 = [Handled r a e].
Proof.
  intros Hwf Ht Hq (nd & -> & Hin)%list_elem_of_fmap.
  destruct (wf_collection_regs s _ nd Hwf Hin) as [reg Hreg].
  destruct (wf_regs _ Hwf _ _ Hreg) as (_ & _ & Hobj).
  destruct (handler reg) as [|a|] eqn:Ha; try done.
  assert (Hho : handler_of s nd.2 = Some a).
  { unfold handler_of. by rewrite Hreg, Ha. }
  exists a. split; [done|].
  destruct (FireEvent_quiet dispatch e s Hwf Hq) as (s' & -> & _). simpl.
  apply calls_in_order_once; [by apply tidy_collection|done..].
Qed.

Lemma called_exactly_once_witness :
  let e := {| typeid := 7; payload := 0 |} in
  let s := exec (AddHandler 7 100;; AddHandler 7 101;; AddHandler 7 100) new_EventBus in
  wf s ∧ tidy s ∧ quiet (λ _ _, []) s e (collection s (typeid e)) ∧
  (4 : N) ∈ (collection s (typeid e)).*2 ∧
  ∃ a, handler_of s 4 = Some a ∧
       filter (handled_through 4) (FireEvent (λ _ _, []) e s).1 = [Handled 4 a e].
Proof.
  intros e s.
  assert (Hwf : wf s) by (by apply (bool_decide_unpack _); vm_compute).
  assert (Ht : tidy s) by (by apply (bool_decide_unpack _); vm_compute).
  assert (Hq : quiet (λ _ _, []) s e (collection s (typeid e))).
  { apply Forall_forall. done. }
  assert (Hin : (4 : N) ∈ (collection s (typeid e)).*2).
  { apply (bool_decide_unpack _). by vm_compute. }
  split; [done|]. split; [done|]. split; [done|]. split; [done|].
  exact (called_exactly_once (λ _ _, []) s e 4 Hwf Ht Hq Hin).
Defined.

(** X9, what [FireEvent] does to the bus.  When the handlers of the
    event's type do not call back into the bus, [FireEvent] returns and the
    bus is as it was before the call, with one exception: a type that had
    no entry in the type map has a null entry afterwards. *)
Theorem FireEvent_state dispatch s e :
  wf s → quiet dispatch s e (collection s (typeid e)) →
  (FireEvent dispatch e s).2 =
  Done ((), if handlers s !! typeid e is Some _ then s
            else set_handlers (insert (typeid e) None) s).
Proof.
  intros Hwf Hq. destruct (handlers s !! typeid e) as [p|] eqn:Hk.
  - by rewrite (FireEvent_quiet_state dispatch e s Hwf) by (by rewrite ?Hk).
  - by rewrite (FireEvent_missing dispatch e s Hk).
Qed.

Lemma FireEvent_state_witness :
  let e := {| typeid := 7; payload := 0 |} in
  let s := exec (AddHandler 7 100;; AddHandler 7 101;; AddHandler 8 102) new_EventBus in
  wf s ∧ quiet (λ _ _, []) s e (collection s (typeid e)) ∧
  (FireEvent (λ _ _, []) e s).2 = Done ((), s).
Proof.
  intros e s.
  assert (Hwf : wf s) by (by apply (bool_decide_unpack _); vm_compute).
  assert (Hq : quiet (λ _ _, []) s e (collection s (typeid e))).
  { apply Forall_forall. done. }
  split; [done|]. split; [done|].
  rewrite (FireEvent_state (λ _ _, []) s e Hwf Hq). by vm_compute.
Defined.

(** X10, a revoked registration is not called in the rest of the pass.
    When every handler of the event's type revokes only registrations that
    exist and not the one it is called through, then once [FireEvent] has
    called a handler, it calls through none of the registrations that
    handler revoked. *)
Theorem revoked_not_called_afterwards dispatch s e t1 r a t2 x :
  wf s → Forall (polite dispatch s e) (collection s (typeid e)).*2 →
  (FireEvent dispatch e s).1 = t1 ++ Handled r a e :: t2 →
  x ∈ targets (dispatch a e) →
  Forall (λ o, ¬ handled_through x o) t2.
Proof.
  intros Hwf Hpol Htr Hx. destruct (handlers s !! typeid e) as [[L|]|] eqn:Hk.
  - destruct (wf_handlers _ Hwf _ _ Hk) as [[nodes HL] _].
    rewrite (collection_found _ _ _ _ Hk HL) in Hpol.
    destruct (FireEvent_pass dispatch e L nodes s Hwf Hk HL Hpol) as (s' & X & Hfire & _).
    rewrite Hfire in Htr. simpl in Htr. by eapply pass_after.
  - rewrite (FireEvent_null dispatch _ _ Hk) in Htr. by apply app_cons_not_nil in Htr.
  - rewrite (FireEvent_missing dispatch _ _ Hk) in Htr. by apply app_cons_not_nil in Htr.
Qed.

Lemma revoked_not_called_afterwards_witness :
  let dispatch := λ (h : N) (_ : RoutedEvent),
                    if decide (h = 101) then [call_removeHandler 6] else [] in
  let e := {| typeid := 7; payload := 0 |} in
  let s := exec (AddHandler 7 100;; AddHandler 7 101;; AddHandler 7 102;;
                 AddHandler 7 103) new_EventBus in
  wf s ∧ Forall (polite dispatch s e) (collection s (typeid e)).*2 ∧
  (FireEvent dispatch e s).1 =
    [Handled 2 100 e] ++ Handled 4 101 e :: [Handled 8 103 e] ∧
  Forall (λ o, ¬ handled_through 6 o) [Handled 8 103 e].
Proof.
  intros dispatch e s.
  assert (Hwf : wf s) by (by apply (bool_decide_unpack _); vm_compute).
  assert (Hpol : Forall (polite dispatch s e) (collection s (typeid e)).*2).
  { apply (bool_decide_unpack _). by vm_compute. }
  assert (Htr : (FireEvent dispatch e s).1 =
                [Handled 2 100 e] ++ Handled 4 101 e :: [Handled 8 103 e])
    by (by vm_compute).
  assert (Hx : (6 : N) ∈ targets (dispatch 101 e)).
  { apply (bool_decide_unpack _). by vm_compute. }
  split; [done|]. split; [done|]. split; [done|].
  exact (revoked_not_called_afterwards dispatch s e _ 4 101 _ 6 Hwf Hpol Htr Hx).
Defined.

(** X11, when [FireEvent] returns.  The handlers are those of [dispatch]:
    a handler, while it is called, does nothing to the bus but revoke
    registrations, and it returns (no handler fires or registers from
    inside a dispatch, none throws).  On a well-formed bus [FireEvent] then
    returns exactly when every handler it calls revokes only registrations
    that exist, and not the one it is called through.  Otherwise the first
    call of a handler that does not is the last call [FireEvent] makes, and
    its behaviour is undefined; it throws nothing of its own and its loop
    ends. *)
Theorem FireEvent_stops_only_on_misuse dispatch s e :
  wf s →
  (Forall (courteous dispatch s) (FireEvent dispatch e s).1 ∧
   ∃ s', (FireEvent dispatch e s).2 = Done ((), s')) ∨
  (∃ t r a,
     (FireEvent dispatch e s).1 = t ++ [Handled r a e] ∧
     Forall (courteous dispatch s) t ∧ ¬ courteous dispatch s (Handled r a e) ∧
     (FireEvent dispatch e s).2 = Stop UndefinedBehaviour).
Proof.
  intros Hwf. destruct (FireEvent_outcome dispatch e s Hwf) as [Hall|Hbad].
  - left. split; [done|].
    destruct (FireEvent_courteous dispatch e s Hwf Hall) as (s0 & s' & Hfire & _).
    exists s'. by rewrite Hfire.
  - by right.
Qed.

Lemma FireEvent_stops_only_on_misuse_witness :
  let dispatch := λ (h : N) (_ : RoutedEvent),
                    if decide (h = 101) then [call_removeHandler 9] else [] in
  let e := {| typeid := 7; payload := 0 |} in
  let s := exec (AddHandler 7 100;; AddHandler 7 101;; AddHandler 7 102) new_EventBus in
  wf s ∧ FireEvent dispatch e s =
           ([Handled 2 100 e] ++ [Handled 4 101 e], Stop UndefinedBehaviour) ∧
  ((Forall (courteous dispatch s) (FireEvent dispatch e s).1 ∧
    ∃ s', (FireEvent dispatch e s).2 = Done ((), s')) ∨
   (∃ t r a,
      (FireEvent dispatch e s).1 = t ++ [Handled r a e] ∧
      Forall (courteous dispatch s) t ∧ ¬ courteous dispatch s (Handled r a e) ∧
      (FireEvent dispatch e s).2 = Stop UndefinedBehaviour)).
Proof.
  intros dispatch e s.
  assert (Hwf : wf s) by (by apply (bool_decide_unpack _); vm_compute).
  split; [done|]. split; [by vm_compute|].
  exact (FireEvent_stops_only_on_misuse dispatch s e Hwf).
Defined.

(** X12, self-removal anywhere in the list.  When the handlers in front of
    a registration do not call back into the bus and the handler of that
    registration revokes it, [FireEvent] calls the handlers in front and
    this one, in order, and its behaviour is then undefined: the loop
    increments the iterator of a node that [remove] has erased.  It does
    not matter where in the list the registration is, nor what comes
    behind it. *)
Theorem self_removal_anywhere dispatch s e front n r post a :
  wf s → collection s (typeid e) = front ++ (n, r) :: post →
  quiet dispatch s e front →
  handler_of s r = Some a → r ∈ targets (dispatch a e) →
  Forall (λ x, is_Some (regs s !! x)) (targets (dispatch a e)) →
  FireEvent dispatch e s =
  (calls_in_order s e front ++ [Handled r a e], Stop UndefinedBehaviour).
Proof.
  intros Hwf Hcol Hq Ha Hself Hvalid.
  assert (Hentry : ∃ L, handlers s !! typeid e = Some (Some L) ∧
                        lists s !! L = Some (front ++ (n, r) :: post)).
  { revert Hcol. unfold collection.
    destruct (handlers s !! typeid e) as [[L|]|];
      try (by intros ?%app_cons_not_nil).
    destruct (lists s !! L) as [nodes|] eqn:HL; simpl; [|by intros ?%app_cons_not_nil].
    intros ->. by exists L. }
  destruct Hentry as (L & Hk & HL).
  rewrite (FireEvent_found dispatch _ _ _ _ Hk HL).
  destruct front as [|[n0 r0] q].
  - simpl. by apply (range_for_self_removal dispatch e L _ s [] n r post a).
  - assert (Hall : Forall (λ nd : N * N,
                     ∃ a0, handler_of s nd.2 = Some a0 ∧ dispatch a0 e = [])
                     ((n0, r0) :: q)).
    { apply Forall_forall. intros nd Hin.
      destruct (wf_handler_of s L _ nd Hwf HL) as [a0 Ha0].
      { apply elem_of_app. by left. }
      exists a0. split; [done|]. unfold quiet in Hq. rewrite Forall_forall in Hq.
      by apply (Hq nd Hin). }
    destruct (wf_lists _ Hwf _ _ HL) as (_ & Hnd & _).
    replace (length (((n0, r0) :: q) ++ (n, r) :: post))
      with (S (length q) + S (length post))%nat
      by (simpl; rewrite length_app; simpl; lia).
    simpl begin.
    rewrite (range_for_skip_quiet dispatch e L q (S (length post)) s [] n0 r0 n r post
               HL Hnd Hall).
    by rewrite (range_for_self_removal dispatch e L _ s ((n0, r0) :: q) n r post a).
Qed.

Lemma self_removal_anywhere_witness :
  let dispatch := λ (h : N) (_ : RoutedEvent),
                    if decide (h = 101) then [call_removeHandler 4] else [] in
  let e := {| typeid := 7; payload := 0 |} in
  let s := exec (AddHandler 7 100;; AddHandler 7 101;; AddHandler 7 102) new_EventBus in
  wf s ∧ collection s (typeid e) = [(3, 2)] ++ (5, 4) :: [(7, 6)] ∧
  FireEvent dispatch e s =
    (calls_in_order s e [(3, 2)] ++ [Handled 4 101 e], Stop UndefinedBehaviour).
Proof.
  intros dispatch e s.
  assert (Hwf : wf s) by (by apply (bool_decide_unpack _); vm_compute).
  assert (Hcol : collection s (typeid e) = [(3, 2)] ++ (5, 4) :: [(7, 6)])
    by (by vm_compute).
  assert (Hq : quiet dispatch s e [(3, 2)]).
  { apply Forall_singleton. intros a0. by intros [= <-]. }
  assert (Hvalid : Forall (λ x, is_Some (regs s !! x)) (targets (dispatch 101 e))).
  { apply (bool_decide_unpack _). by vm_compute. }
  assert (Hself : (4 : N) ∈ targets (dispatch 101 e)).
  { apply (bool_decide_unpack _). by vm_compute. }
  split; [done|]. split; [done|].
  exact (self_removal_anywhere dispatch s e [(3, 2)] 5 4 [(7, 6)] 101 Hwf Hcol Hq
           eq_refl Hself Hvalid).
Defined.

(** X13, revocation takes out the calls of one registration.  When the
    handlers of the event's type do not call back into the bus, the calls
    [FireEvent] makes after [removeHandler] on a registration are the calls
    it made before, in the same order, without those through that
    registration. *)
Theorem revocation_takes_out_its_calls dispatch s e r :
  wf s → is_Some (regs s !! r) → quiet dispatch s e (collection s (typeid e)) →
  ∃ t s0 s1 s2,
    FireEvent dispatch e s = (t, Done ((), s0)) ∧
    removeHandler r s = ([], Done ((), s1)) ∧
    FireEvent dispatch e s1 =
      (filter (λ o, ¬ handled_through r o) t, Done ((), s2)).
Proof.
  intros Hwf Hr Hq.
  destruct (FireEvent_quiet dispatch e s Hwf Hq) as (s0 & Hfire & _).
  destruct (removeHandler_removed r s Hwf Hr) as (s1 & Hrun & Hrm).
  assert (Hq1 : quiet dispatch s1 e (collection s1 (typeid e))).
  { rewrite (removed_collection _ _ _ (typeid e) Hrm).
    by apply (handler_of_quiet_removed dispatch [r] s s1). }
  destruct (FireEvent_quiet dispatch e s1 (wf_removed _ _ _ Hwf Hrm) Hq1)
    as (s2 & Hfire1 & _).
  eexists _, s0, s1, s2. split; [done|]. split; [done|].
  by rewrite Hfire1, (calls_in_order_removed r s s1 e _ Hrm).
Qed.

Lemma revocation_takes_out_its_calls_witness :
  let e := {| typeid := 7; payload := 0 |} in
  let s := exec (AddHandler 7 100;; AddHandler 7 101;; AddHandler 7 102) new_EventBus in
  wf s ∧ is_Some (regs s !! 4) ∧ quiet (λ _ _, []) s e (collection s (typeid e)) ∧
  ∃ t s0 s1 s2,
    FireEvent (λ _ _, []) e s = (t, Done ((), s0)) ∧
    removeHandler 4 s = ([], Done ((), s1)) ∧
    FireEvent (λ _ _, []) e s1 =
      (filter (λ o, ¬ handled_through 4 o) t, Done ((), s2)).
Proof.
  intros e s.
  assert (Hwf : wf s) by (by apply (bool_decide_unpack _); vm_compute).
  assert (Hr : is_Some (regs s !! 4)) by (by apply (bool_decide_unpack _); vm_compute).
  assert (Hq : quiet (λ _ _, []) s e (collection s (typeid e))).
  { apply Forall_forall. done. }
  split; [done|]. split; [done|]. split; [done|].
  exact (revocation_takes_out_its_calls (λ _ _, []) s e 4 Hwf Hr Hq).
Defined.

(** X14, the typed registry does not read the descriptor store.  Each
    operation of the typed registry, started on a bus in which the
    descriptor store has been changed in any way, as [Add], [Subscribe] and
    a cancellation change it, calls the same handlers in the same order,
    returns the same or stops the same, and leaves the same bus, with the
    store as it was given. *)
Theorem registry_apart_from_descriptor_store dispatch f :
  (∀ T h, apart f (AddHandler T h)) ∧
  (∀ T h snd, apart f (AddHandler_sender T h snd)) ∧
  (∀ r, apart f (getHandler r)) ∧ (∀ r, apart f (getSender r)) ∧
  (∀ r, apart f (removeHandler r)) ∧
  (∀ e, apart f (FireEvent dispatch e)).
Proof.
  split; [intros T h; rewrite AddHandler_register; apply apart_register|].
  split; [intros T h snd; rewrite AddHandler_sender_register; apply apart_register|].
  split; [intros r; apply apart_getHandler|].
  split; [intros r; apply apart_getSender|].
  split; [intros r; apply apart_removeHandler|].
  intros e. apply apart_bind; [apply apart_handlers_index|].
  intros [L|]; [|apply apart_ret].
  apply apart_bind; [apply apart_list_load|]. intros nodes.
  apply apart_range_for. apply apart_dispatch_to.
Qed.

(** X15, [_map] is never written.  The member [_map] of the bus is as the
    constructor left it, empty, after every client program that returns. *)
Theorem map_member_never_written dispatch base_of calls s u s' :
  wf s → (run_calls dispatch base_of calls s).2 = Done (u, s') →
  _map s' = _map s ∧ (s = new_EventBus → _map s' = ∅).
Proof.
  intros Hwf Hd.
  assert (Heq : _map s' = _map s).
  { destruct (run_calls_invariant dispatch base_of (λ s0, wf s0 ∧ _map s0 = _map s)
                (λ _, True) (λ _, True))
      with (cs := calls) (s := s) as [_ Hfin].
    - intros c s0 _ [Hwf0 Hm0]. split; [by apply Forall_forall|]. intros u' s1 Hd1.
      pose proof (run_call_change dispatch base_of _ _ _ _ Hwf0 Hd1) as Hch.
      split; [by eapply change_wf|]. rewrite <-Hm0.
      destruct Hch as [snd T h r Hadd|X s2 Hs2 Hrm|g ->].
      + exact (added_map _ _ _ _ _ _ Hadd).
      + rewrite (removed_map _ _ _ Hrm). by destruct Hs2 as [->|(k & _ & ->)].
      + done.
    - by apply Forall_forall.
    - done.
    - by eapply Hfin. }
  split; [done|]. intros ->. by rewrite Heq.
Qed.

Lemma map_member_never_written_witness :
  let e := {| typeid := 7; payload := 0 |} in
  let calls := [do_AddHandler 7 100; do_Subscribe_handler 7 5; do_FireEvent e;
                do_Publish e; do_removeHandler 2] in
  let s' := exec (run_calls (λ _ _, []) (λ _ _, false) calls) new_EventBus in
  wf new_EventBus ∧ _map s' = ∅.
Proof.
  intros e calls s'.
  assert (Hwf : wf new_EventBus) by (by apply (bool_decide_unpack _); vm_compute).
  assert (Hd : (run_calls (λ _ _, []) (λ _ _, false) calls new_EventBus).2 =
               Done ((), s')) by (by vm_compute).
  split; [done|].
  exact (proj2 (map_member_never_written (λ _ _, []) (λ _ _, false) calls new_EventBus
                  () s' Hwf Hd) eq_refl).
Defined.
